(** * EasyAgents: the coordination core, embedded and verified

    A shallow embedding of the three coordinators of EasyAgents
    (TaskManager, LockManager, AgentManager) and of the WorkflowStore they
    share, followed by the theorems that settle the specification's claims.

    Conventions of the embedding.
    - A JavaScript object used as a dictionary ([Record<string, T>]) is a
      [gmap string T] of its own properties.  A lookup also finds what
      every object inherits from its prototype: [property] models the
      lookup, and the statements say where a key must not be such a name.
    - An ISO-8601 timestamp string is the integer number of milliseconds
      it denotes ([new Date(s).getTime()]); [toISOString] keeps
      millisecond precision, so nothing is lost.
    - A timestamp is written with [toISOString], which throws outside
      the range of [Date]; [valid_date] is that range.
    - Every public method reads the clock a handful of times within one
      synchronous call; the embedding passes one reading, [now], to the
      call.  [waitForLock], which sleeps, gets one reading per poll.
    - [store.load()] parses the YAML file afresh: each load yields an
      object graph that shares nothing with any other load.  A method is
      therefore a function from the persisted document to a result and
      the persisted document after the call; where a method holds two
      loads at once (takeoverAgent), both are modelled.
    - Random and time-derived identifiers are inputs of the call. *)

From stdpp Require Import gmap strings list fin_maps pretty.
From Stdlib Require Import ZArith Lia Ascii Sorted.

Local Open Scope Z_scope.

(** ** JavaScript values *)

(** [number]: the integers, and the not-a-number value that [parseInt]
    can hand to [addTask]. *)
Inductive number : Type :=
  | Num (z : Z)
  | NaN.

#[global] Instance number_eq_dec : EqDecision number.
Proof. solve_decision. Defined.

(** Truthiness, as [||], [!] and [if (...)] test it. *)
Definition truthy_number (n : number) : bool :=
  match n with
  | Num z => negb (z =? 0)
  | NaN => false
  end.

Definition truthy_string (s : string) : bool :=
  match s with
  | EmptyString => false
  | String _ _ => true
  end.

(** A [string | null] or [string | undefined] slot. *)
Definition truthy_ostring (o : option string) : bool :=
  match o with
  | Some s => truthy_string s
  | None => false
  end.

(** [a || b] on an optional argument. *)
Definition or_default {A : Type} (truthy : A → bool) (o : option A) (d : A) : A :=
  match o with
  | Some a => if truthy a then a else d
  | None => d
  end.

(** [xs.includes(x)] *)
Definition includes (x : string) (xs : list string) : bool :=
  bool_decide (x ∈ xs).

(** [[...new Set(xs)]]: first occurrences, in insertion order. *)
Fixpoint set_spread (seen xs : list string) : list string :=
  match xs with
  | [] => []
  | x :: r =>
      if includes x seen then set_spread seen r
      else x :: set_spread (x :: seen) r
  end.

(** ** Type definitions (types/index.ts) *)

Inductive TaskStatus : Type :=
  | pending | in_progress | completed | blocked | failed.

#[global] Instance TaskStatus_eq_dec : EqDecision TaskStatus.
Proof. solve_decision. Defined.

(** The status as it appears inside a template string. *)
Definition TaskStatus_to_string (s : TaskStatus) : string :=
  match s with
  | pending => "pending"
  | in_progress => "in_progress"
  | completed => "completed"
  | blocked => "blocked"
  | failed => "failed"
  end.

Inductive TaskType : Type :=
  | task_t | validation | refactor | review.

Inductive FileOperationType : Type :=
  | create | modify | delete_op.

Inductive AgentStatus : Type :=
  | active | inactive | terminated.

#[global] Instance AgentStatus_eq_dec : EqDecision AgentStatus.
Proof. solve_decision. Defined.

Inductive SuggestionPriority : Type :=
  | low | medium | high.

#[global] Instance SuggestionPriority_eq_dec : EqDecision SuggestionPriority.
Proof. solve_decision. Defined.

Module TaskFile.
Record t : Type := mk {
    path : string;
    type : FileOperationType;
    methods : option (list string)
  }.
End TaskFile.

Module TaskResult.
Record t : Type := mk {
    completed_at : Z;
    summary : string;
    output_ref : option string
  }.
End TaskResult.

Module Task.
Record t : Type := mk {
    id : string;
    name : string;
    description : string;
    status : TaskStatus;
    priority : number;
    assigned_agent : option string;
    dependencies : list string;
    dependents : list string;
    context_from : option (list string);
    files : list TaskFile.t;
    result : option TaskResult.t;
    async_execution : option bool;
    task_type : option TaskType;
    condition : option (gmap string (list string));
    created_at : Z;
    updated_at : Z
  }.

  (** In-place field assignments, [task.f = v]. *)
Definition set_status (v : TaskStatus) (x : t) : t :=
    mk (id x) (name x) (description x) v (priority x) (assigned_agent x)
       (dependencies x) (dependents x) (context_from x) (files x) (result x)
       (async_execution x) (task_type x) (condition x) (created_at x)
       (updated_at x).
Definition set_assigned_agent (v : option string) (x : t) : t :=
    mk (id x) (name x) (description x) (status x) (priority x) v
       (dependencies x) (dependents x) (context_from x) (files x) (result x)
       (async_execution x) (task_type x) (condition x) (created_at x)
       (updated_at x).
Definition set_dependencies (v : list string) (x : t) : t :=
    mk (id x) (name x) (description x) (status x) (priority x)
       (assigned_agent x) v (dependents x) (context_from x) (files x)
       (result x) (async_execution x) (task_type x) (condition x)
       (created_at x) (updated_at x).
Definition set_dependents (v : list string) (x : t) : t :=
    mk (id x) (name x) (description x) (status x) (priority x)
       (assigned_agent x) (dependencies x) v (context_from x) (files x)
       (result x) (async_execution x) (task_type x) (condition x)
       (created_at x) (updated_at x).
Definition set_result (v : option TaskResult.t) (x : t) : t :=
    mk (id x) (name x) (description x) (status x) (priority x)
       (assigned_agent x) (dependencies x) (dependents x) (context_from x)
       (files x) v (async_execution x) (task_type x) (condition x)
       (created_at x) (updated_at x).
Definition set_updated_at (v : Z) (x : t) : t :=
    mk (id x) (name x) (description x) (status x) (priority x)
       (assigned_agent x) (dependencies x) (dependents x) (context_from x)
       (files x) (result x) (async_execution x) (task_type x) (condition x)
       (created_at x) v.
End Task.

Module FileLock.
Record t : Type := mk {
    locked_by : string;
    locked_at : Z;
    expires_at : Z;
    methods : list string;
    reason : string;
    task_id : option string
  }.

Definition set_locked_by (v : string) (x : t) : t :=
    mk v (locked_at x) (expires_at x) (methods x) (reason x) (task_id x).
Definition set_expires_at (v : Z) (x : t) : t :=
    mk (locked_by x) (locked_at x) v (methods x) (reason x) (task_id x).
Definition set_methods (v : list string) (x : t) : t :=
    mk (locked_by x) (locked_at x) (expires_at x) v (reason x) (task_id x).
End FileLock.

Module FileModification.
Record t : Type := mk {
    file : string;
    method : option string;
    modified_by : string;
    modified_at : Z;
    lines_changed : string;
    reason : string;
    task_id : string
  }.
End FileModification.

Module RefactorSuggestion.
Record t : Type := mk {
    id : string;
    file : string;
    method : option string;
    reason : string;
    suggested_by : string;
    created_at : Z;
    priority : SuggestionPriority
  }.
End RefactorSuggestion.

Module Agent.
Record t : Type := mk {
    id : string;
    name : string;
    claimed_tasks : list string;
    session_id : option string;
    status : AgentStatus;
    last_active : Z;
    created_at : Z
  }.

Definition set_name (v : string) (x : t) : t :=
    mk (id x) v (claimed_tasks x) (session_id x) (status x) (last_active x)
       (created_at x).
Definition set_claimed_tasks (v : list string) (x : t) : t :=
    mk (id x) (name x) v (session_id x) (status x) (last_active x)
       (created_at x).
Definition set_status (v : AgentStatus) (x : t) : t :=
    mk (id x) (name x) (claimed_tasks x) (session_id x) v (last_active x)
       (created_at x).
Definition set_last_active (v : Z) (x : t) : t :=
    mk (id x) (name x) (claimed_tasks x) (session_id x) (status x) v
       (created_at x).
End Agent.

Module WorkflowConfig.
Record t : Type := mk {
    lock_timeout : Z;
    max_parallel_agents : Z;
    auto_refactor_threshold : Z;
    inactive_timeout : Z
  }.
End WorkflowConfig.

Module Workflow.
Record t : Type := mk {
    version : string;
    project : string;
    created_at : Z;
    updated_at : Z;
    config : WorkflowConfig.t;
    agents : gmap string Agent.t;
    tasks : gmap string Task.t;
    locks : gmap string FileLock.t;
    modifications : list FileModification.t;
    refactor_suggestions : list RefactorSuggestion.t
  }.

Definition set_updated_at (v : Z) (x : t) : t :=
    mk (version x) (project x) (created_at x) v (config x) (agents x)
       (tasks x) (locks x) (modifications x) (refactor_suggestions x).
Definition set_agents (v : gmap string Agent.t) (x : t) : t :=
    mk (version x) (project x) (created_at x) (updated_at x) (config x) v
       (tasks x) (locks x) (modifications x) (refactor_suggestions x).
Definition set_tasks (v : gmap string Task.t) (x : t) : t :=
    mk (version x) (project x) (created_at x) (updated_at x) (config x)
       (agents x) v (locks x) (modifications x) (refactor_suggestions x).
Definition set_locks (v : gmap string FileLock.t) (x : t) : t :=
    mk (version x) (project x) (created_at x) (updated_at x) (config x)
       (agents x) (tasks x) v (modifications x) (refactor_suggestions x).
Definition set_modifications (v : list FileModification.t) (x : t) : t :=
    mk (version x) (project x) (created_at x) (updated_at x) (config x)
       (agents x) (tasks x) (locks x) v (refactor_suggestions x).
Definition set_refactor_suggestions (v : list RefactorSuggestion.t) (x : t) : t :=
    mk (version x) (project x) (created_at x) (updated_at x) (config x)
       (agents x) (tasks x) (locks x) (modifications x) v.
End Workflow.

Definition DEFAULT_CONFIG : WorkflowConfig.t :=
  WorkflowConfig.mk 180000 5 3 600000.

Definition createDefaultWorkflow (projectName : string) (now : Z) : Workflow.t :=
  Workflow.mk "1.0" projectName now now DEFAULT_CONFIG ∅ ∅ ∅ [] [].

(** ** WorkflowStore (core/workflow-store.ts) *)

(** [save]: stamp the update time and write the whole document. *)
Definition save (now : Z) (wf : Workflow.t) : Workflow.t :=
  Workflow.set_updated_at now wf.

(** [normalizePath]: every backslash becomes a forward slash. *)
Fixpoint normalizePath (filePath : string) : string :=
  match filePath with
  | EmptyString => EmptyString
  | String c r =>
      String (if Ascii.eqb c "\"%char then "/"%char else c) (normalizePath r)
  end.

(** [writeOutput] returns the path of the file it writes,
    [<easyagentsDir>/outputs/<taskId>.md]; the file's content is outside
    the document and is not modelled.  [path.join] would also bring the
    path to normal form; the segments are kept as given here, and no
    statement below reads the string. *)
Definition writeOutput (easyagentsDir taskId : string) : string :=
  easyagentsDir +:+ "/outputs/" +:+ taskId +:+ ".md".

(** ** Operation results (types/index.ts) *)

Module TaskClaimResult.
Record t : Type := mk {
  success : bool;
  message : string;
  task : option Task.t;
  agent_id : option string
}.
End TaskClaimResult.

Module TaskCompleteResult.
Record t : Type := mk {
  success : bool;
  message : string;
  unblocked_tasks : option (list string)
}.
End TaskCompleteResult.

(** ** TaskManager (core/task-manager.ts) *)

Module AddTaskOptions.
Record t : Type := mk {
  name : string;
  description : string;
  priority : option number;
  dependencies : option (list string);
  files : option (list TaskFile.t);
  async_execution : option bool;
  task_type : option TaskType
}.
End AddTaskOptions.

(** The loop of [addTask] over [task.dependencies]: each dependency that
    exists and does not list the new task yet gets it pushed onto its
    dependents. *)
Definition link_dependency (taskId : string) (tasks : gmap string Task.t)
    (depId : string) : gmap string Task.t :=
  match tasks !! depId with
  | Some depTask =>
      if includes taskId (Task.dependents depTask) then tasks
      else <[depId := Task.set_dependents (Task.dependents depTask ++ [taskId]) depTask]> tasks
  | None => tasks
  end.

(** [addTask]; [taskId] is what [generateTaskId()] returned. *)
Definition addTask (options : AddTaskOptions.t) (taskId : string) (now : Z)
    (workflow : Workflow.t) : Task.t * Workflow.t :=
  let task :=
    Task.mk taskId
      (AddTaskOptions.name options)
      (AddTaskOptions.description options)
      pending
      (or_default truthy_number (AddTaskOptions.priority options) (Num 3))
      None
      (default [] (AddTaskOptions.dependencies options))
      []
      None
      (default [] (AddTaskOptions.files options))
      None
      (Some (or_default (λ b : bool, b) (AddTaskOptions.async_execution options) false))
      (Some (default task_t (AddTaskOptions.task_type options)))
      None
      now
      now in
  let tasks1 :=
    foldl (link_dependency taskId) (Workflow.tasks workflow) (Task.dependencies task) in
  (task, save now (Workflow.set_tasks (<[taskId := task]> tasks1) workflow)).

Definition getTask (taskId : string) (workflow : Workflow.t) : option Task.t :=
  Workflow.tasks workflow !! taskId.

(** One round of the dependency loop of [isTaskAvailable]: the
    dependency exists and is completed. *)
Definition dependency_completed (wf : Workflow.t) (depId : string) : bool :=
  match Workflow.tasks wf !! depId with
  | Some depTask => bool_decide (Task.status depTask = completed)
  | None => false
  end.

Definition isTaskAvailable (task : Task.t) (wf : Workflow.t) : bool :=
  if bool_decide (Task.status task ≠ pending) then false
  else if truthy_ostring (Task.assigned_agent task) then false
  else forallb (dependency_completed wf) (Task.dependencies task).

Definition claim_failure (msg : string) : TaskClaimResult.t :=
  TaskClaimResult.mk false msg None None.

Definition claimTask (taskId agentId : string) (now : Z) (workflow : Workflow.t)
    : TaskClaimResult.t * Workflow.t :=
  match Workflow.tasks workflow !! taskId with
  | None => (claim_failure ("Task " +:+ taskId +:+ " not found"), workflow)
  | Some task =>
      if negb (isTaskAvailable task workflow) then
        if bool_decide (Task.status task ≠ pending) then
          (claim_failure ("Task is already " +:+ TaskStatus_to_string (Task.status task)),
           workflow)
        else if truthy_ostring (Task.assigned_agent task) then
          (claim_failure ("Task is already assigned to "
                          +:+ default "" (Task.assigned_agent task)),
           workflow)
        else (claim_failure "Task dependencies not completed", workflow)
      else
        let task' :=
          Task.set_updated_at now
            (Task.set_assigned_agent (Some agentId)
               (Task.set_status in_progress task)) in
        let agents' :=
          match Workflow.agents workflow !! agentId with
          | Some agent =>
              let agent1 :=
                if includes taskId (Agent.claimed_tasks agent) then agent
                else Agent.set_claimed_tasks (Agent.claimed_tasks agent ++ [taskId]) agent in
              <[agentId := Agent.set_last_active now agent1]> (Workflow.agents workflow)
          | None => Workflow.agents workflow
          end in
        (TaskClaimResult.mk true ("Task " +:+ taskId +:+ " claimed successfully")
           (Some task') (Some agentId),
         save now
           (Workflow.set_agents agents'
              (Workflow.set_tasks (<[taskId := task']> (Workflow.tasks workflow)) workflow)))
  end.

(** [agent.claimed_tasks = agent.claimed_tasks.filter(id => id !== taskId)]
    on the agent [agentId], when there is one. *)
Definition unclaim (taskId agentId : string) (touch : Agent.t → Agent.t)
    (agents : gmap string Agent.t) : gmap string Agent.t :=
  match agents !! agentId with
  | Some agent =>
      <[agentId := touch (Agent.set_claimed_tasks
                            (filter (λ id, id ≠ taskId) (Agent.claimed_tasks agent))
                            agent)]> agents
  | None => agents
  end.

(** The test of the unblocking loop of [completeTask]. *)
Definition unblocked (wf : Workflow.t) (dependentId : string) : bool :=
  match Workflow.tasks wf !! dependentId with
  | Some dependent => isTaskAvailable dependent wf
  | None => false
  end.

Definition completeTask (easyagentsDir taskId summary : string)
    (output : option string) (now : Z) (workflow : Workflow.t)
    : TaskCompleteResult.t * Workflow.t :=
  match Workflow.tasks workflow !! taskId with
  | None =>
      (TaskCompleteResult.mk false ("Task " +:+ taskId +:+ " not found") None, workflow)
  | Some task =>
      if bool_decide (Task.status task = completed) then
        (TaskCompleteResult.mk false "Task is already completed" None, workflow)
      else
        let outputRef :=
          if truthy_ostring output then Some (writeOutput easyagentsDir taskId)
          else None in
        let task' :=
          Task.set_updated_at now
            (Task.set_result (Some (TaskResult.mk now summary outputRef))
               (Task.set_status completed task)) in
        let agents' :=
          if truthy_ostring (Task.assigned_agent task') then
            unclaim taskId (default "" (Task.assigned_agent task'))
              (Agent.set_last_active now) (Workflow.agents workflow)
          else Workflow.agents workflow in
        let workflow' :=
          Workflow.set_agents agents'
            (Workflow.set_tasks (<[taskId := task']> (Workflow.tasks workflow)) workflow) in
        let unblockedTasks :=
          filter (λ dependentId, Is_true (unblocked workflow' dependentId))
            (Task.dependents task') in
        (TaskCompleteResult.mk true ("Task " +:+ taskId +:+ " completed")
           (Some unblockedTasks),
         save now workflow')
  end.

Definition updateTaskStatus (taskId : string) (status : TaskStatus) (now : Z)
    (workflow : Workflow.t) : bool * Workflow.t :=
  match Workflow.tasks workflow !! taskId with
  | None => (false, workflow)
  | Some task =>
      let task' := Task.set_updated_at now (Task.set_status status task) in
      (true, save now (Workflow.set_tasks (<[taskId := task']> (Workflow.tasks workflow)) workflow))
  end.

(** The two repair loops of [deleteTask]. *)
Definition unlink_dependent (taskId : string) (tasks : gmap string Task.t)
    (depId : string) : gmap string Task.t :=
  match tasks !! depId with
  | Some depTask =>
      <[depId := Task.set_dependents
                   (filter (λ id, id ≠ taskId) (Task.dependents depTask)) depTask]> tasks
  | None => tasks
  end.

Definition unlink_dependency (taskId : string) (tasks : gmap string Task.t)
    (dependentId : string) : gmap string Task.t :=
  match tasks !! dependentId with
  | Some dependent =>
      <[dependentId := Task.set_dependencies
                         (filter (λ id, id ≠ taskId) (Task.dependencies dependent))
                         dependent]> tasks
  | None => tasks
  end.

(** [deleteTask].  [task] is an object of the document, so the second
    loop runs over [task.dependents] as the first loop left it. *)
Definition deleteTask (taskId : string) (now : Z) (workflow : Workflow.t)
    : bool * Workflow.t :=
  match Workflow.tasks workflow !! taskId with
  | None => (false, workflow)
  | Some task =>
      let tasks1 :=
        foldl (unlink_dependent taskId) (Workflow.tasks workflow) (Task.dependencies task) in
      let task1 := default task (tasks1 !! taskId) in
      let tasks2 := foldl (unlink_dependency taskId) tasks1 (Task.dependents task1) in
      let task2 := default task1 (tasks2 !! taskId) in
      let agents' :=
        if truthy_ostring (Task.assigned_agent task2) then
          unclaim taskId (default "" (Task.assigned_agent task2)) (λ a, a)
            (Workflow.agents workflow)
        else Workflow.agents workflow in
      (true,
       save now (Workflow.set_agents agents' (Workflow.set_tasks (delete taskId tasks2) workflow)))
  end.

(** ** LockManager (core/lock-manager.ts) *)

Module WaitInfo.
Record t : Type := mk {
  locked_by : string;
  reason : string;
  expires_in_ms : Z;
  methods : list string
}.
End WaitInfo.

Module LockAcquireResult.
Record t : Type := mk {
  success : bool;
  message : string;
  lock : option FileLock.t;
  waitInfo : option WaitInfo.t
}.
End LockAcquireResult.

Module LockReleaseResult.
Record t : Type := mk {
  success : bool;
  message : string
}.
End LockReleaseResult.

Module LockWaitResult.
Record t : Type := mk {
  released : bool;
  modifications : option (list FileModification.t);
  timeout : option bool
}.
End LockWaitResult.

Module LockStatus.
Record t : Type := mk {
  locked : bool;
  lock : option FileLock.t;
  expired : option bool
}.
End LockStatus.

Module AcquireOptions.
Record t : Type := mk {
  methods : option (list string);
  reason : string;
  timeout : option Z;
  task_id : option string
}.
End AcquireOptions.

Module ReleaseModification.
Record t : Type := mk {
  method : option string;
  lines_changed : string;
  reason : string;
  task_id : string
}.
End ReleaseModification.

Definition truthy_Z (z : Z) : bool := negb (z =? 0).

Definition isLockExpired (lock : FileLock.t) (now : Z) : bool :=
  FileLock.expires_at lock <=? now.

Definition methodsConflict (requestedMethods lockedMethods : list string) : bool :=
  if includes "*" lockedMethods || includes "*" requestedMethods then true
  else existsb (λ m, includes m lockedMethods) requestedMethods.

Definition createLock (workflow : Workflow.t) (filePath agentId : string)
    (methods : list string) (reason : string) (timeout : Z)
    (taskId : option string) (now : Z) : LockAcquireResult.t * Workflow.t :=
  let lock := FileLock.mk agentId now (now + timeout) methods reason taskId in
  (LockAcquireResult.mk true "Lock acquired successfully" (Some lock) None,
   save now (Workflow.set_locks (<[filePath := lock]> (Workflow.locks workflow)) workflow)).

Definition acquireLock (filePath agentId : string) (options : AcquireOptions.t)
    (now : Z) (workflow : Workflow.t) : LockAcquireResult.t * Workflow.t :=
  let normalizedPath := normalizePath filePath in
  let requestedMethods := default ["*"] (AcquireOptions.methods options) in
  let timeout :=
    or_default truthy_Z (AcquireOptions.timeout options)
      (WorkflowConfig.lock_timeout (Workflow.config workflow)) in
  let fresh (wf : Workflow.t) :=
    createLock wf normalizedPath agentId requestedMethods
      (AcquireOptions.reason options) timeout (AcquireOptions.task_id options) now in
  match Workflow.locks workflow !! normalizedPath with
  | Some existingLock =>
      if isLockExpired existingLock now then
        fresh (Workflow.set_locks (delete normalizedPath (Workflow.locks workflow)) workflow)
      else if bool_decide (FileLock.locked_by existingLock = agentId) then
        let extended :=
          FileLock.set_methods
            (set_spread [] (FileLock.methods existingLock ++ requestedMethods))
            (FileLock.set_expires_at (now + timeout) existingLock) in
        (LockAcquireResult.mk true "Lock extended" (Some extended) None,
         save now
           (Workflow.set_locks (<[normalizedPath := extended]> (Workflow.locks workflow))
              workflow))
      else if negb (methodsConflict requestedMethods (FileLock.methods existingLock)) then
        fresh workflow
      else
        (LockAcquireResult.mk false
           ("File locked by " +:+ FileLock.locked_by existingLock) None
           (Some (WaitInfo.mk (FileLock.locked_by existingLock)
                    (FileLock.reason existingLock)
                    (FileLock.expires_at existingLock - now)
                    (FileLock.methods existingLock))),
         workflow)
  | None => fresh workflow
  end.

(** [n.toString(36)] *)
Definition digit36 (d : N) : ascii :=
  default "0"%char
    (String.get (N.to_nat d) "0123456789abcdefghijklmnopqrstuvwxyz").

Fixpoint toString36_go (fuel : nat) (n : N) (acc : string) : string :=
  let acc' := String (digit36 (n mod 36)%N) acc in
  match fuel with
  | O => acc'
  | S fuel' => if (n / 36 =? 0)%N then acc' else toString36_go fuel' (n / 36)%N acc'
  end.

Definition toString36 (z : Z) : string :=
  if z <? 0 then "-" +:+ toString36_go (N.size_nat (Z.to_N (- z))) (Z.to_N (- z)) ""
  else toString36_go (N.size_nat (Z.to_N z)) (Z.to_N z) "".

Definition dquote : string := String "034"%char EmptyString.

Definition DAY_MS : Z := 24 * 60 * 60 * 1000.

(** The filter of [checkRefactorSuggestion] over the modifications: same
    file, same method unless none was given, within the last day. *)
Definition recent_mod (filePath : string) (method : option string) (oneDayAgo : Z)
    (m : FileModification.t) : bool :=
  bool_decide (FileModification.file m = filePath)
  && (negb (truthy_ostring method) || bool_decide (FileModification.method m = method))
  && (oneDayAgo <? FileModification.modified_at m).

(** The test of [find] over the suggestions. *)
Definition same_suggestion (filePath : string) (method : option string)
    (s : RefactorSuggestion.t) : bool :=
  bool_decide (RefactorSuggestion.file s = filePath)
  && (negb (truthy_ostring method) || bool_decide (RefactorSuggestion.method s = method)).

Definition checkRefactorSuggestion (workflow : Workflow.t) (filePath : string)
    (method : option string) (now : Z) : Workflow.t :=
  let threshold := WorkflowConfig.auto_refactor_threshold (Workflow.config workflow) in
  let oneDayAgo := now - DAY_MS in
  let recentMods :=
    List.filter (recent_mod filePath method oneDayAgo) (Workflow.modifications workflow) in
  let count := Z.of_nat (length recentMods) in
  if threshold <=? count then
    if existsb (same_suggestion filePath method) (Workflow.refactor_suggestions workflow)
    then workflow
    else
      let times := pretty (length recentMods) +:+ " times in the last 24 hours" in
      let suggestion :=
        RefactorSuggestion.mk
          ("refactor_" +:+ toString36 now)
          filePath
          method
          (if truthy_ostring method then
             "Method " +:+ dquote +:+ default "" method +:+ dquote
             +:+ " has been modified " +:+ times
           else "File has been modified " +:+ times)
          "system"
          now
          (if threshold * 2 <=? count then high else medium) in
      Workflow.set_refactor_suggestions
        (Workflow.refactor_suggestions workflow ++ [suggestion]) workflow
  else workflow.

Definition releaseLock (filePath agentId : string)
    (modification : option ReleaseModification.t) (now : Z) (workflow : Workflow.t)
    : LockReleaseResult.t * Workflow.t :=
  let normalizedPath := normalizePath filePath in
  match Workflow.locks workflow !! normalizedPath with
  | None => (LockReleaseResult.mk false "No lock found for this file", workflow)
  | Some lock =>
      if bool_decide (FileLock.locked_by lock ≠ agentId) then
        (LockReleaseResult.mk false
           ("Lock owned by " +:+ FileLock.locked_by lock +:+ ", not " +:+ agentId),
         workflow)
      else
        let workflow1 :=
          match modification with
          | Some modification =>
              let mod_ :=
                FileModification.mk normalizedPath
                  (ReleaseModification.method modification) agentId now
                  (ReleaseModification.lines_changed modification)
                  (ReleaseModification.reason modification)
                  (ReleaseModification.task_id modification) in
              checkRefactorSuggestion
                (Workflow.set_modifications (Workflow.modifications workflow ++ [mod_]) workflow)
                normalizedPath (ReleaseModification.method modification) now
          | None => workflow
          end in
        (LockReleaseResult.mk true "Lock released successfully",
         save now
           (Workflow.set_locks (delete normalizedPath (Workflow.locks workflow1)) workflow1))
  end.

Definition getLockStatus (filePath : string) (now : Z) (workflow : Workflow.t)
    : LockStatus.t * Workflow.t :=
  let normalizedPath := normalizePath filePath in
  match Workflow.locks workflow !! normalizedPath with
  | None => (LockStatus.mk false None None, workflow)
  | Some lock =>
      if isLockExpired lock now then
        (LockStatus.mk false None (Some true),
         save now (Workflow.set_locks (delete normalizedPath (Workflow.locks workflow)) workflow))
      else (LockStatus.mk true (Some lock) None, workflow)
  end.

(** The filter of [waitForLock] once the lock is gone. *)
Definition recent_since (normalizedPath : string) (startTime : Z)
    (m : FileModification.t) : bool :=
  bool_decide (FileModification.file m = normalizedPath)
  && (startTime - 60000 <? FileModification.modified_at m).

(** One poll of [waitForLock]: what [Date.now()] reads at the head of the
    loop, and what the other agents do to the persisted document while
    this one sleeps afterwards. *)
Module Poll.
Record t : Type := mk {
  clock : Z;
  interference : Workflow.t → Workflow.t
}.
End Poll.

(** The loop of [waitForLock], one round per poll.  [None]: the polls
    given do not reach the end of the wait. *)
Fixpoint waitLoop (filePath normalizedPath : string) (startTime timeout : Z)
    (polls : list Poll.t) (workflow : Workflow.t)
    : option (LockWaitResult.t * Workflow.t) :=
  match polls with
  | [] => None
  | poll :: polls' =>
      if Poll.clock poll - startTime <? timeout then
        let '(status, workflow1) := getLockStatus filePath (Poll.clock poll) workflow in
        if negb (LockStatus.locked status) then
          Some (LockWaitResult.mk true
                  (Some (List.filter (recent_since normalizedPath startTime)
                           (Workflow.modifications workflow1)))
                  None,
                workflow1)
        else
          waitLoop filePath normalizedPath startTime timeout polls'
            (Poll.interference poll workflow1)
      else Some (LockWaitResult.mk false None (Some true), workflow)
  end.

(** [waitForLock]; [startTime] is the first reading of the clock.  The
    sleep between two polls lasts [checkInterval], which shows in the
    clocks of [polls] (see [paced]). *)
Definition waitForLock (filePath : string) (timeout checkInterval : option Z)
    (startTime : Z) (polls : list Poll.t) (workflow : Workflow.t)
    : option (LockWaitResult.t * Workflow.t) :=
  waitLoop filePath (normalizePath filePath) startTime (default 180000 timeout)
    polls workflow.

(** The clocks of the polls of a wait that sleeps [checkInterval] between
    two of them: none before the start, each at least [checkInterval]
    after the one before. *)
Fixpoint paced (checkInterval : Z) (previous : Z) (polls : list Poll.t) : Prop :=
  match polls with
  | [] => True
  | poll :: polls' =>
      previous ≤ Poll.clock poll ∧ paced checkInterval (Poll.clock poll + checkInterval) polls'
  end.

Definition forceReleaseLock (filePath : string) (now : Z) (workflow : Workflow.t)
    : bool * Workflow.t :=
  let normalizedPath := normalizePath filePath in
  match Workflow.locks workflow !! normalizedPath with
  | Some _ =>
      (true, save now (Workflow.set_locks (delete normalizedPath (Workflow.locks workflow)) workflow))
  | None => (false, workflow)
  end.

Definition cleanupExpiredLocks (now : Z) (workflow : Workflow.t) : Z * Workflow.t :=
  let kept := filter (λ kv, ¬ Is_true (isLockExpired kv.2 now)) (Workflow.locks workflow) in
  let cleaned := Z.of_nat (size (Workflow.locks workflow)) - Z.of_nat (size kept) in
  (cleaned, if 0 <? cleaned then save now (Workflow.set_locks kept workflow) else workflow).

Definition dismissRefactorSuggestion (suggestionId : string) (now : Z)
    (workflow : Workflow.t) : bool * Workflow.t :=
  match list_find (λ s, RefactorSuggestion.id s = suggestionId)
          (Workflow.refactor_suggestions workflow) with
  | Some (index, _) =>
      (true,
       save now
         (Workflow.set_refactor_suggestions
            (delete index (Workflow.refactor_suggestions workflow)) workflow))
  | None => (false, workflow)
  end.

(** ** AgentManager (core/agent-manager.ts) *)

(** What the store keeps on disk: the workflow file and the local agent
    id file (its trimmed content, when the file exists). *)
Module Store.
Record t : Type := mk {
  document : Workflow.t;
  agent_id_file : option string
}.
End Store.

Module AgentTakeoverResult.
Record t : Type := mk {
  success : bool;
  message : string;
  inherited_tasks : option (list string)
}.
End AgentTakeoverResult.

(** [getOrCreateCurrentAgent]; [generatedId] and [sessionId] are what
    [generateAgentId()] and [generateSessionId()] would return.  The agent
    returned is an object of the document this call loaded. *)
Definition getOrCreateCurrentAgent (name : option string)
    (generatedId sessionId : string) (now : Z) (store : Store.t)
    : Agent.t * Store.t :=
  let workflow := Store.document store in
  let known :=
    if truthy_ostring (Store.agent_id_file store)
    then Workflow.agents workflow !! default "" (Store.agent_id_file store)
    else None in
  match known with
  | Some agent =>
      let agent' := Agent.set_status active (Agent.set_last_active now agent) in
      (agent',
       Store.mk
         (save now
            (Workflow.set_agents
               (<[default "" (Store.agent_id_file store) := agent']> (Workflow.agents workflow))
               workflow))
         (Store.agent_id_file store))
  | None =>
      let agent :=
        Agent.mk generatedId
          (or_default truthy_string name
             ("Agent " +:+ pretty (size (Workflow.agents workflow) + 1)%nat))
          [] (Some sessionId) active now now in
      (agent,
       Store.mk
         (save now
            (Workflow.set_agents (<[generatedId := agent]> (Workflow.agents workflow)) workflow))
         (Some generatedId))
  end.

Definition getCurrentAgent (store : Store.t) : option Agent.t :=
  if truthy_ostring (Store.agent_id_file store)
  then Workflow.agents (Store.document store) !! default "" (Store.agent_id_file store)
  else None.

(** The mutation [listAgents] performs and saves before it lists: an
    active agent silent for longer than the inactivity window becomes
    inactive. *)
Definition reclassify (inactiveTimeout now : Z) (agent : Agent.t) : Agent.t :=
  if bool_decide (Agent.status agent = active)
     && (inactiveTimeout <? now - Agent.last_active agent)
  then Agent.set_status inactive agent
  else agent.

Definition listAgents_save (now : Z) (workflow : Workflow.t) : Workflow.t :=
  save now
    (Workflow.set_agents
       (reclassify (WorkflowConfig.inactive_timeout (Workflow.config workflow)) now
          <$> Workflow.agents workflow)
       workflow).

Definition renameAgent (newName : string) (now : Z) (store : Store.t) : bool * Store.t :=
  let workflow := Store.document store in
  match getCurrentAgent store with
  | None => (false, store)
  | Some agent =>
      let agent' := Agent.set_last_active now (Agent.set_name newName agent) in
      (true,
       Store.mk
         (save now
            (Workflow.set_agents
               (<[default "" (Store.agent_id_file store) := agent']> (Workflow.agents workflow))
               workflow))
         (Store.agent_id_file store))
  end.

Definition touchAgent (now : Z) (store : Store.t) : Store.t :=
  let workflow := Store.document store in
  match getCurrentAgent store with
  | None => store
  | Some agent =>
      let agent' := Agent.set_status active (Agent.set_last_active now agent) in
      Store.mk
        (save now
           (Workflow.set_agents
              (<[default "" (Store.agent_id_file store) := agent']> (Workflow.agents workflow))
              workflow))
        (Store.agent_id_file store)
  end.

Definition deactivateAgent (now : Z) (store : Store.t) : bool * Store.t :=
  let workflow := Store.document store in
  match getCurrentAgent store with
  | None => (false, store)
  | Some agent =>
      (true,
       Store.mk
         (save now
            (Workflow.set_agents
               (<[default "" (Store.agent_id_file store) := Agent.set_status inactive agent]>
                  (Workflow.agents workflow))
               workflow))
         None)
  end.

(** One round of the transfer loop of [takeoverAgent]: the task, when the
    document has it, is reassigned; the id is pushed onto
    [currentAgent.claimed_tasks] unless it is there already. *)
Definition inherit_task (acc : gmap string Task.t * Agent.t) (taskId : string)
    : gmap string Task.t * Agent.t :=
  let '(tasks, currentAgent) := acc in
  (match tasks !! taskId with
   | Some task => <[taskId := Task.set_assigned_agent (Some (Agent.id currentAgent)) task]> tasks
   | None => tasks
   end,
   if includes taskId (Agent.claimed_tasks currentAgent) then currentAgent
   else Agent.set_claimed_tasks (Agent.claimed_tasks currentAgent ++ [taskId]) currentAgent).

Definition transfer_lock (targetAgentId currentId : string) (lock : FileLock.t) : FileLock.t :=
  if bool_decide (FileLock.locked_by lock = targetAgentId)
  then FileLock.set_locked_by currentId lock
  else lock.

(** [takeoverAgent], with the final state of the [currentAgent] object as
    a third component.  The method loads the document ([workflow]) and
    then calls [getOrCreateCurrentAgent], which loads the file a second
    time, updates and saves that second document, and returns an agent
    object of it.  The assignments to [currentAgent] therefore land in an
    object that [workflow] does not contain, and the closing
    [save(workflow)] writes the first document over the second. *)
Definition takeoverAgent_run (targetAgentId generatedId sessionId : string) (now : Z)
    (store : Store.t) : AgentTakeoverResult.t * Store.t * option Agent.t :=
  let workflow := Store.document store in
  match Workflow.agents workflow !! targetAgentId with
  | None =>
      (AgentTakeoverResult.mk false ("Agent " +:+ targetAgentId +:+ " not found") None,
       store, None)
  | Some targetAgent =>
      if bool_decide (Agent.status targetAgent = terminated) then
        (AgentTakeoverResult.mk false "Agent is already terminated" None, store, None)
      else
        let '(currentAgent, store1) :=
          getOrCreateCurrentAgent None generatedId sessionId now store in
        if bool_decide (Agent.id currentAgent = targetAgentId) then
          (AgentTakeoverResult.mk false "Cannot takeover yourself" None, store1,
           Some currentAgent)
        else
          let inheritedTasks := Agent.claimed_tasks targetAgent in
          let '(tasks', currentAgent1) :=
            foldl inherit_task (Workflow.tasks workflow, currentAgent) inheritedTasks in
          let agents' :=
            <[targetAgentId := Agent.set_claimed_tasks [] (Agent.set_status terminated targetAgent)]>
              (Workflow.agents workflow) in
          let locks' :=
            transfer_lock targetAgentId (Agent.id currentAgent) <$> Workflow.locks workflow in
          let currentAgent2 := Agent.set_last_active now currentAgent1 in
          (AgentTakeoverResult.mk true
             ("Took over " +:+ pretty (length inheritedTasks) +:+ " tasks from "
              +:+ Agent.name targetAgent)
             (Some inheritedTasks),
           Store.mk
             (save now
                (Workflow.set_locks locks'
                   (Workflow.set_agents agents'
                      (Workflow.set_tasks tasks' workflow))))
             (Store.agent_id_file store1),
           Some currentAgent2)
  end.

Definition takeoverAgent (targetAgentId generatedId sessionId : string) (now : Z)
    (store : Store.t) : AgentTakeoverResult.t * Store.t :=
  (takeoverAgent_run targetAgentId generatedId sessionId now store).1.

Definition cleanupTerminatedAgents (olderThanDays : option Z) (now : Z)
    (workflow : Workflow.t) : Z * Workflow.t :=
  let cutoff := now - default 7 olderThanDays * DAY_MS in
  let kept :=
    filter (λ kv, ¬ (Agent.status kv.2 = terminated ∧ Agent.last_active kv.2 < cutoff))
      (Workflow.agents workflow) in
  let cleaned := Z.of_nat (size (Workflow.agents workflow)) - Z.of_nat (size kept) in
  (cleaned, if 0 <? cleaned then save now (Workflow.set_agents kept workflow) else workflow).

(** ** Failures of [claimTask], by cause

    The methods return [{ success: false, message }]; the causes the
    specification names are told apart by the message. *)

Inductive ConflictCause : Type :=
  | NonPending (status : TaskStatus)
  | AlreadyAssigned (agentId : string)
  | DependenciesUnmet.

Definition conflict_message (cause : ConflictCause) : string :=
  match cause with
  | NonPending status => "Task is already " +:+ TaskStatus_to_string status
  | AlreadyAssigned agentId => "Task is already assigned to " +:+ agentId
  | DependenciesUnmet => "Task dependencies not completed"
  end.

Definition claim_NotFound (taskId : string) (r : TaskClaimResult.t) : Prop :=
  r = claim_failure ("Task " +:+ taskId +:+ " not found").

Definition claim_Conflict (cause : ConflictCause) (r : TaskClaimResult.t) : Prop :=
  r = claim_failure (conflict_message cause).

(** ** Histories

    The calls that write the store, and a run of them in sequence, each
    at its own reading of the clock. *)

Inductive Op : Type :=
  | OpAddTask (options : AddTaskOptions.t) (taskId : string)
  | OpClaimTask (taskId agentId : string)
  | OpCompleteTask (easyagentsDir taskId summary : string) (output : option string)
  | OpUpdateTaskStatus (taskId : string) (status : TaskStatus)
  | OpDeleteTask (taskId : string)
  | OpAcquireLock (filePath agentId : string) (options : AcquireOptions.t)
  | OpReleaseLock (filePath agentId : string) (modification : option ReleaseModification.t)
  | OpGetLockStatus (filePath : string)
  | OpForceReleaseLock (filePath : string)
  | OpCleanupExpiredLocks
  | OpDismissRefactorSuggestion (suggestionId : string)
  | OpGetOrCreateCurrentAgent (name : option string) (generatedId sessionId : string)
  | OpListAgents
  | OpRenameAgent (newName : string)
  | OpTouchAgent
  | OpDeactivateAgent
  | OpTakeoverAgent (targetAgentId generatedId sessionId : string)
  | OpCleanupTerminatedAgents (olderThanDays : option Z).

Definition on_document (f : Workflow.t → Workflow.t) (store : Store.t) : Store.t :=
  Store.mk (f (Store.document store)) (Store.agent_id_file store).

Definition step (store : Store.t) (call : Z * Op) : Store.t :=
  let now := call.1 in
  match call.2 with
  | OpAddTask options taskId => on_document (λ wf, (addTask options taskId now wf).2) store
  | OpClaimTask taskId agentId => on_document (λ wf, (claimTask taskId agentId now wf).2) store
  | OpCompleteTask dir taskId summary output =>
      on_document (λ wf, (completeTask dir taskId summary output now wf).2) store
  | OpUpdateTaskStatus taskId status =>
      on_document (λ wf, (updateTaskStatus taskId status now wf).2) store
  | OpDeleteTask taskId => on_document (λ wf, (deleteTask taskId now wf).2) store
  | OpAcquireLock filePath agentId options =>
      on_document (λ wf, (acquireLock filePath agentId options now wf).2) store
  | OpReleaseLock filePath agentId modification =>
      on_document (λ wf, (releaseLock filePath agentId modification now wf).2) store
  | OpGetLockStatus filePath => on_document (λ wf, (getLockStatus filePath now wf).2) store
  | OpForceReleaseLock filePath => on_document (λ wf, (forceReleaseLock filePath now wf).2) store
  | OpCleanupExpiredLocks => on_document (λ wf, (cleanupExpiredLocks now wf).2) store
  | OpDismissRefactorSuggestion suggestionId =>
      on_document (λ wf, (dismissRefactorSuggestion suggestionId now wf).2) store
  | OpGetOrCreateCurrentAgent name generatedId sessionId =>
      (getOrCreateCurrentAgent name generatedId sessionId now store).2
  | OpListAgents => on_document (listAgents_save now) store
  | OpRenameAgent newName => (renameAgent newName now store).2
  | OpTouchAgent => touchAgent now store
  | OpDeactivateAgent => (deactivateAgent now store).2
  | OpTakeoverAgent targetAgentId generatedId sessionId =>
      (takeoverAgent targetAgentId generatedId sessionId now store).2
  | OpCleanupTerminatedAgents olderThanDays =>
      on_document (λ wf, (cleanupTerminatedAgents olderThanDays now wf).2) store
  end.

Definition run (history : list (Z * Op)) (store : Store.t) : Store.t :=
  foldl step store history.

(** The calls that delete the task [taskId] or put it back to pending:
    [deleteTask], [updateTaskStatus(_, 'pending')], and an [addTask] whose
    generated id is the task's own. *)
Definition resets (taskId : string) (op : Op) : Prop :=
  match op with
  | OpDeleteTask t => t = taskId
  | OpUpdateTaskStatus t status => t = taskId ∧ status = pending
  | OpAddTask _ t => t = taskId
  | _ => False
  end.

(** The status of a task of the document, when the document has it. *)
Definition task_status (workflow : Workflow.t) (taskId : string) : option TaskStatus :=
  Task.status <$> Workflow.tasks workflow !! taskId.

(** The task is in the document and has left the pending state. *)
Definition held (taskId : string) (workflow : Workflow.t) : Prop :=
  ∃ status, task_status workflow taskId = Some status ∧ status ≠ pending.

(** ** Worked documents *)

Definition sample_task (id : string) (status : TaskStatus) (assignee : option string)
    (dependencies dependents : list string) : Task.t :=
  Task.mk id id "" status (Num 3) assignee dependencies dependents None [] None
    (Some false) (Some task_t) None 0 0.

Definition sample_agent (id : string) (claimed : list string) : Agent.t :=
  Agent.mk id id claimed (Some "s") active 0 0.

Definition sample_workflow (agents : gmap string Agent.t) (tasks : gmap string Task.t)
    (locks : gmap string FileLock.t) (modifications : list FileModification.t)
    : Workflow.t :=
  Workflow.mk "1.0" "demo" 0 0 DEFAULT_CONFIG agents tasks locks modifications [].

(** B depends on A1 and A2; nothing is claimed yet. *)
Definition diamond : Workflow.t :=
  sample_workflow (<["a1" := sample_agent "a1" []]> ∅)
    (<["A1" := sample_task "A1" pending None [] ["B"]]>
       (<["A2" := sample_task "A2" pending None [] ["B"]]>
          (<["B" := sample_task "B" pending None ["A1"; "A2"] []]> ∅)))
    ∅ [].

(** Agent a1 holds T1 and T2 and a lease on g.ts; agent a2 holds
    nothing. *)
Definition handover : Workflow.t :=
  sample_workflow
    (<["a1" := sample_agent "a1" ["T1"; "T2"]]> (<["a2" := sample_agent "a2" []]> ∅))
    (<["T1" := sample_task "T1" in_progress (Some "a1") [] []]>
       (<["T2" := sample_task "T2" in_progress (Some "a1") [] []]> ∅))
    (<["g.ts" := FileLock.mk "a1" 0 100000 ["*"] "edit" None]> ∅)
    [].

(** a1 holds f.ts for method foo until 100000. *)
Definition leased : Workflow.t :=
  sample_workflow (<["a1" := sample_agent "a1" []]> ∅) ∅
    (<["f.ts" := FileLock.mk "a1" 0 100000 ["foo"] "edit" None]> ∅) [].

Definition sample_modification (file : string) (method : option string) (at_ : Z)
    : FileModification.t :=
  FileModification.mk file method "a1" at_ "1-2" "fix" "T1".

(** f.ts was modified twice today in method save, and a1 holds it. *)
Definition busy : Workflow.t :=
  sample_workflow (<["a1" := sample_agent "a1" []]> ∅) ∅
    (<["f.ts" := FileLock.mk "a1" 0 100000 ["save"] "edit" None]> ∅)
    [sample_modification "f.ts" (Some "save") 1000;
     sample_modification "f.ts" (Some "save") 2000].

(** Nobody holds f.ts, which was modified once, at 50000. *)
Definition quiet : Workflow.t :=
  sample_workflow ∅ ∅ ∅ [sample_modification "f.ts" None 50000].

(** ** The specification's sentences the code departs from *)

(** Same-owner re-acquisition as the specification's testable property
    words it: the lease ends at the later of its old expiry and
    [now + duration]. *)
Definition extension_keeps_later_expiry (filePath agentId : string)
    (options : AcquireOptions.t) (now : Z) (workflow : Workflow.t) : Prop :=
  ∀ existingLock,
    Workflow.locks workflow !! normalizePath filePath = Some existingLock →
    isLockExpired existingLock now = false →
    FileLock.locked_by existingLock = agentId →
    ∃ lock,
      LockAcquireResult.lock (acquireLock filePath agentId options now workflow).1 = Some lock
      ∧ FileLock.expires_at lock
        = Z.max (FileLock.expires_at existingLock)
            (now + or_default truthy_Z (AcquireOptions.timeout options)
                     (WorkflowConfig.lock_timeout (Workflow.config workflow))).

(** The modifications of one (path, method) pair within the day before
    [now]. *)
Definition pair_count (workflow : Workflow.t) (filePath : string)
    (method : option string) (now : Z) : Z :=
  Z.of_nat
    (length
       (filter (λ m, FileModification.file m = filePath
                     ∧ FileModification.method m = method
                     ∧ now - DAY_MS < FileModification.modified_at m)
          (Workflow.modifications workflow))).

Definition pair_suggested (workflow : Workflow.t) (filePath : string)
    (method : option string) : Prop :=
  ∃ s, s ∈ Workflow.refactor_suggestions workflow
       ∧ RefactorSuggestion.file s = filePath ∧ RefactorSuggestion.method s = method.

(** The heuristic as the specification words it: a release that records
    a modification creates a suggestion exactly when the count of that
    very pair reaches the threshold and the pair has no suggestion. *)
Definition suggestion_follows_pair_count (filePath agentId : string)
    (modification : ReleaseModification.t) (now : Z) (workflow : Workflow.t) : Prop :=
  let workflow' := (releaseLock filePath agentId (Some modification) now workflow).2 in
  let method := ReleaseModification.method modification in
  (∃ s, Workflow.refactor_suggestions workflow'
        = Workflow.refactor_suggestions workflow ++ [s])
  ↔ WorkflowConfig.auto_refactor_threshold (Workflow.config workflow)
      ≤ pair_count workflow' (normalizePath filePath) method now
    ∧ ¬ pair_suggested workflow (normalizePath filePath) method.

(** A successful wait as the specification words it: it returns the
    modifications of the path made after the wait began, and no other. *)
Definition wait_returns_later_modifications (filePath : string)
    (timeout checkInterval : option Z) (startTime : Z) (polls : list Poll.t)
    (workflow : Workflow.t) : Prop :=
  ∀ r workflow',
    waitForLock filePath timeout checkInterval startTime polls workflow = Some (r, workflow') →
    LockWaitResult.released r = true →
    ∀ m, m ∈ default [] (LockWaitResult.modifications r) ↔
         m ∈ Workflow.modifications workflow'
         ∧ FileModification.file m = normalizePath filePath
         ∧ startTime < FileModification.modified_at m.

(** ** Vocabulary of the statements *)

(** A method is named: the argument is given and is not the empty
    string. *)
Definition named (method : option string) : Prop :=
  method ≠ None ∧ method ≠ Some "".

(** The key of a suggestion. *)
Definition suggestion_key (s : RefactorSuggestion.t) : string * option string :=
  (RefactorSuggestion.file s, RefactorSuggestion.method s).

(** The methods two requests conflict on. *)
Definition conflicting (requestedMethods lockedMethods : list string) : Prop :=
  "*" ∈ lockedMethods ∨ "*" ∈ requestedMethods
  ∨ ∃ m, m ∈ requestedMethods ∧ m ∈ lockedMethods.

(** ** The readers of the LockManager *)

(** [getAllLocks]: the leases that have not expired. *)
Definition getAllLocks (now : Z) (workflow : Workflow.t) : gmap string FileLock.t :=
  filter (λ kv, ¬ Is_true (isLockExpired kv.2 now)) (Workflow.locks workflow).

(** [mods.sort((a, b) => time(b) - time(a))].  The sort of an array is
    stable, so its result is the one arrangement that is descending in
    time and keeps modifications of equal time in their order; inserting
    from the right, ahead of the first entry that is not newer, computes
    it. *)
Fixpoint insert_newest (m : FileModification.t) (sorted : list FileModification.t)
    : list FileModification.t :=
  match sorted with
  | [] => [m]
  | y :: r =>
      if FileModification.modified_at y <=? FileModification.modified_at m
      then m :: y :: r
      else y :: insert_newest m r
  end.

Definition sort_newest_first (mods : list FileModification.t) : list FileModification.t :=
  foldr insert_newest [] mods.

(** [xs.slice(0, limit)]: a negative limit counts from the end. *)
Definition slice0 {A : Type} (limit : Z) (xs : list A) : list A :=
  if limit <? 0 then take (Z.to_nat (Z.of_nat (length xs) + limit)) xs
  else take (Z.to_nat limit) xs.

Definition getModificationHistory (filePath : string) (limit : option Z)
    (workflow : Workflow.t) : list FileModification.t :=
  let mods :=
    if truthy_string filePath
    then filter (λ m, FileModification.file m = normalizePath filePath)
           (Workflow.modifications workflow)
    else Workflow.modifications workflow in
  let sorted := sort_newest_first mods in
  match limit with
  | Some n => if truthy_Z n then slice0 n sorted else sorted
  | None => sorted
  end.

Definition getRefactorSuggestions (filePath : option string) (workflow : Workflow.t)
    : list RefactorSuggestion.t :=
  if truthy_ostring filePath
  then filter (λ s, RefactorSuggestion.file s = normalizePath (default "" filePath))
         (Workflow.refactor_suggestions workflow)
  else Workflow.refactor_suggestions workflow.

(** ** [simpleHash] (core/workflow-store.ts)

    The string is the sequence of its UTF-16 code units, as
    [charCodeAt] reads them.  [<<] and [&] work on 32-bit signed
    integers and wrap around; [-] and [+] are exact at this size. *)

Definition wrap32 (z : Z) : Z := (z + 2 ^ 31) mod 2 ^ 32 - 2 ^ 31.

Definition hash_step (hash char : Z) : Z :=
  wrap32 (wrap32 (hash * 2 ^ 5) - hash + char).

(** The value of [hash] when the loop ends. *)
Definition simpleHash_loop (str : list Z) : Z := foldl hash_step 0 str.

(** [n.toString(16)] *)
Definition digit16 (d : N) : ascii :=
  default "0"%char (String.get (N.to_nat d) "0123456789abcdef").

Fixpoint toString16_go (fuel : nat) (n : N) (acc : string) : string :=
  let acc' := String (digit16 (n mod 16)%N) acc in
  match fuel with
  | O => acc'
  | S fuel' => if (n / 16 =? 0)%N then acc' else toString16_go fuel' (n / 16)%N acc'
  end.

Definition toString16 (z : Z) : string :=
  if z <? 0 then "-" +:+ toString16_go (N.size_nat (Z.to_N (- z))) (Z.to_N (- z)) ""
  else toString16_go (N.size_nat (Z.to_N z)) (Z.to_N z) "".

Definition simpleHash (str : list Z) : string :=
  String.substring 0 8 (toString16 (Z.abs (simpleHash_loop str))).

(** The hash of Java's [String.hashCode], before it is cut to 32 bits. *)
Definition polynomial31 (str : list Z) : Z := foldl (λ h c, 31 * h + c) 0 str.

(** ** [formatTimeAgo] (core/agent-manager.ts) *)

Definition formatTimeAgo (then_ now : Z) : string :=
  let diffMs := now - then_ in
  let seconds := diffMs / 1000 in
  let minutes := seconds / 60 in
  let hours := minutes / 60 in
  let days := hours / 24 in
  if 0 <? days then pretty days +:+ "d ago"
  else if 0 <? hours then pretty hours +:+ "h ago"
  else if 0 <? minutes then pretty minutes +:+ "m ago"
  else pretty seconds +:+ "s ago".

(** ** More worked documents *)

(** a1 works on T1, which D waits for. *)
Definition working : Workflow.t :=
  sample_workflow (<["a1" := sample_agent "a1" ["T1"]]> ∅)
    (<["T1" := sample_task "T1" in_progress (Some "a1") [] ["D"]]>
       (<["D" := sample_task "D" pending None ["T1"] []]> ∅))
    ∅ [].

(** Three modifications, not in order of time. *)
Definition history3 : Workflow.t :=
  sample_workflow ∅ ∅ ∅
    [sample_modification "f.ts" None 2000;
     sample_modification "g.ts" None 5000;
     sample_modification "f.ts" (Some "save") 3000].

(** Two suggestions made in the same millisecond, hence of one id. *)
Definition twins : Workflow.t :=
  Workflow.set_refactor_suggestions
    [RefactorSuggestion.mk "refactor_2bc" "f.ts" (Some "save") "r" "system" 3000 medium;
     RefactorSuggestion.mk "refactor_2bc" "g.ts" None "r" "system" 3000 medium]
    (sample_workflow ∅ ∅ ∅ []).

(** a1 is active, a0 was terminated long ago, a3 has been silent. *)
Definition roster : Workflow.t :=
  sample_workflow
    (<["a1" := Agent.mk "a1" "one" [] (Some "s") active 900000000 0]>
       (<["a0" := Agent.mk "a0" "zero" [] (Some "s") terminated 0 0]>
          (<["a3" := Agent.mk "a3" "three" [] (Some "s") active 1000 0]> ∅)))
    ∅ ∅ [].

(** ** Inherited properties and the range of [Date]

    [object[key]] on a plain object finds the object's own property
    [key] and, failing that, what every object inherits from
    [Object.prototype]; [new Date(ms).toISOString()] throws a RangeError
    when [ms] lies outside the range of time values.  The coordinators
    guard against neither.  The definitions above are the methods on
    keys that are own properties or found nowhere, and on representable
    dates; [Method] has [claimTask], [acquireLock], [addTask] and
    [deleteTask] on every argument, with what they throw. *)

(** [Object.getOwnPropertyNames(Object.prototype)] *)
Definition inherited_names : list string :=
  ["constructor"; "__defineGetter__"; "__defineSetter__"; "hasOwnProperty";
   "__lookupGetter__"; "__lookupSetter__"; "isPrototypeOf"; "propertyIsEnumerable";
   "toString"; "valueOf"; "__proto__"; "toLocaleString"].

Definition inherits (key : string) : bool :=
  bool_decide (key ∈ inherited_names).

(** What [object[key]] yields.  An inherited value is a function (for
    [__proto__], the prototype itself): truthy, and [undefined] in every
    field the coordinators read. *)
Inductive Property (A : Type) : Type :=
  | Own (a : A)
  | Inherited
  | Undefined.

Arguments Own {A} a.
Arguments Inherited {A}.
Arguments Undefined {A}.

Definition property {A : Type} (object : gmap string A) (key : string) : Property A :=
  match object !! key with
  | Some a => Own a
  | None => if inherits key then Inherited else Undefined
  end.

(** The largest time value of a [Date], in milliseconds either side of
    the epoch. *)
Definition MAX_DATE : Z := 8640000000000000.

(** [new Date(ms).toISOString()] returns. *)
Definition valid_date (ms : Z) : bool :=
  (- MAX_DATE <=? ms) && (ms <=? MAX_DATE).

Inductive Thrown : Type :=
  | TypeError
  | RangeError.

Inductive Outcome (A : Type) : Type :=
  | Returns (a : A)
  | Throws (e : Thrown).

Arguments Returns {A} a.
Arguments Throws {A} e.

Module Method.

(** [claimTask].  An inherited value for [workflow.tasks[taskId]] is not
    available, its [status] being [undefined], and the failure message is
    built from that status.  An inherited value for
    [workflow.agents[agentId]] passes [if (agent)] and has no
    [claimed_tasks] to call [includes] on: a TypeError, before anything
    is saved. *)
Definition claimTask (taskId agentId : string) (now : Z) (workflow : Workflow.t)
    : Outcome (TaskClaimResult.t * Workflow.t) :=
  match property (Workflow.tasks workflow) taskId with
  | Inherited => Returns (claim_failure "Task is already undefined", workflow)
  | Undefined => Returns (claimTask taskId agentId now workflow)
  | Own task =>
      if isTaskAvailable task workflow then
        match property (Workflow.agents workflow) agentId with
        | Inherited => Throws TypeError
        | _ => Returns (claimTask taskId agentId now workflow)
        end
      else Returns (claimTask taskId agentId now workflow)
  end.

(** [acquireLock].  An inherited value for
    [workflow.locks[normalizedPath]] has not expired (its [expires_at]
    parses to an invalid date, which compares false), is not the
    caller's, and has no [methods] for [methodsConflict] to call
    [includes] on: a TypeError.  Every successful branch converts
    [now + timeout] with [toISOString] before it saves. *)
Definition acquireLock (filePath agentId : string) (options : AcquireOptions.t)
    (now : Z) (workflow : Workflow.t) : Outcome (LockAcquireResult.t * Workflow.t) :=
  let timeout :=
    or_default truthy_Z (AcquireOptions.timeout options)
      (WorkflowConfig.lock_timeout (Workflow.config workflow)) in
  match property (Workflow.locks workflow) (normalizePath filePath) with
  | Inherited => Throws TypeError
  | _ =>
      let result := acquireLock filePath agentId options now workflow in
      if LockAcquireResult.success result.1 && negb (valid_date (now + timeout))
      then Throws RangeError
      else Returns result
  end.

(** The lookup finds an inherited value. *)
Definition finds_inherited {A : Type} (object : gmap string A) (key : string) : bool :=
  match property object key with
  | Inherited => true
  | _ => false
  end.

(** [addTask]; [taskId] is what [generateTaskId()] returned, a string
    that begins with [task_].  An inherited value for
    [workflow.tasks[depId]] passes [depTask &&] and has no [dependents]
    to call [includes] on: a TypeError, before anything is saved. *)
Definition addTask (options : AddTaskOptions.t) (taskId : string) (now : Z)
    (workflow : Workflow.t) : Outcome (Task.t * Workflow.t) :=
  if existsb (finds_inherited (Workflow.tasks workflow))
       (default [] (AddTaskOptions.dependencies options))
  then Throws TypeError
  else Returns (addTask options taskId now workflow).

(** [deleteTask].  An inherited value for [workflow.tasks[taskId]]
    passes [if (!task)] and has no [dependencies] to iterate over; one
    for a dependency, a dependent or the assignee has no list to
    filter.  Each is a TypeError, before anything is saved. *)
Definition deleteTask (taskId : string) (now : Z) (workflow : Workflow.t)
    : Outcome (bool * Workflow.t) :=
  match property (Workflow.tasks workflow) taskId with
  | Undefined => Returns (false, workflow)
  | Inherited => Throws TypeError
  | Own task =>
      if existsb (finds_inherited (Workflow.tasks workflow))
           (Task.dependencies task ++ Task.dependents task)
         || (truthy_ostring (Task.assigned_agent task)
             && finds_inherited (Workflow.agents workflow)
                  (default "" (Task.assigned_agent task)))
      then Throws TypeError
      else Returns (deleteTask taskId now workflow)
  end.

End Method.

(** Availability as the specification words it: pending, no assigned
    agent, every dependency present and completed. *)
Definition available_as_specified (task : Task.t) (wf : Workflow.t) : Prop :=
  isTaskAvailable task wf = true
  ↔ Task.status task = pending
    ∧ Task.assigned_agent task = None
    ∧ ∀ depId, depId ∈ Task.dependencies task →
        ∃ depTask, Workflow.tasks wf !! depId = Some depTask
                   ∧ Task.status depTask = completed.

(** Task A1 of [diamond], claimed for the empty agent id and put back
    to pending. *)
Definition reopened : Workflow.t :=
  (updateTaskStatus "A1" pending 8 (claimTask "A1" "" 7 diamond).2).2.

(** a1 holds f.ts until 100000; f.ts was modified at 50000 and at
    99000, g.ts at 99500. *)
Definition contended : Workflow.t :=
  sample_workflow (<["a1" := sample_agent "a1" []]> ∅) ∅
    (<["f.ts" := FileLock.mk "a1" 0 100000 ["*"] "edit" None]> ∅)
    [sample_modification "f.ts" None 50000;
     sample_modification "f.ts" None 99000;
     sample_modification "g.ts" None 99500].

(** * Facts *)

(** ** JavaScript helpers *)

Lemma includes_true (x : string) (xs : list string) :
  includes x xs = true ↔ x ∈ xs.
Proof. unfold includes. apply bool_decide_eq_true. Qed.

Lemma includes_false (x : string) (xs : list string) :
  includes x xs = false ↔ x ∉ xs.
Proof. unfold includes. apply bool_decide_eq_false. Qed.

Lemma truthy_ostring_false (o : option string) :
  truthy_ostring o = false ↔ o = None ∨ o = Some "".
Proof.
  destruct o as [[|c s]|]; simpl.
  - split; auto.
  - split; [discriminate | intros [H|H]; discriminate].
  - split; auto.
Qed.

Lemma truthy_ostring_true (o : option string) :
  truthy_ostring o = true → ∃ s, o = Some s ∧ s ≠ "".
Proof.
  destruct o as [[|c s]|]; simpl; intros H; try discriminate.
  exists (String c s). split; [reflexivity | discriminate].
Qed.

Lemma set_spread_elem (x : string) (xs seen : list string) :
  x ∈ set_spread seen xs ↔ x ∈ xs ∧ x ∉ seen.
Proof.
  revert seen. induction xs as [|y r IH]; intros seen; simpl.
  - split; [intros H; inversion H | intros [H _]; inversion H].
  - destruct (includes y seen) eqn:E.
    + apply includes_true in E. rewrite IH, elem_of_cons.
      split; [tauto |]. intros [[->|H] Hn]; [contradiction | tauto].
    + apply includes_false in E. rewrite elem_of_cons, IH, !elem_of_cons.
      split.
      * intros [->|[H Hn]]; [tauto |]. split; [tauto |]. intros Hs. apply Hn. tauto.
      * intros [[->|H] Hn]; [tauto |].
        destruct (decide (x = y)) as [->|Hne]; [tauto |].
        right. split; [assumption |]. intros [?|?]; [contradiction | contradiction].
Qed.

Lemma set_spread_NoDup (xs seen : list string) : NoDup (set_spread seen xs).
Proof.
  revert seen. induction xs as [|y r IH]; intros seen; simpl.
  - constructor.
  - destruct (includes y seen) eqn:E; [apply IH |].
    constructor; [| apply IH].
    rewrite set_spread_elem, elem_of_cons. tauto.
Qed.

(** ** TaskManager *)

Lemma dependency_completed_true (wf : Workflow.t) (depId : string) :
  dependency_completed wf depId = true ↔
  ∃ depTask, Workflow.tasks wf !! depId = Some depTask ∧ Task.status depTask = completed.
Proof.
  unfold dependency_completed.
  destruct (Workflow.tasks wf !! depId) as [depTask|].
  - rewrite bool_decide_eq_true. split.
    + intros H. exists depTask. auto.
    + intros (d & [= <-] & H). exact H.
  - split; [discriminate | intros (d & H & _); discriminate].
Qed.

(** [isTaskAvailable], read off the code: pending, a falsy assignee, and
    no round of the dependency loop returns false. *)
Lemma isTaskAvailable_true (task : Task.t) (wf : Workflow.t) :
  isTaskAvailable task wf = true ↔
  Task.status task = pending
  ∧ truthy_ostring (Task.assigned_agent task) = false
  ∧ ∀ depId, depId ∈ Task.dependencies task →
      ∃ depTask, Workflow.tasks wf !! depId = Some depTask
                 ∧ Task.status depTask = completed.
Proof.
  unfold isTaskAvailable.
  destruct (decide (Task.status task = pending)) as [Hs|Hs].
  - rewrite bool_decide_eq_false_2 by (intros H; apply H; exact Hs).
    destruct (truthy_ostring (Task.assigned_agent task)).
    + split; [discriminate | intros (_ & H & _); discriminate].
    + rewrite forallb_forall. split.
      * intros H. split; [exact Hs |]. split; [reflexivity |].
        intros d Hd. apply dependency_completed_true, H, list_elem_of_In, Hd.
      * intros (_ & _ & H) d Hd.
        apply dependency_completed_true, H, list_elem_of_In, Hd.
  - rewrite bool_decide_eq_true_2 by exact Hs.
    split; [discriminate | intros (H & _); contradiction].
Qed.

(** C4, as the code has it.  [isTaskAvailable] answers true exactly when
    the task is pending, its assignee is falsy (none, or the empty
    string), and every dependency is a task of the document that is
    completed; a dependency the document lacks makes the task
    unavailable. *)
Theorem isTaskAvailable_falsy_assignee (task : Task.t) (wf : Workflow.t) :
  (isTaskAvailable task wf = true ↔
     Task.status task = pending
     ∧ (Task.assigned_agent task = None ∨ Task.assigned_agent task = Some "")
     ∧ ∀ depId, depId ∈ Task.dependencies task →
         ∃ depTask, Workflow.tasks wf !! depId = Some depTask
                    ∧ Task.status depTask = completed)
  ∧ (∀ depId, depId ∈ Task.dependencies task →
       Workflow.tasks wf !! depId = None → isTaskAvailable task wf = false).
Proof.
  split.
  - rewrite isTaskAvailable_true, truthy_ostring_false. reflexivity.
  - intros d Hd Hnone.
    destruct (isTaskAvailable task wf) eqn:E; [| reflexivity].
    apply isTaskAvailable_true in E as (_ & _ & H).
    destruct (H d Hd) as (dt & Hdt & _). congruence.
Qed.

Lemma isTaskAvailable_falsy_assignee_witness :
  isTaskAvailable (sample_task "X" pending (Some "") ["ghost"] []) diamond = false
  ∧ isTaskAvailable (sample_task "B" pending (Some "") ["A1"] [])
      (Workflow.set_tasks
         (<["A1" := sample_task "A1" completed None [] ["B"]]> (Workflow.tasks diamond))
         diamond) = true.
Proof.
  split.
  - apply (isTaskAvailable_falsy_assignee (sample_task "X" pending (Some "") ["ghost"] [])
             diamond) with (depId := "ghost").
    + simpl. apply list_elem_of_here.
    + reflexivity.
  - apply (isTaskAvailable_falsy_assignee (sample_task "B" pending (Some "") ["A1"] [])).
    split; [reflexivity |]. split; [right; reflexivity |].
    intros depId Hdep. simpl in Hdep. apply list_elem_of_singleton in Hdep as ->.
    exists (sample_task "A1" completed None [] ["B"]). split; reflexivity.
Defined.

(** Availability is not what the specification words: the task that
    [claimTask(A1, '')] followed by [updateTaskStatus(A1, 'pending')]
    leaves in the document is available although it has an assigned
    agent, the empty id. *)
Lemma empty_assignee_is_available :
  ¬ (∀ taskId task,
       Workflow.tasks reopened !! taskId = Some task →
       available_as_specified task reopened).
Proof.
  intros H.
  destruct (H "A1" (Task.mk "A1" "A1" "" pending (Num 3) (Some "") [] ["B"] None [] None
                      (Some false) (Some task_t) None 0 8) eq_refl) as [Hspec _].
  destruct Hspec as (_ & Hnone & _); [reflexivity | discriminate Hnone].
Qed.

(** C9.  Whatever else is asked, a task added with a falsy priority
    (omitted, 0 or NaN) is stored with priority 3, and no call of
    [addTask] stores a task of priority 0. *)
Theorem addTask_falsy_priority (options : AddTaskOptions.t) (taskId : string)
    (now : Z) (workflow : Workflow.t) :
  let task := (addTask options taskId now workflow).1 in
  let workflow' := (addTask options taskId now workflow).2 in
  Workflow.tasks workflow' !! taskId = Some task
  ∧ (AddTaskOptions.priority options = None
     ∨ AddTaskOptions.priority options = Some (Num 0)
     ∨ AddTaskOptions.priority options = Some NaN →
     Task.priority task = Num 3)
  ∧ Task.priority task ≠ Num 0.
Proof.
  simpl. split; [apply lookup_insert_eq |]. split.
  - intros [-> | [-> | ->]]; reflexivity.
  - destruct (AddTaskOptions.priority options) as [[z|]|]; simpl; try discriminate.
    destruct (z =? 0) eqn:E; simpl; [discriminate |].
    apply Z.eqb_neq in E. congruence.
Qed.

Lemma addTask_falsy_priority_witness :
  Task.priority
    (addTask (AddTaskOptions.mk "t" "d" (Some (Num 0)) None None None None) "task_1" 5
       diamond).1 = Num 3.
Proof.
  apply (addTask_falsy_priority
           (AddTaskOptions.mk "t" "d" (Some (Num 0)) None None None None) "task_1" 5 diamond).
  right. left. reflexivity.
Defined.

(** What a successful [claimTask] leaves: the task in progress and
    assigned, every other task as it was. *)
Lemma claimTask_success (taskId agentId : string) (now : Z) (workflow : Workflow.t)
    (task : Task.t) :
  Workflow.tasks workflow !! taskId = Some task →
  isTaskAvailable task workflow = true →
  let task' :=
    Task.set_updated_at now
      (Task.set_assigned_agent (Some agentId) (Task.set_status in_progress task)) in
  (claimTask taskId agentId now workflow).1
  = TaskClaimResult.mk true ("Task " +:+ taskId +:+ " claimed successfully")
      (Some task') (Some agentId)
  ∧ Workflow.tasks (claimTask taskId agentId now workflow).2
    = <[taskId := task']> (Workflow.tasks workflow).
Proof.
  intros Ht Ha. unfold claimTask. rewrite Ht, Ha. simpl. auto.
Qed.

(** A [claimTask] that does not succeed leaves the document alone. *)
Lemma claimTask_failure_unchanged (taskId agentId : string) (now : Z)
    (workflow : Workflow.t) :
  TaskClaimResult.success (claimTask taskId agentId now workflow).1 = false →
  (claimTask taskId agentId now workflow).2 = workflow.
Proof.
  unfold claimTask.
  destruct (Workflow.tasks workflow !! taskId) as [task|]; [| reflexivity].
  destruct (isTaskAvailable task workflow); simpl; [discriminate |].
  destruct (bool_decide _); [reflexivity |].
  destruct (truthy_ostring _); reflexivity.
Qed.

(** [claimTask] for an agent id that [workflow.agents] yields nothing
    for: the claim goes through and the agents are what they were. *)
Lemma claimTask_without_agent (taskId agentId : string) (now : Z)
    (workflow : Workflow.t) (task : Task.t) :
  Workflow.tasks workflow !! taskId = Some task →
  isTaskAvailable task workflow = true →
  Workflow.agents workflow !! agentId = None →
  let r := (claimTask taskId agentId now workflow).1 in
  let workflow' := (claimTask taskId agentId now workflow).2 in
  TaskClaimResult.success r = true
  ∧ (∃ task', Workflow.tasks workflow' !! taskId = Some task'
              ∧ TaskClaimResult.task r = Some task'
              ∧ Task.status task' = in_progress
              ∧ Task.assigned_agent task' = Some agentId)
  ∧ Workflow.agents workflow' = Workflow.agents workflow.
Proof.
  intros Ht Ha Hagent.
  destruct (claimTask_success taskId agentId now workflow task Ht Ha) as [Hr Htasks].
  simpl. rewrite Hr, Htasks. simpl. split; [reflexivity |]. split.
  - eexists. split; [apply lookup_insert_eq |]. simpl. auto.
  - unfold claimTask. rewrite Ht, Ha, Hagent. reflexivity.
Qed.

(** C10 at work.  Task A1 is available and the document has no agent
    of the id "constructor".  Claiming A1 for that id does not succeed:
    the lookup of the agent finds the constructor every object inherits,
    and the call throws a TypeError before anything is saved. *)
Theorem claimTask_inherited_agent_id :
  Workflow.tasks diamond !! "A1" = Some (sample_task "A1" pending None [] ["B"])
  ∧ isTaskAvailable (sample_task "A1" pending None [] ["B"]) diamond = true
  ∧ Workflow.agents diamond !! "constructor" = None
  ∧ Method.claimTask "A1" "constructor" 7 diamond = Throws TypeError.
Proof. repeat split; reflexivity. Qed.

(** *** Task statuses along a history *)

Lemma foldl_status_preserved {B : Type} (f : gmap string Task.t → B → gmap string Task.t) :
  (∀ tasks b k, Task.status <$> f tasks b !! k = Task.status <$> tasks !! k) →
  ∀ (bs : list B) tasks k,
    Task.status <$> foldl f tasks bs !! k = Task.status <$> tasks !! k.
Proof.
  intros Hf bs. induction bs as [|b bs IH]; intros tasks k; simpl; [reflexivity |].
  rewrite IH. apply Hf.
Qed.

Lemma insert_same_status (tasks : gmap string Task.t) (key : string) (old new : Task.t)
    (k : string) :
  tasks !! key = Some old →
  Task.status new = Task.status old →
  Task.status <$> <[key := new]> tasks !! k = Task.status <$> tasks !! k.
Proof.
  intros Hold Hst. destruct (decide (key = k)) as [->|Hne].
  - rewrite lookup_insert_eq, Hold. simpl. congruence.
  - rewrite lookup_insert_ne by exact Hne. reflexivity.
Qed.

Lemma link_dependency_status (taskId : string) (tasks : gmap string Task.t)
    (depId k : string) :
  Task.status <$> link_dependency taskId tasks depId !! k = Task.status <$> tasks !! k.
Proof.
  unfold link_dependency. destruct (tasks !! depId) as [depTask|] eqn:E; [| reflexivity].
  destruct (includes _ _); [reflexivity |].
  apply insert_same_status with (old := depTask); [exact E | reflexivity].
Qed.

Lemma unlink_dependent_status (taskId : string) (tasks : gmap string Task.t)
    (depId k : string) :
  Task.status <$> unlink_dependent taskId tasks depId !! k = Task.status <$> tasks !! k.
Proof.
  unfold unlink_dependent. destruct (tasks !! depId) as [depTask|] eqn:E; [| reflexivity].
  apply insert_same_status with (old := depTask); [exact E | reflexivity].
Qed.

Lemma unlink_dependency_status (taskId : string) (tasks : gmap string Task.t)
    (dependentId k : string) :
  Task.status <$> unlink_dependency taskId tasks dependentId !! k
  = Task.status <$> tasks !! k.
Proof.
  unfold unlink_dependency.
  destruct (tasks !! dependentId) as [dependent|] eqn:E; [| reflexivity].
  apply insert_same_status with (old := dependent); [exact E | reflexivity].
Qed.

Lemma inherit_task_status (acc : gmap string Task.t * Agent.t) (taskId k : string) :
  Task.status <$> (inherit_task acc taskId).1 !! k = Task.status <$> acc.1 !! k.
Proof.
  destruct acc as [tasks currentAgent]. simpl.
  destruct (tasks !! taskId) as [task|] eqn:E; [| reflexivity].
  apply insert_same_status with (old := task); [exact E | reflexivity].
Qed.

Lemma foldl_inherit_task_status (taskIds : list string)
    (acc : gmap string Task.t * Agent.t) (k : string) :
  Task.status <$> (foldl inherit_task acc taskIds).1 !! k = Task.status <$> acc.1 !! k.
Proof.
  revert acc. induction taskIds as [|taskId taskIds IH]; intros acc; simpl; [reflexivity |].
  rewrite IH. apply inherit_task_status.
Qed.

Lemma addTask_task_status (options : AddTaskOptions.t) (taskId : string) (now : Z)
    (workflow : Workflow.t) (k : string) :
  taskId ≠ k →
  task_status (addTask options taskId now workflow).2 k = task_status workflow k.
Proof.
  intros Hne. unfold task_status. simpl.
  rewrite lookup_insert_ne by exact Hne.
  apply foldl_status_preserved. intros. apply link_dependency_status.
Qed.

Lemma deleteTask_task_status (taskId : string) (now : Z) (workflow : Workflow.t)
    (k : string) :
  taskId ≠ k →
  task_status (deleteTask taskId now workflow).2 k = task_status workflow k.
Proof.
  intros Hne. unfold task_status, deleteTask.
  destruct (Workflow.tasks workflow !! taskId) as [task|]; [| reflexivity].
  simpl. rewrite lookup_delete_ne by exact Hne.
  rewrite (foldl_status_preserved (unlink_dependency taskId))
    by (intros; apply unlink_dependency_status).
  apply foldl_status_preserved. intros. apply unlink_dependent_status.
Qed.

Lemma held_insert (taskId key : string) (task' : Task.t) (workflow workflow' : Workflow.t) :
  Workflow.tasks workflow' = <[key := task']> (Workflow.tasks workflow) →
  Task.status task' ≠ pending →
  held taskId workflow → held taskId workflow'.
Proof.
  intros Htasks Hst (status & Hs & Hne). unfold held, task_status in *.
  rewrite Htasks. destruct (decide (key = taskId)) as [->|Hk].
  - rewrite lookup_insert_eq. simpl. eauto.
  - rewrite lookup_insert_ne by exact Hk. eauto.
Qed.

Lemma held_same_tasks (taskId : string) (workflow workflow' : Workflow.t) :
  Workflow.tasks workflow' = Workflow.tasks workflow →
  held taskId workflow → held taskId workflow'.
Proof. unfold held, task_status. intros ->. auto. Qed.

Lemma held_same_status (taskId : string) (workflow workflow' : Workflow.t) :
  task_status workflow' taskId = task_status workflow taskId →
  held taskId workflow → held taskId workflow'.
Proof. unfold held. intros ->. auto. Qed.

Lemma claimTask_held (taskId agentId : string) (now : Z) (workflow : Workflow.t)
    (k : string) :
  held k workflow → held k (claimTask taskId agentId now workflow).2.
Proof.
  intros Hk.
  destruct (Workflow.tasks workflow !! taskId) as [task|] eqn:Ht.
  - destruct (isTaskAvailable task workflow) eqn:Ha.
    + destruct (claimTask_success taskId agentId now workflow task Ht Ha) as [_ Htasks].
      eapply held_insert; [exact Htasks | discriminate | exact Hk].
    + rewrite claimTask_failure_unchanged; [exact Hk |].
      unfold claimTask. rewrite Ht, Ha. simpl.
      destruct (bool_decide _); [reflexivity |]. destruct (truthy_ostring _); reflexivity.
  - unfold claimTask. rewrite Ht. exact Hk.
Qed.

Lemma completeTask_held (easyagentsDir taskId summary : string) (output : option string)
    (now : Z) (workflow : Workflow.t) (k : string) :
  held k workflow → held k (completeTask easyagentsDir taskId summary output now workflow).2.
Proof.
  intros Hk. unfold completeTask.
  destruct (Workflow.tasks workflow !! taskId) as [task|]; [| exact Hk].
  destruct (bool_decide _); [exact Hk |].
  eapply held_insert; [reflexivity | discriminate | exact Hk].
Qed.

Lemma updateTaskStatus_held (taskId : string) (status : TaskStatus) (now : Z)
    (workflow : Workflow.t) (k : string) :
  ¬ (taskId = k ∧ status = pending) →
  held k workflow → held k (updateTaskStatus taskId status now workflow).2.
Proof.
  intros Hno Hk. unfold updateTaskStatus.
  destruct (Workflow.tasks workflow !! taskId) as [task|]; [| exact Hk].
  destruct (decide (status = pending)) as [->|Hs].
  - destruct Hk as (st & Hst & Hne). exists st. split; [| exact Hne].
    unfold task_status in *. simpl.
    rewrite lookup_insert_ne; [exact Hst | intros ->; apply Hno; auto].
  - eapply held_insert; [reflexivity | exact Hs | exact Hk].
Qed.

Lemma checkRefactorSuggestion_tasks (workflow : Workflow.t) (filePath : string)
    (method : option string) (now : Z) :
  Workflow.tasks (checkRefactorSuggestion workflow filePath method now)
  = Workflow.tasks workflow.
Proof. unfold checkRefactorSuggestion. repeat case_match; reflexivity. Qed.

Lemma acquireLock_tasks (filePath agentId : string) (options : AcquireOptions.t)
    (now : Z) (workflow : Workflow.t) :
  Workflow.tasks (acquireLock filePath agentId options now workflow).2
  = Workflow.tasks workflow.
Proof. unfold acquireLock, createLock. repeat case_match; reflexivity. Qed.

Lemma releaseLock_tasks (filePath agentId : string)
    (modification : option ReleaseModification.t) (now : Z) (workflow : Workflow.t) :
  Workflow.tasks (releaseLock filePath agentId modification now workflow).2
  = Workflow.tasks workflow.
Proof.
  unfold releaseLock. repeat case_match; try reflexivity.
  simpl. rewrite checkRefactorSuggestion_tasks. reflexivity.
Qed.

Lemma getOrCreateCurrentAgent_tasks (name : option string) (generatedId sessionId : string)
    (now : Z) (store : Store.t) :
  Workflow.tasks (Store.document (getOrCreateCurrentAgent name generatedId sessionId now store).2)
  = Workflow.tasks (Store.document store).
Proof. unfold getOrCreateCurrentAgent. repeat case_match; reflexivity. Qed.

Lemma takeoverAgent_task_status (targetAgentId generatedId sessionId : string) (now : Z)
    (store : Store.t) (k : string) :
  task_status (Store.document (takeoverAgent targetAgentId generatedId sessionId now store).2) k
  = task_status (Store.document store) k.
Proof.
  unfold takeoverAgent, takeoverAgent_run, task_status.
  destruct (Workflow.agents (Store.document store) !! targetAgentId) as [targetAgent|];
    [| reflexivity].
  destruct (bool_decide _); [reflexivity |].
  destruct (getOrCreateCurrentAgent None generatedId sessionId now store)
    as [currentAgent store1] eqn:Hcur.
  destruct (bool_decide _).
  - simpl. replace store1
      with (getOrCreateCurrentAgent None generatedId sessionId now store).2
      by (rewrite Hcur; reflexivity).
    rewrite getOrCreateCurrentAgent_tasks. reflexivity.
  - pose proof (foldl_inherit_task_status (Agent.claimed_tasks targetAgent)
                  (Workflow.tasks (Store.document store), currentAgent) k) as H.
    destruct (foldl inherit_task _ _) as [tasks' currentAgent1]. exact H.
Qed.

(** No call but a reset or a deletion of the task takes a held task out
    of that state. *)
Lemma step_held (taskId : string) (store : Store.t) (call : Z * Op) :
  ¬ resets taskId call.2 →
  held taskId (Store.document store) → held taskId (Store.document (step store call)).
Proof.
  destruct call as [now op]. intros Hno Hk.
  destruct op; simpl in Hno; unfold step; simpl.
  - eapply held_same_status; [apply addTask_task_status; exact Hno | exact Hk].
  - apply claimTask_held, Hk.
  - apply completeTask_held, Hk.
  - apply updateTaskStatus_held; assumption.
  - eapply held_same_status; [apply deleteTask_task_status; exact Hno | exact Hk].
  - eapply held_same_tasks; [apply acquireLock_tasks | exact Hk].
  - eapply held_same_tasks; [apply releaseLock_tasks | exact Hk].
  - eapply held_same_tasks; [| exact Hk].
    unfold getLockStatus. repeat case_match; reflexivity.
  - eapply held_same_tasks; [| exact Hk].
    unfold forceReleaseLock. repeat case_match; reflexivity.
  - eapply held_same_tasks; [| exact Hk].
    unfold cleanupExpiredLocks. repeat case_match; reflexivity.
  - eapply held_same_tasks; [| exact Hk].
    unfold dismissRefactorSuggestion. repeat case_match; reflexivity.
  - eapply held_same_tasks; [apply getOrCreateCurrentAgent_tasks | exact Hk].
  - exact Hk.
  - eapply held_same_tasks; [| exact Hk].
    unfold renameAgent. repeat case_match; reflexivity.
  - eapply held_same_tasks; [| exact Hk].
    unfold touchAgent. repeat case_match; reflexivity.
  - eapply held_same_tasks; [| exact Hk].
    unfold deactivateAgent. repeat case_match; reflexivity.
  - eapply held_same_status; [apply takeoverAgent_task_status | exact Hk].
  - eapply held_same_tasks; [| exact Hk].
    unfold cleanupTerminatedAgents. repeat case_match; reflexivity.
Qed.

Lemma run_held (taskId : string) (history : list (Z * Op)) (store : Store.t) :
  Forall (λ call, ¬ resets taskId call.2) history →
  held taskId (Store.document store) → held taskId (Store.document (run history store)).
Proof.
  unfold run. revert store. induction history as [|call history IH]; intros store Hall Hk.
  - exact Hk.
  - inversion Hall as [|? ? Hcall Hrest]; subst. simpl.
    apply IH; [exact Hrest |]. apply step_held; assumption.
Qed.

(** *** Failures of [claimTask] *)

(** The three causes of a conflict never share a message. *)
Lemma conflict_message_inj (c1 c2 : ConflictCause) :
  conflict_message c1 = conflict_message c2 → c1 = c2.
Proof.
  destruct c1 as [s1|a1|], c2 as [s2|a2|]; simpl; intros H.
  - destruct s1, s2; simpl in H; try reflexivity; discriminate.
  - destruct s1; simpl in H; discriminate.
  - destruct s1; simpl in H; discriminate.
  - destruct s2; simpl in H; discriminate.
  - f_equal. eapply String.app_inj, H.
  - discriminate.
  - destruct s2; simpl in H; discriminate.
  - discriminate.
  - reflexivity.
Qed.

Lemma claimTask_held_conflict (taskId agentId : string) (now : Z) (workflow : Workflow.t) :
  held taskId workflow →
  ∃ status, status ≠ pending
            ∧ claim_Conflict (NonPending status) (claimTask taskId agentId now workflow).1.
Proof.
  intros (status & Hs & Hne). unfold task_status in Hs.
  destruct (Workflow.tasks workflow !! taskId) as [task|] eqn:Ht; [| discriminate].
  injection Hs as Hs. exists status. split; [exact Hne |].
  unfold claim_Conflict, claimTask, isTaskAvailable. rewrite Ht.
  rewrite bool_decide_eq_true_2 by congruence. simpl. rewrite Hs. reflexivity.
Qed.

(** [claimTask] where [workflow.tasks[taskId]] finds an own property or
    nothing.  On a task the document lacks it fails with NotFound; on a
    task that is not available it fails with a Conflict whose cause is
    one of three, told apart by their messages: the task has left the
    pending state, or it is assigned already, or a dependency is not
    completed.  Neither failure writes the document.  And once a claim
    has succeeded, every later claim of the same task, for whichever
    agent and after whatever calls, fails with Conflict, as long as none
    of those calls deletes the task or resets it to pending. *)
Lemma claimTask_failure_causes (taskId agentId : string) (now : Z) (workflow : Workflow.t) :
  let r := (claimTask taskId agentId now workflow).1 in
  let workflow' := (claimTask taskId agentId now workflow).2 in
  (Workflow.tasks workflow !! taskId = None →
     claim_NotFound taskId r ∧ workflow' = workflow)
  ∧ (∀ task, Workflow.tasks workflow !! taskId = Some task →
       isTaskAvailable task workflow = false →
       workflow' = workflow
       ∧ (Task.status task ≠ pending
            ∧ claim_Conflict (NonPending (Task.status task)) r
          ∨ Task.status task = pending
            ∧ (∃ holder, Task.assigned_agent task = Some holder ∧ holder ≠ ""
                         ∧ claim_Conflict (AlreadyAssigned holder) r)
          ∨ Task.status task = pending
            ∧ truthy_ostring (Task.assigned_agent task) = false
            ∧ (∃ depId, depId ∈ Task.dependencies task
                        ∧ dependency_completed workflow depId = false)
            ∧ claim_Conflict DependenciesUnmet r))
  ∧ (∀ c1 c2, conflict_message c1 = conflict_message c2 → c1 = c2)
  ∧ (TaskClaimResult.success r = true →
       ∀ (history : list (Z * Op)) (local : option string) (agentId' : string) (now' : Z),
         Forall (λ call, ¬ resets taskId call.2) history →
         ∃ status, status ≠ pending
           ∧ claim_Conflict (NonPending status)
               (claimTask taskId agentId' now'
                  (Store.document (run history (Store.mk workflow' local)))).1).
Proof.
  simpl. split; [| split; [| split]].
  - intros Hnone. unfold claim_NotFound, claimTask. rewrite Hnone. auto.
  - intros task Htask Hbusy. split.
    { unfold claimTask. rewrite Htask, Hbusy. simpl.
      destruct (bool_decide _); [reflexivity |]. destruct (truthy_ostring _); reflexivity. }
    unfold claimTask, claim_Conflict. rewrite Htask, Hbusy. simpl.
    destruct (decide (Task.status task = pending)) as [Hs|Hs].
    + rewrite bool_decide_eq_false_2 by (intros Hn; apply Hn; exact Hs).
      right. destruct (truthy_ostring (Task.assigned_agent task)) eqn:Ha.
      * left. split; [exact Hs |].
        apply truthy_ostring_true in Ha as (holder & Hh & Hne).
        exists holder. rewrite Hh. auto.
      * right. split; [exact Hs |]. split; [reflexivity |]. split; [| reflexivity].
        unfold isTaskAvailable in Hbusy.
        rewrite bool_decide_eq_false_2 in Hbusy by (intros Hn; apply Hn; exact Hs).
        rewrite Ha in Hbusy.
        apply not_true_iff_false in Hbusy. rewrite forallb_forall in Hbusy.
        destruct (existsb (λ d, negb (dependency_completed workflow d))
                    (Task.dependencies task)) eqn:E.
        -- apply existsb_exists in E as (d & Hd & Hn).
           exists d. split; [apply list_elem_of_In, Hd |].
           destruct (dependency_completed workflow d); [discriminate | reflexivity].
        -- exfalso. apply Hbusy. intros d Hd.
           destruct (dependency_completed workflow d) eqn:Ed; [reflexivity |].
           assert (existsb (λ d, negb (dependency_completed workflow d))
                     (Task.dependencies task) = true) as Hex
             by (apply existsb_exists; exists d; rewrite Ed; auto).
           congruence.
    + rewrite bool_decide_eq_true_2 by exact Hs. left. auto.
  - apply conflict_message_inj.
  - intros Hok history local agentId' now' Hall.
    apply claimTask_held_conflict, run_held; [exact Hall |]. simpl.
    destruct (Workflow.tasks workflow !! taskId) as [task|] eqn:Ht.
    + destruct (isTaskAvailable task workflow) eqn:Ha.
      * destruct (claimTask_success taskId agentId now workflow task Ht Ha) as [_ Htasks].
        exists in_progress. split; [| discriminate].
        unfold task_status. rewrite Htasks, lookup_insert_eq. reflexivity.
      * unfold claimTask in Hok. rewrite Ht, Ha in Hok. simpl in Hok.
        destruct (bool_decide _); [discriminate |].
        destruct (truthy_ostring _); discriminate.
    + unfold claimTask in Hok. rewrite Ht in Hok. discriminate.
Qed.

(** C5 at work.  The document has no task of the id "constructor".
    Claiming it does not fail with NotFound: the lookup of the task
    finds the constructor every object inherits, whose status is
    undefined, and the call fails with the message of a task that has
    left the pending state. *)
Theorem claimTask_inherited_task_id :
  Workflow.tasks diamond !! "constructor" = None
  ∧ Method.claimTask "constructor" "a1" 7 diamond
    = Returns (claim_failure "Task is already undefined", diamond)
  ∧ ¬ claim_NotFound "constructor" (claim_failure "Task is already undefined").
Proof.
  split; [reflexivity |]. split; [reflexivity |].
  unfold claim_NotFound, claim_failure. intros H. discriminate H.
Qed.

(** *** Completion and unblocking *)

Lemma isTaskAvailable_same_tasks (task : Task.t) (wf1 wf2 : Workflow.t) :
  Workflow.tasks wf1 = Workflow.tasks wf2 →
  isTaskAvailable task wf1 = isTaskAvailable task wf2.
Proof.
  intros H. unfold isTaskAvailable, dependency_completed. rewrite H. reflexivity.
Qed.

Lemma unblocked_true (wf : Workflow.t) (dependentId : string) :
  unblocked wf dependentId = true ↔
  ∃ dependent, Workflow.tasks wf !! dependentId = Some dependent
               ∧ isTaskAvailable dependent wf = true.
Proof.
  unfold unblocked. destruct (Workflow.tasks wf !! dependentId) as [dependent|].
  - split; [eauto | intros (d & [= <-] & H); exact H].
  - split; [discriminate | intros (d & H & _); discriminate].
Qed.

(** C6.  Completing a task that is not completed yet succeeds, and the
    ids reported as unblocked are exactly the dependents of the task that
    are tasks of the saved document and available in it.  Hence a
    dependent with another dependency that is not completed is not
    reported, and a pending, unassigned dependent whose other
    dependencies are all completed is. *)
Theorem completeTask_unblocked (easyagentsDir taskId summary : string)
    (output : option string) (now : Z) (workflow : Workflow.t) (task : Task.t) :
  Workflow.tasks workflow !! taskId = Some task →
  Task.status task ≠ completed →
  let r := (completeTask easyagentsDir taskId summary output now workflow).1 in
  let workflow' := (completeTask easyagentsDir taskId summary output now workflow).2 in
  TaskCompleteResult.success r = true
  ∧ (∃ task', Workflow.tasks workflow' !! taskId = Some task'
              ∧ Task.status task' = completed
              ∧ Task.dependents task' = Task.dependents task)
  ∧ ∃ unblockedTasks, TaskCompleteResult.unblocked_tasks r = Some unblockedTasks
    ∧ (∀ id, id ∈ unblockedTasks ↔
         id ∈ Task.dependents task
         ∧ ∃ dependent, Workflow.tasks workflow' !! id = Some dependent
                        ∧ isTaskAvailable dependent workflow' = true)
    ∧ (∀ b taskB other,
         Workflow.tasks workflow !! b = Some taskB →
         other ∈ Task.dependencies taskB →
         other ≠ taskId →
         (∀ otherTask, Workflow.tasks workflow !! other = Some otherTask →
                       Task.status otherTask ≠ completed) →
         b ∉ unblockedTasks)
    ∧ (∀ b taskB,
         b ≠ taskId →
         Workflow.tasks workflow !! b = Some taskB →
         b ∈ Task.dependents task →
         Task.status taskB = pending →
         Task.assigned_agent taskB = None →
         (∀ depId, depId ∈ Task.dependencies taskB →
            depId = taskId
            ∨ ∃ depTask, Workflow.tasks workflow !! depId = Some depTask
                         ∧ Task.status depTask = completed) →
         b ∈ unblockedTasks).
Proof.
  intros Ht Hs. unfold completeTask. rewrite Ht.
  rewrite bool_decide_eq_false_2 by exact Hs. simpl.
  set (task' := Task.set_updated_at now
                  (Task.set_result _ (Task.set_status completed task))).
  set (agents' := if truthy_ostring _ then _ else _).
  set (tasks' := <[taskId := task']> (Workflow.tasks workflow)).
  set (workflow1 := Workflow.set_agents agents' (Workflow.set_tasks tasks' workflow)).
  assert (∀ id, id ∈ filter (λ d, Is_true (unblocked workflow1 d)) (Task.dependents task) ↔
            id ∈ Task.dependents task
            ∧ ∃ dependent, tasks' !! id = Some dependent
                           ∧ isTaskAvailable dependent (save now workflow1) = true) as Hmem.
  { intros id. rewrite list_elem_of_filter, Is_true_true, unblocked_true.
    split.
    - intros ((d & H2 & H3) & H1). split; [exact H1 |]. exists d.
      split; [exact H2 |]. rewrite <- H3.
      apply isTaskAvailable_same_tasks. reflexivity.
    - intros (H1 & d & H2 & H3). split; [| exact H1]. exists d.
      split; [exact H2 |]. rewrite <- H3.
      apply isTaskAvailable_same_tasks. reflexivity. }
  split; [reflexivity |]. split.
  { exists task'. split; [apply lookup_insert_eq | split; reflexivity]. }
  eexists. split; [reflexivity |]. split; [exact Hmem |]. split.
  - intros b taskB other Hb Hother Hne Hopen Hin.
    apply Hmem in Hin as (_ & dependent & Hd & Hav).
    apply isTaskAvailable_true in Hav as (Hpend & _ & Hdeps).
    destruct (decide (taskId = b)) as [->|Hneb].
    + unfold tasks' in Hd. rewrite lookup_insert_eq in Hd.
      injection Hd as <-. discriminate Hpend.
    + unfold tasks' in Hd. rewrite lookup_insert_ne in Hd by exact Hneb.
      assert (dependent = taskB) as -> by congruence.
      destruct (Hdeps other Hother) as (otherTask & Hlook & Hdone).
      simpl in Hlook. unfold tasks' in Hlook.
      rewrite lookup_insert_ne in Hlook by congruence.
      exact (Hopen otherTask Hlook Hdone).
  - intros b taskB Hneb Hb Hin Hpend Hnone Hdeps.
    apply Hmem. split; [exact Hin |]. exists taskB. split.
    + unfold tasks'. rewrite lookup_insert_ne by congruence. exact Hb.
    + apply isTaskAvailable_true. split; [exact Hpend |]. split.
      * rewrite Hnone. reflexivity.
      * intros depId Hdep. simpl. unfold tasks'.
        destruct (Hdeps depId Hdep) as [->|(depTask & Hlook & Hdone)].
        -- exists task'. rewrite lookup_insert_eq. auto.
        -- destruct (decide (taskId = depId)) as [->|Hne'].
           ++ exists task'. rewrite lookup_insert_eq. auto.
           ++ exists depTask. rewrite lookup_insert_ne by exact Hne'. auto.
Qed.

Lemma completeTask_unblocked_witness :
  let first := completeTask ".easyagents" "A1" "done" None 5 diamond in
  let second := completeTask ".easyagents" "A2" "done" None 6 (first.2) in
  ∃ l1 l2, TaskCompleteResult.unblocked_tasks (first.1) = Some l1 ∧ ("B" ∉ l1)
           ∧ TaskCompleteResult.unblocked_tasks (second.1) = Some l2 ∧ "B" ∈ l2.
Proof.
  intros first second.
  edestruct (completeTask_unblocked ".easyagents" "A1" "done" None 5 diamond)
    as (_ & _ & l1 & Hl1 & _ & Hnot & _); [vm_compute; reflexivity | discriminate |].
  edestruct (completeTask_unblocked ".easyagents" "A2" "done" None 6 (first.2))
    as (_ & _ & l2 & Hl2 & _ & _ & Hyes); [vm_compute; reflexivity | discriminate |].
  exists l1, l2. split; [exact Hl1 |]. split; [| split; [exact Hl2 |]].
  - eapply (Hnot "B" _ "A2"); [vm_compute; reflexivity | | discriminate |].
    + simpl. apply list_elem_of_further, list_elem_of_here.
    + intros otherTask [= <-]. discriminate.
  - eapply (Hyes "B"); [discriminate | vm_compute; reflexivity | | reflexivity | reflexivity |].
    + simpl. apply list_elem_of_here.
    + simpl. intros depId Hdep.
      apply elem_of_cons in Hdep as [->|Hdep].
      * right. eexists. split; [vm_compute; reflexivity | reflexivity].
      * apply elem_of_cons in Hdep as [->|Hdep]; [left; reflexivity | inversion Hdep].
Defined.

(** ** LockManager *)

Lemma isLockExpired_false (lock : FileLock.t) (now : Z) :
  isLockExpired lock now = false ↔ now < FileLock.expires_at lock.
Proof. unfold isLockExpired. rewrite Z.leb_gt. reflexivity. Qed.

Lemma methodsConflict_true (requestedMethods lockedMethods : list string) :
  methodsConflict requestedMethods lockedMethods = true ↔
  conflicting requestedMethods lockedMethods.
Proof.
  unfold methodsConflict, conflicting.
  destruct (includes "*" lockedMethods) eqn:El; simpl.
  { apply includes_true in El. tauto. }
  destruct (includes "*" requestedMethods) eqn:Er; simpl.
  { apply includes_true in Er. tauto. }
  apply includes_false in El, Er. rewrite existsb_exists. split.
  - intros (m & Hm & Hin). right. right. exists m.
    split; [apply list_elem_of_In, Hm | apply includes_true, Hin].
  - intros [H | [H | (m & Hm & Hin)]]; [contradiction | contradiction |].
    exists m. split; [apply list_elem_of_In, Hm | apply includes_true, Hin].
Qed.

(** C3.  A request for a path under an unexpired lease of another agent
    fails exactly when the requested and the held methods conflict
    (either holds the wildcard, or they share a method); the failure
    names the holder, the holder's reason and methods and the time left,
    and writes nothing.  Without a conflict the request, when the end of
    the lease it asks for is a date that can be represented, succeeds
    with a fresh lease of the requester, which takes the place of the
    holder's in the one slot the path has; the other paths keep their
    leases. *)
Theorem acquireLock_other_owner (filePath agentId : string) (options : AcquireOptions.t)
    (now : Z) (workflow : Workflow.t) (existingLock : FileLock.t) :
  Workflow.locks workflow !! normalizePath filePath = Some existingLock →
  now < FileLock.expires_at existingLock →
  FileLock.locked_by existingLock ≠ agentId →
  let requestedMethods := default ["*"] (AcquireOptions.methods options) in
  let timeout :=
    or_default truthy_Z (AcquireOptions.timeout options)
      (WorkflowConfig.lock_timeout (Workflow.config workflow)) in
  let fresh :=
    FileLock.mk agentId now (now + timeout) requestedMethods
      (AcquireOptions.reason options) (AcquireOptions.task_id options) in
  let outcome := Method.acquireLock filePath agentId options now workflow in
  ((∃ r workflow', outcome = Returns (r, workflow') ∧ LockAcquireResult.success r = false)
   ↔ conflicting requestedMethods (FileLock.methods existingLock))
  ∧ (conflicting requestedMethods (FileLock.methods existingLock) →
       outcome
       = Returns
           (LockAcquireResult.mk false
              ("File locked by " +:+ FileLock.locked_by existingLock) None
              (Some (WaitInfo.mk (FileLock.locked_by existingLock)
                       (FileLock.reason existingLock)
                       (FileLock.expires_at existingLock - now)
                       (FileLock.methods existingLock))),
            workflow))
  ∧ (¬ conflicting requestedMethods (FileLock.methods existingLock) →
       valid_date (now + timeout) = true →
       ∃ r workflow',
         outcome = Returns (r, workflow')
         ∧ LockAcquireResult.success r = true
         ∧ LockAcquireResult.lock r = Some fresh
         ∧ Workflow.locks workflow' !! normalizePath filePath = Some fresh
         ∧ Workflow.locks workflow'
           = <[normalizePath filePath := fresh]> (Workflow.locks workflow)).
Proof.
  intros Hlock Hlive Hother. cbv zeta.
  unfold Method.acquireLock, property. rewrite Hlock.
  unfold acquireLock. rewrite Hlock.
  rewrite (proj2 (isLockExpired_false existingLock now) Hlive).
  rewrite bool_decide_eq_false_2 by exact Hother.
  destruct (methodsConflict _ _) eqn:Ec; cbn [negb].
  - apply methodsConflict_true in Ec. cbn [fst LockAcquireResult.success andb].
    split; [| split; [reflexivity | tauto]].
    split; [intros _; exact Ec | intros _].
    eexists _, _. split; reflexivity.
  - assert (¬ conflicting (default ["*"] (AcquireOptions.methods options))
                (FileLock.methods existingLock)) as Hno.
    { rewrite <- methodsConflict_true, Ec. discriminate. }
    unfold createLock. cbn [fst LockAcquireResult.success andb].
    split; [| split; [contradiction |]].
    + split; [| contradiction]. intros (r & workflow' & Hret & Hfail).
      destruct (valid_date _); cbn [negb] in Hret; [| discriminate Hret].
      injection Hret as <- <-. discriminate Hfail.
    + intros _ Hvalid. rewrite Hvalid. cbn [negb].
      eexists _, _. split; [reflexivity |]. cbn.
      split; [reflexivity |]. split; [reflexivity |].
      split; [apply lookup_insert_eq | reflexivity].
Qed.

Lemma acquireLock_other_owner_witness :
  (∃ r workflow',
     Method.acquireLock "f.ts" "a2"
       (AcquireOptions.mk (Some ["bar"]) "edit" (Some 1000) None) 10 leased
     = Returns (r, workflow')
     ∧ LockAcquireResult.success r = true
     ∧ Workflow.locks workflow' !! "f.ts"
       = Some (FileLock.mk "a2" 10 1010 ["bar"] "edit" None))
  ∧ Method.acquireLock "f.ts" "a2"
      (AcquireOptions.mk (Some ["foo"]) "edit" (Some 1000) None) 10 leased
    = Returns
        (LockAcquireResult.mk false "File locked by a1" None
           (Some (WaitInfo.mk "a1" "edit" 99990 ["foo"])),
         leased).
Proof.
  split.
  - edestruct (acquireLock_other_owner "f.ts" "a2"
                 (AcquireOptions.mk (Some ["bar"]) "edit" (Some 1000) None) 10 leased)
      as (_ & _ & H); [vm_compute; reflexivity | simpl; lia | discriminate |].
    destruct H as (r & workflow' & Hret & Hok & _ & Hslot & _).
    + simpl. unfold conflicting. intros [Hw | [Hw | (m & Hm & Hl)]].
      * apply list_elem_of_singleton in Hw. discriminate.
      * apply list_elem_of_singleton in Hw. discriminate.
      * apply list_elem_of_singleton in Hm, Hl. congruence.
    + reflexivity.
    + exists r, workflow'. split; [exact Hret |]. split; [exact Hok | exact Hslot].
  - edestruct (acquireLock_other_owner "f.ts" "a2"
                 (AcquireOptions.mk (Some ["foo"]) "edit" (Some 1000) None) 10 leased)
      as (_ & H & _); [vm_compute; reflexivity | simpl; lia | discriminate |].
    apply H. simpl. right. right. exists "foo".
    split; apply list_elem_of_here.
Defined.

(** C2, as the code has it.  Re-acquiring a path under one's own
    unexpired lease, for a duration that ends at a date that can be
    represented, succeeds as an extension: the lease's methods are those
    of the old lease and of the request, each once, and the lease ends at
    [now + duration], the duration being the configured default when
    none (or zero) is asked.  The old expiry plays no part: the new one
    can be earlier. *)
Theorem acquireLock_same_owner (filePath agentId : string) (options : AcquireOptions.t)
    (now : Z) (workflow : Workflow.t) (existingLock : FileLock.t) :
  Workflow.locks workflow !! normalizePath filePath = Some existingLock →
  now < FileLock.expires_at existingLock →
  FileLock.locked_by existingLock = agentId →
  valid_date
    (now + or_default truthy_Z (AcquireOptions.timeout options)
             (WorkflowConfig.lock_timeout (Workflow.config workflow))) = true →
  let requestedMethods := default ["*"] (AcquireOptions.methods options) in
  let timeout :=
    or_default truthy_Z (AcquireOptions.timeout options)
      (WorkflowConfig.lock_timeout (Workflow.config workflow)) in
  let r := (acquireLock filePath agentId options now workflow).1 in
  let workflow' := (acquireLock filePath agentId options now workflow).2 in
  Method.acquireLock filePath agentId options now workflow = Returns (r, workflow')
  ∧ LockAcquireResult.success r = true
  ∧ LockAcquireResult.message r = "Lock extended"
  ∧ ∃ lock, LockAcquireResult.lock r = Some lock
    ∧ Workflow.locks workflow' !! normalizePath filePath = Some lock
    ∧ FileLock.locked_by lock = agentId
    ∧ (∀ m, m ∈ FileLock.methods lock ↔
            m ∈ FileLock.methods existingLock ∨ m ∈ requestedMethods)
    ∧ NoDup (FileLock.methods lock)
    ∧ FileLock.expires_at lock = now + timeout.
Proof.
  intros Hlock Hlive Hsame Hvalid. cbv zeta.
  unfold Method.acquireLock, property. rewrite Hlock, Hvalid.
  unfold acquireLock. rewrite Hlock.
  rewrite (proj2 (isLockExpired_false existingLock now) Hlive).
  rewrite bool_decide_eq_true_2 by exact Hsame. simpl.
  split; [reflexivity |]. split; [reflexivity |]. split; [reflexivity |].
  eexists. split; [reflexivity |]. split; [apply lookup_insert_eq |]. simpl.
  split; [exact Hsame |]. split; [| split; [apply set_spread_NoDup | reflexivity]].
  intros m. rewrite set_spread_elem, elem_of_app. split; [tauto |].
  intros H. split; [exact H | intros Hnil; inversion Hnil].
Qed.

Lemma acquireLock_same_owner_witness :
  ∃ lock workflow',
    Method.acquireLock "f.ts" "a1"
      (AcquireOptions.mk (Some ["bar"]) "edit" (Some 1000) None) 10 leased
    = Returns (LockAcquireResult.mk true "Lock extended" (Some lock) None, workflow')
    ∧ FileLock.methods lock = ["foo"; "bar"]
    ∧ FileLock.expires_at lock = 1010.
Proof.
  edestruct (acquireLock_same_owner "f.ts" "a1"
               (AcquireOptions.mk (Some ["bar"]) "edit" (Some 1000) None) 10 leased)
    as (Hret & _);
    [vm_compute; reflexivity | simpl; lia | reflexivity | reflexivity |].
  eexists _, _. split; [exact Hret |]. split; reflexivity.
Defined.

(** The same-owner re-acquisition does not keep the later expiry: a lease
    good until 100000, re-acquired at 10 for 1000 ms, ends at 1010. *)
Lemma extension_shortens_lease :
  ¬ extension_keeps_later_expiry "f.ts" "a1"
      (AcquireOptions.mk (Some ["bar"]) "edit" (Some 1000) None) 10 leased.
Proof.
  intros H.
  destruct (H (FileLock.mk "a1" 0 100000 ["foo"] "edit" None))
    as (lock & Hl & He); [reflexivity | reflexivity | reflexivity |].
  vm_compute in Hl. injection Hl as <-. vm_compute in He. discriminate He.
Qed.

(** *** The refactor-suggestion heuristic *)

Lemma named_truthy (method : option string) :
  truthy_ostring method = true ↔ named method.
Proof.
  unfold named. destruct method as [[|c s]|]; simpl.
  - split; [discriminate | intros [_ H]; congruence].
  - split; [intros _; split; discriminate | reflexivity].
  - split; [discriminate | intros [H _]; congruence].
Qed.

Lemma List_filter_filter {A : Type} (f : A → bool) (P : A → Prop)
    `{∀ x, Decision (P x)} (l : list A) :
  (∀ x, f x = true ↔ P x) → List.filter f l = filter P l.
Proof.
  intros Hf. induction l as [|x l IH]; [reflexivity |].
  simpl. rewrite filter_cons. destruct (decide (P x)) as [HP|HP].
  - rewrite (proj2 (Hf x) HP), IH. reflexivity.
  - destruct (f x) eqn:E; [apply Hf in E; contradiction | exact IH].
Qed.

Lemma recent_mod_true (filePath : string) (method : option string) (oneDayAgo : Z)
    (m : FileModification.t) :
  recent_mod filePath method oneDayAgo m = true ↔
  FileModification.file m = filePath
  ∧ (named method → FileModification.method m = method)
  ∧ oneDayAgo < FileModification.modified_at m.
Proof.
  unfold recent_mod.
  rewrite !andb_true_iff, orb_true_iff, negb_true_iff, !bool_decide_eq_true, Z.ltb_lt.
  rewrite <- named_truthy.
  destruct (truthy_ostring method); intuition congruence.
Qed.

Lemma same_suggestion_true (filePath : string) (method : option string)
    (s : RefactorSuggestion.t) :
  same_suggestion filePath method s = true ↔
  RefactorSuggestion.file s = filePath
  ∧ (named method → RefactorSuggestion.method s = method).
Proof.
  unfold same_suggestion.
  rewrite andb_true_iff, orb_true_iff, negb_true_iff, !bool_decide_eq_true.
  rewrite <- named_truthy.
  destruct (truthy_ostring method); intuition congruence.
Qed.

Lemma no_same_suggestion (filePath : string) (method : option string)
    (suggestions : list RefactorSuggestion.t) :
  existsb (same_suggestion filePath method) suggestions = false ↔
  ∀ s, s ∈ suggestions →
       ¬ (RefactorSuggestion.file s = filePath
          ∧ (named method → RefactorSuggestion.method s = method)).
Proof.
  rewrite <- not_true_iff_false, existsb_exists. split.
  - intros Hno s Hs Hcov. apply Hno. exists s.
    split; [apply list_elem_of_In, Hs | apply same_suggestion_true, Hcov].
  - intros Hno (s & Hs & Hcov). apply (Hno s); [apply list_elem_of_In, Hs |].
    apply same_suggestion_true, Hcov.
Qed.

(** [checkRefactorSuggestion] either leaves the suggestions alone or
    pushes one. *)
Lemma checkRefactorSuggestion_cases (workflow : Workflow.t) (filePath : string)
    (method : option string) (now : Z) :
  let threshold := WorkflowConfig.auto_refactor_threshold (Workflow.config workflow) in
  let count :=
    Z.of_nat (length (List.filter (recent_mod filePath method (now - DAY_MS))
                        (Workflow.modifications workflow))) in
  let fires :=
    (threshold <=? count)
    && negb (existsb (same_suggestion filePath method)
               (Workflow.refactor_suggestions workflow)) in
  let workflow' := checkRefactorSuggestion workflow filePath method now in
  Workflow.modifications workflow' = Workflow.modifications workflow
  ∧ Workflow.locks workflow' = Workflow.locks workflow
  ∧ if fires then
      ∃ s, Workflow.refactor_suggestions workflow'
           = Workflow.refactor_suggestions workflow ++ [s]
           ∧ RefactorSuggestion.file s = filePath
           ∧ RefactorSuggestion.method s = method
           ∧ RefactorSuggestion.suggested_by s = "system"
           ∧ RefactorSuggestion.created_at s = now
           ∧ RefactorSuggestion.priority s
             = (if threshold * 2 <=? count then high else medium)
    else Workflow.refactor_suggestions workflow' = Workflow.refactor_suggestions workflow.
Proof.
  simpl. unfold checkRefactorSuggestion.
  destruct (_ <=? _) eqn:Et; simpl; [| auto].
  destruct (existsb _ _); simpl; [auto |].
  split; [reflexivity |]. split; [reflexivity |].
  eexists. split; [reflexivity |]. simpl. auto.
Qed.

(** C7, as the code has it.  A release that records a modification
    counts the modifications of the path within the 24 hours before it,
    the one just recorded included: those of the same method when a
    method is named, all of them otherwise.  A suggestion for (path,
    method) is pushed exactly when that count reaches the threshold and
    no suggestion covers the path (and the method, when one is named);
    its priority is high from twice the threshold on, medium below.
    The suggestions already there stay as they are, ahead of the new
    one, and as long as no pair had two suggestions none gets two. *)
Theorem releaseLock_refactor_suggestion (filePath agentId : string)
    (modification : ReleaseModification.t) (now : Z) (workflow : Workflow.t)
    (lock : FileLock.t) :
  Workflow.locks workflow !! normalizePath filePath = Some lock →
  FileLock.locked_by lock = agentId →
  let path := normalizePath filePath in
  let method := ReleaseModification.method modification in
  let recorded :=
    FileModification.mk path method agentId now
      (ReleaseModification.lines_changed modification)
      (ReleaseModification.reason modification)
      (ReleaseModification.task_id modification) in
  let threshold := WorkflowConfig.auto_refactor_threshold (Workflow.config workflow) in
  let count :=
    Z.of_nat
      (length
         (filter (λ m, FileModification.file m = path
                       ∧ (named method → FileModification.method m = method)
                       ∧ now - 86400000 < FileModification.modified_at m)
            (Workflow.modifications workflow ++ [recorded]))) in
  let covered (s : RefactorSuggestion.t) :=
    RefactorSuggestion.file s = path
    ∧ (named method → RefactorSuggestion.method s = method) in
  let r := (releaseLock filePath agentId (Some modification) now workflow).1 in
  let workflow' := (releaseLock filePath agentId (Some modification) now workflow).2 in
  LockReleaseResult.success r = true
  ∧ Workflow.modifications workflow' = Workflow.modifications workflow ++ [recorded]
  ∧ (threshold ≤ count →
     (∀ s, s ∈ Workflow.refactor_suggestions workflow → ¬ covered s) →
     ∃ s, Workflow.refactor_suggestions workflow'
          = Workflow.refactor_suggestions workflow ++ [s]
          ∧ RefactorSuggestion.file s = path
          ∧ RefactorSuggestion.method s = method
          ∧ RefactorSuggestion.priority s
            = (if decide (2 * threshold ≤ count) then high else medium))
  ∧ (¬ (threshold ≤ count
        ∧ ∀ s, s ∈ Workflow.refactor_suggestions workflow → ¬ covered s) →
     Workflow.refactor_suggestions workflow' = Workflow.refactor_suggestions workflow)
  ∧ (NoDup (suggestion_key <$> Workflow.refactor_suggestions workflow) →
     NoDup (suggestion_key <$> Workflow.refactor_suggestions workflow'))
  ∧ Workflow.refactor_suggestions workflow `prefix_of`
      Workflow.refactor_suggestions workflow'.
Proof.
  intros Hlock Howner. simpl. unfold releaseLock. rewrite Hlock.
  rewrite bool_decide_eq_false_2 by (intros Hn; apply Hn; exact Howner). simpl.
  set (recorded := FileModification.mk _ _ _ _ _ _ _).
  set (workflow1 := Workflow.set_modifications _ workflow).
  pose proof (checkRefactorSuggestion_cases workflow1 (normalizePath filePath)
                (ReleaseModification.method modification) now) as Hcases.
  simpl in Hcases. destruct Hcases as (Hmods & _ & Hsugg).
  rewrite (List_filter_filter _
             (λ m, FileModification.file m = normalizePath filePath
                   ∧ (named (ReleaseModification.method modification) →
                      FileModification.method m = ReleaseModification.method modification)
                   ∧ now - 86400000 < FileModification.modified_at m)) in Hsugg
    by (intros m; apply recent_mod_true).
  set (count := Z.of_nat (length (filter _ _))) in *.
  split; [reflexivity |]. split; [exact Hmods |].
  destruct (_ <=? count) eqn:Et; simpl in Hsugg.
  - apply Z.leb_le in Et.
    destruct (existsb _ _) eqn:Ex; simpl in Hsugg.
    + assert (¬ ∀ s, s ∈ Workflow.refactor_suggestions workflow →
                ¬ (RefactorSuggestion.file s = normalizePath filePath
                   ∧ (named (ReleaseModification.method modification) →
                      RefactorSuggestion.method s
                      = ReleaseModification.method modification))) as Hsome.
      { rewrite <- no_same_suggestion. unfold workflow1 in Ex. simpl in Ex.
        rewrite Ex. discriminate. }
      rewrite Hsugg. split; [intros _ Hall; contradiction |].
      split; [reflexivity |]. split; [auto | reflexivity].
    + unfold workflow1 in Ex. simpl in Ex.
      pose proof (proj1 (no_same_suggestion _ _ _) Ex) as Hfree. clear Ex.
      destruct Hsugg as (s & Hs & Hfile & Hmeth & _ & _ & Hprio).
      rewrite Hs. unfold workflow1. simpl.
      split; [| split; [| split]].
      * intros _ _. exists s. split; [reflexivity |]. split; [exact Hfile |].
        split; [exact Hmeth |]. rewrite Hprio.
        destruct (decide _) as [Hd|Hd].
        -- rewrite (proj2 (Z.leb_le _ _)) by lia. reflexivity.
        -- rewrite (proj2 (Z.leb_gt _ _)) by lia. reflexivity.
      * intros Hnot. exfalso. apply Hnot. split; [exact Et | exact Hfree].
      * intros Hnd. rewrite fmap_app. apply NoDup_app. split; [exact Hnd |].
        split; [| apply NoDup_singleton].
        intros key Hkey Hnew. apply list_elem_of_singleton in Hnew. subst key.
        apply list_elem_of_fmap in Hkey as (s0 & Hk & Hs0).
        unfold suggestion_key in Hk. injection Hk as Hf Hm.
        apply (Hfree s0 Hs0). split; [congruence |]. intros _. congruence.
      * apply prefix_app_r. reflexivity.
  - apply Z.leb_gt in Et. rewrite Hsugg.
    split; [intros Hge; lia |]. split; [reflexivity |]. split; [auto | reflexivity].
Qed.

Lemma releaseLock_refactor_suggestion_witness :
  ∃ s, Workflow.refactor_suggestions
         (releaseLock "f.ts" "a1"
            (Some (ReleaseModification.mk (Some "save") "1-2" "fix" "T1")) 3000 busy).2
       = [s]
       ∧ RefactorSuggestion.priority s = medium.
Proof.
  edestruct (releaseLock_refactor_suggestion "f.ts" "a1"
               (ReleaseModification.mk (Some "save") "1-2" "fix" "T1") 3000 busy)
    as (_ & _ & Hfire & _); [vm_compute; reflexivity | reflexivity |].
  destruct Hfire as (s & Hs & _ & _ & Hp).
  - vm_compute. discriminate.
  - simpl. intros s Hs. inversion Hs.
  - exists s. split; [exact Hs | exact Hp].
Defined.

(** The count is not that of the pair when no method is named: with two
    modifications of method save on record and a threshold of 3, a
    release that names no method pushes a suggestion for (f.ts, none),
    a pair modified once. *)
Lemma unnamed_release_counts_whole_file :
  ¬ suggestion_follows_pair_count "f.ts" "a1"
      (ReleaseModification.mk None "1-2" "fix" "T1") 3000 busy.
Proof.
  intros [Hcreated _].
  destruct Hcreated as [Hcount _].
  - eexists. vm_compute. reflexivity.
  - vm_compute in Hcount. apply Hcount. reflexivity.
Qed.

(** *** Waiting for a lock *)

Lemma recent_since_true (normalizedPath : string) (startTime : Z)
    (m : FileModification.t) :
  recent_since normalizedPath startTime m = true ↔
  FileModification.file m = normalizedPath
  ∧ startTime - 60000 < FileModification.modified_at m.
Proof.
  unfold recent_since. rewrite andb_true_iff, bool_decide_eq_true, Z.ltb_lt. reflexivity.
Qed.

Lemma getLockStatus_unlocked (filePath : string) (now : Z) (workflow : Workflow.t) :
  LockStatus.locked (getLockStatus filePath now workflow).1 = false →
  Workflow.locks (getLockStatus filePath now workflow).2 !! normalizePath filePath = None
  ∧ Workflow.modifications (getLockStatus filePath now workflow).2
    = Workflow.modifications workflow.
Proof.
  unfold getLockStatus.
  destruct (Workflow.locks workflow !! normalizePath filePath) as [lock|] eqn:E.
  - destruct (isLockExpired lock now); simpl; [| discriminate].
    intros _. split; [apply lookup_delete_eq | reflexivity].
  - simpl. auto.
Qed.

(** What the loop returns: success at a poll short of the limit, the
    lease gone; or the timeout failure at a poll past the limit. *)
Lemma waitLoop_outcome (filePath : string) (startTime limit : Z) (polls : list Poll.t)
    (workflow : Workflow.t) (r : LockWaitResult.t) (workflow' : Workflow.t) :
  waitLoop filePath (normalizePath filePath) startTime limit polls workflow
  = Some (r, workflow') →
  (∃ poll, poll ∈ polls ∧ Poll.clock poll - startTime < limit
           ∧ Workflow.locks workflow' !! normalizePath filePath = None
           ∧ r = LockWaitResult.mk true
                   (Some (List.filter (recent_since (normalizePath filePath) startTime)
                            (Workflow.modifications workflow')))
                   None)
  ∨ (∃ poll, poll ∈ polls ∧ limit ≤ Poll.clock poll - startTime
             ∧ r = LockWaitResult.mk false None (Some true)).
Proof.
  revert workflow. induction polls as [|poll polls IH]; intros workflow; simpl;
    [discriminate |].
  destruct (_ <? limit) eqn:Et.
  - apply Z.ltb_lt in Et.
    pose proof (getLockStatus_unlocked filePath (Poll.clock poll) workflow) as Hun.
    destruct (getLockStatus filePath (Poll.clock poll) workflow) as [status workflow1].
    simpl in Hun. destruct (LockStatus.locked status); simpl.
    + intros Hrec. destruct (IH _ Hrec) as [(p & Hp & H) | (p & Hp & H)].
      * left. exists p. split; [apply list_elem_of_further, Hp | exact H].
      * right. exists p. split; [apply list_elem_of_further, Hp | exact H].
    + intros [= <- <-]. left. exists poll. destruct (Hun eq_refl) as [Hgone _].
      split; [apply list_elem_of_here |]. auto.
  - apply Z.ltb_ge in Et. intros [= <- <-]. right. exists poll.
    split; [apply list_elem_of_here |]. auto.
Qed.

(** The loop ends once a poll is past the limit. *)
Lemma waitLoop_total (filePath : string) (startTime limit : Z) (polls : list Poll.t)
    (workflow : Workflow.t) :
  Exists (λ poll, limit ≤ Poll.clock poll - startTime) polls →
  is_Some (waitLoop filePath (normalizePath filePath) startTime limit polls workflow).
Proof.
  intros Hex. revert workflow.
  induction polls as [|poll polls IH]; intros workflow; [inversion Hex |].
  simpl. destruct (_ <? limit) eqn:Et; [| eauto].
  apply Z.ltb_lt in Et.
  destruct (getLockStatus filePath (Poll.clock poll) workflow) as [status workflow1].
  destruct (LockStatus.locked status); simpl; [| eauto].
  apply IH. inversion Hex as [? ? Hhead | ? ? Htail]; subst; [lia | exact Htail].
Qed.

(** Polls [checkInterval] apart get past any limit. *)
Lemma paced_reaches (checkInterval startTime limit previous : Z) (polls : list Poll.t) :
  0 < checkInterval →
  polls ≠ [] →
  paced checkInterval previous polls →
  limit ≤ previous - startTime + checkInterval * (Z.of_nat (length polls) - 1) →
  Exists (λ poll, limit ≤ Poll.clock poll - startTime) polls.
Proof.
  intros Hpos. revert previous.
  induction polls as [|poll polls IH]; intros previous Hne Hpaced Hlimit;
    [contradiction |].
  destruct Hpaced as [Hprev Hrest].
  destruct polls as [|next polls'].
  - left. simpl in Hlimit. lia.
  - right. apply (IH (Poll.clock poll + checkInterval)); [discriminate | exact Hrest |].
    simpl length in *. lia.
Qed.

(** C8, as the code has it.  A wait polled every [checkInterval] > 0
    comes to an end.  It succeeds at the first poll, short of the
    timeout, that finds no unexpired lease on the path (a path without
    a lease not being a property name every object inherits, for which
    [getLockStatus] reports a lease), and then returns exactly the
    modifications of the path made later than one minute before the wait
    began; it fails with the timeout at the first poll that falls past
    the timeout, if the path was leased at every poll before. *)
Theorem waitForLock_outcome (filePath : string) (timeout checkInterval : option Z)
    (startTime : Z) (polls : list Poll.t) (workflow : Workflow.t) :
  let limit := default 180000 timeout in
  let interval := default 5000 checkInterval in
  let path := normalizePath filePath in
  (0 < interval → polls ≠ [] → paced interval startTime polls →
   limit ≤ interval * (Z.of_nat (length polls) - 1) →
   is_Some (waitForLock filePath timeout checkInterval startTime polls workflow))
  ∧ (∀ r workflow',
       waitForLock filePath timeout checkInterval startTime polls workflow
       = Some (r, workflow') →
       (LockWaitResult.released r = true →
          (∃ poll, poll ∈ polls ∧ Poll.clock poll - startTime < limit)
          ∧ Workflow.locks workflow' !! path = None
          ∧ LockWaitResult.timeout r = None
          ∧ LockWaitResult.modifications r
            = Some (filter (λ m, FileModification.file m = path
                                 ∧ startTime - 60000 < FileModification.modified_at m)
                      (Workflow.modifications workflow')))
       ∧ (LockWaitResult.released r = false →
            (∃ poll, poll ∈ polls ∧ limit ≤ Poll.clock poll - startTime)
            ∧ r = LockWaitResult.mk false None (Some true)))
  ∧ (∀ poll rest,
       polls = poll :: rest →
       (limit ≤ Poll.clock poll - startTime →
          waitForLock filePath timeout checkInterval startTime polls workflow
          = Some (LockWaitResult.mk false None (Some true), workflow))
       ∧ (Poll.clock poll - startTime < limit →
          (∀ lock, Workflow.locks workflow !! path = Some lock →
                   FileLock.expires_at lock ≤ Poll.clock poll) →
          property (Workflow.locks workflow) path ≠ Inherited →
          ∃ workflow',
            waitForLock filePath timeout checkInterval startTime polls workflow
            = Some (LockWaitResult.mk true
                      (Some (filter (λ m, FileModification.file m = path
                                          ∧ startTime - 60000
                                            < FileModification.modified_at m)
                               (Workflow.modifications workflow)))
                      None,
                    workflow'))
       ∧ (∀ lock, Poll.clock poll - startTime < limit →
          Workflow.locks workflow !! path = Some lock →
          Poll.clock poll < FileLock.expires_at lock →
          waitForLock filePath timeout checkInterval startTime polls workflow
          = waitForLock filePath timeout checkInterval startTime rest
              (Poll.interference poll workflow))).
Proof.
  simpl. unfold waitForLock.
  assert (∀ l, List.filter (recent_since (normalizePath filePath) startTime) l
               = filter (λ m, FileModification.file m = normalizePath filePath
                              ∧ startTime - 60000 < FileModification.modified_at m) l)
    as Hfilter
    by (intros l; apply List_filter_filter; intros m; apply recent_since_true).
  split; [| split].
  - intros Hpos Hne Hpaced Hlimit. apply waitLoop_total.
    apply (paced_reaches (default 5000 checkInterval) startTime _ startTime);
      [exact Hpos | exact Hne | exact Hpaced | lia].
  - intros r workflow' Hrun.
    apply waitLoop_outcome in Hrun as [(p & Hp & Ht & Hgone & ->) | (p & Hp & Ht & ->)].
    + split; [| discriminate]. intros _. split; [eauto |]. split; [exact Hgone |].
      split; [reflexivity |]. simpl. rewrite Hfilter. reflexivity.
    + split; [discriminate |]. intros _. split; [eauto | reflexivity].
  - intros poll rest ->. simpl. split; [| split].
    + intros Hpast. rewrite (proj2 (Z.ltb_ge _ _) Hpast). reflexivity.
    + intros Hbefore Hfree _. rewrite (proj2 (Z.ltb_lt _ _) Hbefore).
      unfold getLockStatus.
      destruct (Workflow.locks workflow !! normalizePath filePath) as [lock|] eqn:E.
      * unfold isLockExpired. rewrite (proj2 (Z.leb_le _ _) (Hfree lock eq_refl)).
        simpl. rewrite Hfilter. eexists. reflexivity.
      * simpl. rewrite Hfilter. eexists. reflexivity.
    + intros lock Hbefore Hlock Hlive. rewrite (proj2 (Z.ltb_lt _ _) Hbefore).
      unfold getLockStatus. rewrite Hlock.
      rewrite (proj2 (isLockExpired_false lock (Poll.clock poll)) Hlive). reflexivity.
Qed.

(** A wait for f.ts that begins at 99900, while a1 holds the lease: the
    first poll finds the lease, a1 then releases it with a modification
    made at 100200, and the second poll succeeds with that modification
    and the two made before the wait began, but not the one of g.ts.
    A wait of 1000 ms that a1 outlasts fails with the timeout. *)
Lemma waitForLock_outcome_witness :
  (∃ workflow',
     waitForLock "f.ts" None None 99900
       [Poll.mk 99900
          (λ wf, (releaseLock "f.ts" "a1"
                    (Some (ReleaseModification.mk None "3-4" "tidy" "T2")) 100200 wf).2);
        Poll.mk 104900 (λ wf, wf)]
       contended
     = Some (LockWaitResult.mk true
               (Some [sample_modification "f.ts" None 50000;
                      sample_modification "f.ts" None 99000;
                      FileModification.mk "f.ts" None "a1" 100200 "3-4" "tidy" "T2"])
               None,
             workflow'))
  ∧ waitForLock "f.ts" (Some 1000) (Some 1000) 0
      [Poll.mk 0 (λ wf, wf); Poll.mk 1000 (λ wf, wf)] contended
    = Some (LockWaitResult.mk false None (Some true), contended)
  ∧ is_Some (waitForLock "f.ts" (Some 1000) (Some 1000) 0
               [Poll.mk 0 (λ wf, wf); Poll.mk 1000 (λ wf, wf)] contended).
Proof.
  split; [| split].
  - destruct (waitForLock_outcome "f.ts" None None 99900
                [Poll.mk 99900
                   (λ wf, (releaseLock "f.ts" "a1"
                             (Some (ReleaseModification.mk None "3-4" "tidy" "T2"))
                             100200 wf).2);
                 Poll.mk 104900 (λ wf, wf)]
                contended) as (_ & _ & Hfirst).
    destruct (Hfirst _ _ eq_refl) as (_ & _ & Hleased).
    rewrite (Hleased (FileLock.mk "a1" 0 100000 ["*"] "edit" None));
      [| simpl; lia | reflexivity | simpl; lia].
    destruct (waitForLock_outcome "f.ts" None None 99900 [Poll.mk 104900 (λ wf, wf)]
                (releaseLock "f.ts" "a1"
                   (Some (ReleaseModification.mk None "3-4" "tidy" "T2")) 100200
                   contended).2) as (_ & _ & Hsecond).
    destruct (Hsecond _ _ eq_refl) as (_ & Hfree & _).
    destruct Hfree as [workflow' Hdone].
    + simpl. lia.
    + intros lock Hlock. vm_compute in Hlock. discriminate Hlock.
    + vm_compute. discriminate.
    + exists workflow'. exact Hdone.
  - destruct (waitForLock_outcome "f.ts" (Some 1000) (Some 1000) 0
                [Poll.mk 0 (λ wf, wf); Poll.mk 1000 (λ wf, wf)] contended)
      as (_ & _ & Hfirst).
    destruct (Hfirst _ _ eq_refl) as (_ & _ & Hleased).
    rewrite (Hleased (FileLock.mk "a1" 0 100000 ["*"] "edit" None));
      [| simpl; lia | reflexivity | simpl; lia].
    destruct (waitForLock_outcome "f.ts" (Some 1000) (Some 1000) 0
                [Poll.mk 1000 (λ wf, wf)] contended) as (_ & _ & Hsecond).
    destruct (Hsecond _ _ eq_refl) as (Hpast & _).
    apply Hpast. simpl. lia.
  - apply (waitForLock_outcome "f.ts" (Some 1000) (Some 1000) 0
             [Poll.mk 0 (λ wf, wf); Poll.mk 1000 (λ wf, wf)] contended).
    + simpl. lia.
    + discriminate.
    + simpl. lia.
    + simpl. lia.
Defined.

(** The list returned reaches back before the wait: a modification made
    at 50000 is returned by a wait that began at 100000. *)
Lemma wait_returns_earlier_modification :
  ¬ wait_returns_later_modifications "f.ts" None None 100000
      [Poll.mk 100000 (λ wf, wf)] quiet.
Proof.
  intros H.
  pose proof (H _ _ eq_refl eq_refl (sample_modification "f.ts" None 50000)) as [Hin _].
  destruct Hin as (_ & _ & Hlater).
  - simpl. apply list_elem_of_here.
  - simpl in Hlater. lia.
Qed.

(** ** AgentManager *)

Lemma inherit_task_id (acc : gmap string Task.t * Agent.t) (taskId : string) :
  Agent.id (inherit_task acc taskId).2 = Agent.id acc.2.
Proof.
  destruct acc as [tasks currentAgent]. simpl.
  destruct (includes _ _); reflexivity.
Qed.

(** The transfer loop reassigns, in the loaded document, the tasks it
    runs over, and no other. *)
Lemma foldl_inherit_task_lookup (taskIds : list string) (tasks : gmap string Task.t)
    (currentAgent : Agent.t) (k : string) :
  (foldl inherit_task (tasks, currentAgent) taskIds).1 !! k
  = if decide (k ∈ taskIds)
    then Task.set_assigned_agent (Some (Agent.id currentAgent)) <$> tasks !! k
    else tasks !! k.
Proof.
  revert tasks currentAgent.
  induction taskIds as [|taskId taskIds IH]; intros tasks currentAgent.
  - simpl. destruct (decide (k ∈ @nil string)) as [Hin|]; [inversion Hin | reflexivity].
  - change (foldl inherit_task (tasks, currentAgent) (taskId :: taskIds))
      with (foldl inherit_task (inherit_task (tasks, currentAgent) taskId) taskIds).
    pose proof (inherit_task_id (tasks, currentAgent) taskId) as Hid.
    destruct (inherit_task (tasks, currentAgent) taskId) as [tasks1 agent1] eqn:Hstep.
    simpl in Hid. rewrite IH, Hid.
    assert (tasks1 !! k
            = if decide (k = taskId)
              then Task.set_assigned_agent (Some (Agent.id currentAgent)) <$> tasks !! k
              else tasks !! k) as Hone.
    { simpl in Hstep. injection Hstep as <- _.
      destruct (decide (k = taskId)) as [->|Hne].
      - destruct (tasks !! taskId) as [task|] eqn:E.
        + rewrite lookup_insert_eq. reflexivity.
        + rewrite E. reflexivity.
      - destruct (tasks !! taskId); [rewrite lookup_insert_ne by congruence |];
          reflexivity. }
    rewrite Hone.
    destruct (decide (k = taskId)) as [->|Hne];
      destruct (decide (_ ∈ taskIds)) as [Hin|Hout];
      destruct (decide (_ ∈ taskId :: taskIds)) as [Hall|Hall];
      try reflexivity;
      try (destruct (tasks !! taskId); reflexivity);
      exfalso;
      first [ apply Hall; first [apply list_elem_of_here | apply list_elem_of_further, Hin]
            | apply elem_of_cons in Hall as [?|?]; contradiction ].
Qed.

(** ... and pushes each of them onto the claims of the [currentAgent]
    object. *)
Lemma foldl_inherit_task_claims (taskIds : list string) (tasks : gmap string Task.t)
    (currentAgent : Agent.t) (k : string) :
  k ∈ Agent.claimed_tasks (foldl inherit_task (tasks, currentAgent) taskIds).2 ↔
  k ∈ Agent.claimed_tasks currentAgent ∨ k ∈ taskIds.
Proof.
  revert tasks currentAgent.
  induction taskIds as [|taskId taskIds IH]; intros tasks currentAgent.
  - simpl. split; [auto | intros [H|H]; [exact H | inversion H]].
  - change (foldl inherit_task (tasks, currentAgent) (taskId :: taskIds))
      with (foldl inherit_task (inherit_task (tasks, currentAgent) taskId) taskIds).
    destruct (inherit_task (tasks, currentAgent) taskId) as [tasks1 agent1] eqn:Hstep.
    rewrite IH. simpl in Hstep. injection Hstep as _ <-.
    rewrite elem_of_cons.
    destruct (includes taskId (Agent.claimed_tasks currentAgent)) eqn:E.
    + apply includes_true in E. split; [tauto |].
      intros [H | [-> | H]]; tauto.
    + simpl. rewrite elem_of_app, list_elem_of_singleton. tauto.
Qed.

(** What a takeover that goes through saves.  The agents of the saved
    document are those of the document loaded first, the target
    terminated and stripped of its claims: the record of the current
    agent is there as it was before the call (and not at all if the
    agent was minted by the call), although the [currentAgent] object the
    method worked on holds every inherited id. *)
Lemma takeoverAgent_saved (targetAgentId generatedId sessionId : string) (now : Z)
    (store : Store.t) (targetAgent : Agent.t) :
  let workflow := Store.document store in
  let currentAgent := (getOrCreateCurrentAgent None generatedId sessionId now store).1 in
  let run := takeoverAgent_run targetAgentId generatedId sessionId now store in
  let saved := Store.document run.1.2 in
  Workflow.agents workflow !! targetAgentId = Some targetAgent →
  Agent.status targetAgent ≠ terminated →
  Agent.id currentAgent ≠ targetAgentId →
  AgentTakeoverResult.success run.1.1 = true
  ∧ AgentTakeoverResult.inherited_tasks run.1.1 = Some (Agent.claimed_tasks targetAgent)
  ∧ Workflow.agents saved
    = <[targetAgentId := Agent.set_claimed_tasks [] (Agent.set_status terminated targetAgent)]>
        (Workflow.agents workflow)
  ∧ Workflow.locks saved
    = transfer_lock targetAgentId (Agent.id currentAgent) <$> Workflow.locks workflow
  ∧ (∀ k, k ∈ Agent.claimed_tasks targetAgent →
          Workflow.tasks saved !! k
          = Task.set_assigned_agent (Some (Agent.id currentAgent))
              <$> Workflow.tasks workflow !! k)
  ∧ (∃ object, run.2 = Some object
               ∧ ∀ k, k ∈ Agent.claimed_tasks targetAgent →
                      k ∈ Agent.claimed_tasks object).
Proof.
  simpl. intros Htarget Hlive Hother. unfold takeoverAgent_run. rewrite Htarget.
  rewrite bool_decide_eq_false_2 by exact Hlive.
  destruct (getOrCreateCurrentAgent None generatedId sessionId now store)
    as [currentAgent store1].
  simpl in Hother. rewrite bool_decide_eq_false_2 by exact Hother.
  pose proof (foldl_inherit_task_lookup (Agent.claimed_tasks targetAgent)
                (Workflow.tasks (Store.document store)) currentAgent) as Hlookup.
  pose proof (foldl_inherit_task_claims (Agent.claimed_tasks targetAgent)
                (Workflow.tasks (Store.document store)) currentAgent) as Hclaims.
  destruct (foldl inherit_task _ _) as [tasks' currentAgent1]. simpl in *.
  repeat split; try reflexivity.
  - intros k Hk. rewrite Hlookup, decide_True by exact Hk. reflexivity.
  - eexists. split; [reflexivity |]. simpl. intros k Hk. apply Hclaims. auto.
Qed.

(** C1 at work.  Agent a2 takes over a1, who holds T1, T2 and the lease
    on g.ts.  The call succeeds and hands T1 and T2 over; in the saved
    document the tasks are assigned to a2, the lease is a2's and a1 is
    terminated without claims, but the claims of a2 are empty: T1 and T2
    went into an object of another load of the file, which is never
    written. *)
Theorem takeoverAgent_drops_claims :
  let run := takeoverAgent_run "a1" "ea_new" "session" 10 (Store.mk handover (Some "a2")) in
  let saved := Store.document run.1.2 in
  run.1 = takeoverAgent "a1" "ea_new" "session" 10 (Store.mk handover (Some "a2"))
  ∧ AgentTakeoverResult.success run.1.1 = true
  ∧ AgentTakeoverResult.inherited_tasks run.1.1 = Some ["T1"; "T2"]
  ∧ Task.assigned_agent <$> Workflow.tasks saved !! "T1" = Some (Some "a2")
  ∧ Task.assigned_agent <$> Workflow.tasks saved !! "T2" = Some (Some "a2")
  ∧ FileLock.locked_by <$> Workflow.locks saved !! "g.ts" = Some "a2"
  ∧ Agent.status <$> Workflow.agents saved !! "a1" = Some terminated
  ∧ Agent.claimed_tasks <$> Workflow.agents saved !! "a1" = Some []
  ∧ Agent.claimed_tasks <$> Workflow.agents saved !! "a2" = Some []
  ∧ Agent.claimed_tasks <$> run.2 = Some ["T1"; "T2"].
Proof. vm_compute. repeat split. Qed.

(** The same call from a context without an agent of its own: the agent
    minted for it is remembered locally, and the saved document does not
    have it. *)
Lemma takeoverAgent_drops_new_agent :
  let store' := (takeoverAgent "a1" "ea_new" "session" 10 (Store.mk handover None)).2 in
  Store.agent_id_file store' = Some "ea_new"
  ∧ Workflow.agents (Store.document store') !! "ea_new" = None
  ∧ Task.assigned_agent <$> Workflow.tasks (Store.document store') !! "T1"
    = Some (Some "ea_new").
Proof. vm_compute. repeat split. Qed.

(** ** Suggestions along a history *)

Lemma checkRefactorSuggestion_suggestions (workflow : Workflow.t) (filePath : string)
    (method : option string) (now : Z) :
  let old := Workflow.refactor_suggestions workflow in
  let new :=
    Workflow.refactor_suggestions (checkRefactorSuggestion workflow filePath method now) in
  new = old ∨ ∃ s, new = old ++ [s] ∧ suggestion_key s ∉ suggestion_key <$> old.
Proof.
  simpl.
  destruct (checkRefactorSuggestion_cases workflow filePath method now) as (_ & _ & H).
  simpl in H. destruct (_ <=? _); simpl in H; [| left; exact H].
  destruct (existsb _ _) eqn:Ex; simpl in H; [left; exact H |].
  destruct H as (s & Hs & Hfile & Hmethod & _). right. exists s. split; [exact Hs |].
  pose proof (proj1 (no_same_suggestion _ _ _) Ex) as Hfree.
  intros Hkey. apply list_elem_of_fmap in Hkey as (s0 & Hk & Hs0).
  unfold suggestion_key in Hk. injection Hk as Hf Hm.
  apply (Hfree s0 Hs0). split; [congruence |]. intros _. congruence.
Qed.

Lemma getOrCreateCurrentAgent_suggestions (name : option string)
    (generatedId sessionId : string) (now : Z) (store : Store.t) :
  Workflow.refactor_suggestions
    (Store.document (getOrCreateCurrentAgent name generatedId sessionId now store).2)
  = Workflow.refactor_suggestions (Store.document store).
Proof. unfold getOrCreateCurrentAgent. repeat case_match; reflexivity. Qed.

Lemma takeoverAgent_suggestions (targetAgentId generatedId sessionId : string) (now : Z)
    (store : Store.t) :
  Workflow.refactor_suggestions
    (Store.document (takeoverAgent targetAgentId generatedId sessionId now store).2)
  = Workflow.refactor_suggestions (Store.document store).
Proof.
  unfold takeoverAgent, takeoverAgent_run.
  destruct (Workflow.agents (Store.document store) !! targetAgentId) as [targetAgent|];
    [| reflexivity].
  destruct (bool_decide _); [reflexivity |].
  pose proof (getOrCreateCurrentAgent_suggestions None generatedId sessionId now store) as H.
  destruct (getOrCreateCurrentAgent None generatedId sessionId now store)
    as [currentAgent store1].
  destruct (bool_decide _); [exact H |].
  destruct (foldl inherit_task _ _) as [tasks' currentAgent1]. reflexivity.
Qed.

(** A call leaves the suggestions as they are, or pushes one for a pair
    that had none, or removes one. *)
Lemma step_suggestions (store : Store.t) (call : Z * Op) :
  let old := Workflow.refactor_suggestions (Store.document store) in
  let new := Workflow.refactor_suggestions (Store.document (step store call)) in
  new = old
  ∨ (∃ s, new = old ++ [s] ∧ suggestion_key s ∉ suggestion_key <$> old)
  ∨ ∃ index, new = delete index old.
Proof.
  destruct call as [now op]. simpl.
  destruct op; unfold step; simpl;
    try (left; reflexivity);
    try (left;
         unfold claimTask, completeTask, updateTaskStatus, deleteTask, acquireLock,
           createLock, getLockStatus, forceReleaseLock, cleanupExpiredLocks,
           renameAgent, touchAgent, deactivateAgent, cleanupTerminatedAgents;
         repeat case_match; reflexivity).
  - unfold releaseLock. repeat case_match; try (left; reflexivity). simpl.
    match goal with
    | |- context [checkRefactorSuggestion ?w ?p ?m ?n] =>
        destruct (checkRefactorSuggestion_suggestions w p m n) as [Hsame|Hpushed]
    end; [left; exact Hsame | right; left; exact Hpushed].
  - unfold dismissRefactorSuggestion. repeat case_match; try (left; reflexivity).
    right. right. eexists. reflexivity.
  - left. apply getOrCreateCurrentAgent_suggestions.
  - left. apply takeoverAgent_suggestions.
Qed.

(** X24.  From a document in which no (path, method) pair has two
    suggestions, no history of calls reaches one in which a pair has
    two. *)
Lemma run_suggestions_unique (history : list (Z * Op)) (store : Store.t) :
  NoDup (suggestion_key <$> Workflow.refactor_suggestions (Store.document store)) →
  NoDup (suggestion_key
           <$> Workflow.refactor_suggestions (Store.document (run history store))).
Proof.
  unfold run. revert store.
  induction history as [|call history IH]; intros store Hnd; [exact Hnd |].
  simpl. apply IH.
  destruct (step_suggestions store call) as [-> | [(s & -> & Hfresh) | (index & ->)]].
  - exact Hnd.
  - rewrite fmap_app. apply NoDup_app. split; [exact Hnd |].
    split; [| apply NoDup_singleton].
    intros key Hkey Hnew. apply list_elem_of_singleton in Hnew. subst key. contradiction.
  - apply (sublist_NoDup _ _ Hnd), fmap_sublist, sublist_delete.
Qed.

(** * Further facts *)

(** ** The dependency graph under [addTask] and [deleteTask] *)

(** A loop that rewrites one entry per round with an idempotent [g]
    rewrites, in the end, the entries it ran over, once each. *)
Lemma foldl_pointwise_lookup {A : Type}
    (f : gmap string A → string → gmap string A) (g : A → A) :
  (∀ x, g (g x) = g x) →
  (∀ m d k, f m d !! k = if decide (k = d) then g <$> m !! k else m !! k) →
  ∀ (ds : list string) (m : gmap string A) (k : string),
    foldl f m ds !! k = if decide (k ∈ ds) then g <$> m !! k else m !! k.
Proof.
  intros Hg Hf ds. induction ds as [|d ds IH]; intros m k.
  - simpl. destruct (decide (k ∈ @nil string)) as [Hin|]; [inversion Hin | reflexivity].
  - change (foldl f m (d :: ds)) with (foldl f (f m d) ds). rewrite IH, Hf.
    destruct (decide (k = d)) as [->|Hne];
      destruct (decide (_ ∈ ds)) as [Hin|Hout];
      destruct (decide (_ ∈ d :: ds)) as [Hall|Hall];
      try reflexivity;
      try (destruct (m !! d); simpl; rewrite ?Hg; reflexivity);
      exfalso;
      first [ apply Hall; first [apply list_elem_of_here | apply list_elem_of_further, Hin]
            | apply elem_of_cons in Hall as [?|?]; contradiction ].
Qed.

Lemma filter_ne_idemp (taskId : string) (ids : list string) :
  filter (λ id, id ≠ taskId) (filter (λ id, id ≠ taskId) ids)
  = filter (λ id, id ≠ taskId) ids.
Proof. apply list_filter_filter_l. auto. Qed.

Lemma filter_ne_absent (taskId : string) (ids : list string) :
  taskId ∉ ids → filter (λ id, id ≠ taskId) ids = ids.
Proof.
  induction ids as [|x ids IH]; intros Hout; [reflexivity |].
  rewrite filter_cons_True by (intros ->; apply Hout, list_elem_of_here).
  rewrite IH; [reflexivity |]. intros Hin. apply Hout, list_elem_of_further, Hin.
Qed.

Lemma filter_ne_gone (taskId : string) (ids : list string) :
  taskId ∉ filter (λ id, id ≠ taskId) ids.
Proof. rewrite list_elem_of_filter. intros [Hne _]. apply Hne. reflexivity. Qed.

Lemma link_dependency_lookup (taskId : string) (tasks : gmap string Task.t)
    (depId k : string) :
  link_dependency taskId tasks depId !! k
  = if decide (k = depId)
    then (λ t, if includes taskId (Task.dependents t) then t
               else Task.set_dependents (Task.dependents t ++ [taskId]) t) <$> tasks !! k
    else tasks !! k.
Proof.
  unfold link_dependency. destruct (decide (k = depId)) as [->|Hne].
  - destruct (tasks !! depId) as [depTask|] eqn:E; [| rewrite E; reflexivity].
    simpl. destruct (includes _ _); [exact E | apply lookup_insert_eq].
  - destruct (tasks !! depId) as [depTask|]; [| reflexivity].
    destruct (includes _ _); [reflexivity |]. apply lookup_insert_ne. congruence.
Qed.

Lemma unlink_dependent_lookup (taskId : string) (tasks : gmap string Task.t)
    (depId k : string) :
  unlink_dependent taskId tasks depId !! k
  = if decide (k = depId)
    then (λ t, Task.set_dependents (filter (λ id, id ≠ taskId) (Task.dependents t)) t)
           <$> tasks !! k
    else tasks !! k.
Proof.
  unfold unlink_dependent. destruct (decide (k = depId)) as [->|Hne].
  - destruct (tasks !! depId) as [depTask|] eqn:E; [| rewrite E; reflexivity].
    apply lookup_insert_eq.
  - destruct (tasks !! depId) as [depTask|]; [| reflexivity].
    apply lookup_insert_ne. congruence.
Qed.

Lemma unlink_dependency_lookup (taskId : string) (tasks : gmap string Task.t)
    (dependentId k : string) :
  unlink_dependency taskId tasks dependentId !! k
  = if decide (k = dependentId)
    then (λ t, Task.set_dependencies (filter (λ id, id ≠ taskId) (Task.dependencies t)) t)
           <$> tasks !! k
    else tasks !! k.
Proof.
  unfold unlink_dependency. destruct (decide (k = dependentId)) as [->|Hne].
  - destruct (tasks !! dependentId) as [dependent|] eqn:E; [| rewrite E; reflexivity].
    apply lookup_insert_eq.
  - destruct (tasks !! dependentId) as [dependent|]; [| reflexivity].
    apply lookup_insert_ne. congruence.
Qed.

Lemma foldl_link_dependency_lookup (taskId : string) (ds : list string)
    (tasks : gmap string Task.t) (k : string) :
  foldl (link_dependency taskId) tasks ds !! k
  = if decide (k ∈ ds)
    then (λ t, if includes taskId (Task.dependents t) then t
               else Task.set_dependents (Task.dependents t ++ [taskId]) t) <$> tasks !! k
    else tasks !! k.
Proof.
  apply foldl_pointwise_lookup; [| intros; apply link_dependency_lookup].
  intros t. destruct (includes taskId (Task.dependents t)) eqn:E; [rewrite E; reflexivity |].
  simpl. unfold includes. rewrite bool_decide_eq_true_2; [reflexivity |].
  rewrite elem_of_app, list_elem_of_singleton. auto.
Qed.

Lemma foldl_unlink_dependent_lookup (taskId : string) (ds : list string)
    (tasks : gmap string Task.t) (k : string) :
  foldl (unlink_dependent taskId) tasks ds !! k
  = if decide (k ∈ ds)
    then (λ t, Task.set_dependents (filter (λ id, id ≠ taskId) (Task.dependents t)) t)
           <$> tasks !! k
    else tasks !! k.
Proof.
  apply foldl_pointwise_lookup; [| intros; apply unlink_dependent_lookup].
  intros t. unfold Task.set_dependents at 1. simpl. rewrite filter_ne_idemp. reflexivity.
Qed.

Lemma foldl_unlink_dependency_lookup (taskId : string) (ds : list string)
    (tasks : gmap string Task.t) (k : string) :
  foldl (unlink_dependency taskId) tasks ds !! k
  = if decide (k ∈ ds)
    then (λ t, Task.set_dependencies (filter (λ id, id ≠ taskId) (Task.dependencies t)) t)
           <$> tasks !! k
    else tasks !! k.
Proof.
  apply foldl_pointwise_lookup; [| intros; apply unlink_dependency_lookup].
  intros t. unfold Task.set_dependencies at 1. simpl. rewrite filter_ne_idemp. reflexivity.
Qed.

Lemma isTaskAvailable_open_dependency (task : Task.t) (wf : Workflow.t) (depId : string) :
  depId ∈ Task.dependencies task →
  dependency_completed wf depId = false →
  isTaskAvailable task wf = false.
Proof.
  intros Hin Hopen. destruct (isTaskAvailable task wf) eqn:E; [| reflexivity].
  apply isTaskAvailable_true in E as (_ & _ & Hdeps).
  apply Hdeps, dependency_completed_true in Hin. congruence.
Qed.

Lemma finds_inherited_nowhere {A : Type} (object : gmap string A) (keys : list string) :
  (∀ key, key ∈ keys → property object key ≠ Inherited) →
  existsb (Method.finds_inherited object) keys = false.
Proof.
  intros Hkeys. induction keys as [|key keys IH]; [reflexivity |].
  simpl. rewrite IH by (intros k Hk; apply Hkeys, list_elem_of_further, Hk).
  unfold Method.finds_inherited.
  pose proof (Hkeys key (list_elem_of_here _ _)) as Hkey.
  destruct (property object key); [reflexivity | contradiction | reflexivity].
Qed.

(** X1.  [addTask], its generated id fresh and no dependency given
    being a name the tasks inherit without having it (on which the loop
    over the dependencies throws), stores the task it returns: pending,
    unassigned, without dependents.  Each dependency the document has
    gets the new id among its dependents, once more at most, and is
    otherwise as it was; the tasks that are not dependencies, the agents
    and the locks are untouched.  A dependency the document lacks is not
    created, and the new task is then not available. *)
Theorem addTask_links (options : AddTaskOptions.t) (taskId : string) (now : Z)
    (workflow : Workflow.t) :
  Workflow.tasks workflow !! taskId = None →
  inherits taskId = false →
  (∀ d, d ∈ default [] (AddTaskOptions.dependencies options) →
        property (Workflow.tasks workflow) d ≠ Inherited) →
  let deps := default [] (AddTaskOptions.dependencies options) in
  let task := (addTask options taskId now workflow).1 in
  let workflow' := (addTask options taskId now workflow).2 in
  Method.addTask options taskId now workflow = Returns (task, workflow')
  ∧ Workflow.tasks workflow' !! taskId = Some task
  ∧ (Task.id task = taskId ∧ Task.status task = pending ∧ Task.assigned_agent task = None
     ∧ Task.dependents task = [] ∧ Task.dependencies task = deps)
  ∧ (∀ d t, d ∈ deps → Workflow.tasks workflow !! d = Some t →
       ∃ t', Workflow.tasks workflow' !! d = Some t'
             ∧ Task.set_dependents (Task.dependents t) t' = t
             ∧ Task.dependents t'
               = (if includes taskId (Task.dependents t) then Task.dependents t
                  else Task.dependents t ++ [taskId])
             ∧ (NoDup (Task.dependents t) → NoDup (Task.dependents t')))
  ∧ (∀ d, d ∉ deps → d ≠ taskId →
       Workflow.tasks workflow' !! d = Workflow.tasks workflow !! d)
  ∧ (∀ d, d ∈ deps → Workflow.tasks workflow !! d = None →
       (d ≠ taskId → Workflow.tasks workflow' !! d = None)
       ∧ isTaskAvailable task workflow' = false)
  ∧ Workflow.agents workflow' = Workflow.agents workflow
  ∧ Workflow.locks workflow' = Workflow.locks workflow.
Proof.
  intros Hfresh _ Hregular. cbv zeta.
  split.
  { unfold Method.addTask. rewrite finds_inherited_nowhere by exact Hregular.
    reflexivity. }
  simpl. split; [apply lookup_insert_eq |].
  split; [auto 6 |]. split; [| split; [| split; [| auto]]].
  - intros d t Hd Ht.
    assert (taskId ≠ d) as Hne by congruence.
    rewrite lookup_insert_ne by exact Hne.
    rewrite foldl_link_dependency_lookup, decide_True by exact Hd.
    rewrite Ht. simpl. eexists. split; [reflexivity |].
    destruct (includes taskId (Task.dependents t)) eqn:E.
    + split; [destruct t; reflexivity |]. auto.
    + apply includes_false in E. simpl. split; [destruct t; reflexivity |].
      split; [reflexivity |].
      intros Hnd. apply NoDup_app. split; [exact Hnd |]. split; [| apply NoDup_singleton].
      intros id Hid Hnew. apply list_elem_of_singleton in Hnew. congruence.
  - intros d Hout Hne. rewrite lookup_insert_ne by congruence.
    rewrite foldl_link_dependency_lookup, decide_False by exact Hout. reflexivity.
  - intros d Hd Hnone. split.
    + intros Hne. rewrite lookup_insert_ne by congruence.
      rewrite foldl_link_dependency_lookup, decide_True by exact Hd.
      rewrite Hnone. reflexivity.
    + apply isTaskAvailable_open_dependency with (depId := d); [exact Hd |].
      unfold dependency_completed. simpl.
      destruct (decide (taskId = d)) as [->|Hne].
      * rewrite lookup_insert_eq. reflexivity.
      * rewrite lookup_insert_ne by exact Hne.
        rewrite foldl_link_dependency_lookup, decide_True by exact Hd.
        rewrite Hnone. reflexivity.
Qed.

Lemma addTask_links_witness :
  (∃ t', Workflow.tasks
           (addTask (AddTaskOptions.mk "t" "d" None (Some ["A1"; "ghost"]) None None None)
              "task_1" 5 diamond).2 !! "A1" = Some t'
         ∧ Task.dependents t' = ["B"; "task_1"])
  ∧ isTaskAvailable
      (addTask (AddTaskOptions.mk "t" "d" None (Some ["A1"; "ghost"]) None None None)
         "task_1" 5 diamond).1
      (addTask (AddTaskOptions.mk "t" "d" None (Some ["A1"; "ghost"]) None None None)
         "task_1" 5 diamond).2 = false.
Proof.
  destruct (addTask_links
              (AddTaskOptions.mk "t" "d" None (Some ["A1"; "ghost"]) None None None)
              "task_1" 5 diamond) as (_ & _ & _ & Hlinked & _ & Hmissing & _).
  - reflexivity.
  - reflexivity.
  - intros d Hd. simpl in Hd.
    apply elem_of_cons in Hd as [-> | Hd]; [vm_compute; discriminate |].
    apply list_elem_of_singleton in Hd as ->. vm_compute. discriminate.
  - split.
    + destruct (Hlinked "A1" (sample_task "A1" pending None [] ["B"]))
        as (t' & Ht' & _ & Hdependents & _);
        [simpl; apply list_elem_of_here | reflexivity |].
      exists t'. split; [exact Ht' | exact Hdependents].
    + apply (Hmissing "ghost");
        [simpl; apply list_elem_of_further, list_elem_of_here | reflexivity].
Defined.

(** X2.  [deleteTask] on an id the lookup finds nothing for answers
    false and writes nothing.  On a task of the document, no dependency,
    dependent or assignee of which is a name inherited without being had
    (on which the repair throws), it answers true and removes the task.
    Every other task stays, and is what it was but for two lists: a
    dependency of the deleted task loses it from its dependents, a
    dependent of it loses it from its dependencies.  Its assignee, when
    not the empty id, loses it from the claimed tasks; every other agent
    and the locks are as they were.  Dependents are not deleted. *)
Theorem deleteTask_repairs (taskId : string) (now : Z) (workflow : Workflow.t) :
  let workflow' := (deleteTask taskId now workflow).2 in
  (property (Workflow.tasks workflow) taskId = Undefined →
     Method.deleteTask taskId now workflow = Returns (false, workflow))
  ∧ (∀ task, Workflow.tasks workflow !! taskId = Some task →
       (∀ d, d ∈ Task.dependencies task ++ Task.dependents task →
             property (Workflow.tasks workflow) d ≠ Inherited) →
       (∀ a, Task.assigned_agent task = Some a →
             property (Workflow.agents workflow) a ≠ Inherited) →
       Method.deleteTask taskId now workflow = Returns (true, workflow')
       ∧ Workflow.tasks workflow' !! taskId = None
       ∧ (∀ k t, k ≠ taskId → Workflow.tasks workflow !! k = Some t →
            Workflow.tasks workflow' !! k
            = Some (Task.set_dependencies
                      (if decide (k ∈ Task.dependents task)
                       then filter (λ id, id ≠ taskId) (Task.dependencies t)
                       else Task.dependencies t)
                      (Task.set_dependents
                         (if decide (k ∈ Task.dependencies task)
                          then filter (λ id, id ≠ taskId) (Task.dependents t)
                          else Task.dependents t)
                         t)))
       ∧ (∀ k, Workflow.tasks workflow !! k = None → Workflow.tasks workflow' !! k = None)
       ∧ (∀ b, Workflow.agents workflow' !! b
               = if decide (Task.assigned_agent task = Some b ∧ b ≠ "")
                 then (λ agent,
                         Agent.set_claimed_tasks
                           (filter (λ id, id ≠ taskId) (Agent.claimed_tasks agent)) agent)
                        <$> Workflow.agents workflow !! b
                 else Workflow.agents workflow !! b)
       ∧ Workflow.locks workflow' = Workflow.locks workflow).
Proof.
  cbv zeta. split.
  { intros Hnone. unfold Method.deleteTask. rewrite Hnone. reflexivity. }
  intros task Htask Hlinks Hassignee.
  assert (Method.deleteTask taskId now workflow = Returns (deleteTask taskId now workflow))
    as Hreturns.
  { unfold Method.deleteTask, property at 1. rewrite Htask.
    rewrite finds_inherited_nowhere by exact Hlinks.
    destruct (Task.assigned_agent task) as [a|] eqn:Ha; [| reflexivity].
    unfold Method.finds_inherited. simpl.
    pose proof (Hassignee a eq_refl) as Hagent.
    destruct (property (Workflow.agents workflow) a);
      [rewrite andb_false_r; reflexivity | contradiction | rewrite andb_false_r; reflexivity]. }
  rewrite Hreturns. clear Hreturns Hlinks Hassignee.
  unfold deleteTask. rewrite Htask. simpl.
  set (tasks1 := foldl (unlink_dependent taskId) (Workflow.tasks workflow)
                   (Task.dependencies task)).
  set (task1 := default task (tasks1 !! taskId)).
  set (tasks2 := foldl (unlink_dependency taskId) tasks1 (Task.dependents task1)).
  set (task2 := default task1 (tasks2 !! taskId)).
  assert (tasks1 !! taskId
          = if decide (taskId ∈ Task.dependencies task)
            then Some (Task.set_dependents
                         (filter (λ id, id ≠ taskId) (Task.dependents task)) task)
            else Some task) as Hlook1.
  { unfold tasks1. rewrite foldl_unlink_dependent_lookup, Htask.
    destruct (decide _); reflexivity. }
  assert (∀ k, k ≠ taskId → k ∈ Task.dependents task1 ↔ k ∈ Task.dependents task)
    as Hdependents1.
  { unfold task1. rewrite Hlook1. destruct (decide _); simpl; [| tauto].
    intros k Hk. rewrite list_elem_of_filter. tauto. }
  assert (Task.assigned_agent task2 = Task.assigned_agent task) as Hassign2.
  { unfold task2, tasks2. rewrite foldl_unlink_dependency_lookup.
    destruct (decide (taskId ∈ Task.dependents task1)) as [_|_];
      unfold task1; rewrite Hlook1;
      destruct (decide (taskId ∈ Task.dependencies task)); reflexivity. }
  split; [reflexivity |]. split; [apply lookup_delete_eq |].
  split; [| split; [| split; [| reflexivity]]].
  - intros k t Hk Ht. rewrite lookup_delete_ne by congruence.
    unfold tasks2. rewrite foldl_unlink_dependency_lookup.
    unfold tasks1. rewrite foldl_unlink_dependent_lookup, Ht.
    pose proof (Hdependents1 k Hk) as Hiff.
    destruct (decide (k ∈ Task.dependents task1)) as [Hd1|Hd1];
      destruct (decide (k ∈ Task.dependents task)) as [Hd|Hd];
      try (exfalso; tauto);
      destruct (decide (k ∈ Task.dependencies task)) as [Hd2|Hd2]; simpl;
      destruct t; reflexivity.
  - intros k Hnone. destruct (decide (taskId = k)) as [->|Hne]; [apply lookup_delete_eq |].
    rewrite lookup_delete_ne by exact Hne.
    unfold tasks2. rewrite foldl_unlink_dependency_lookup.
    unfold tasks1. rewrite foldl_unlink_dependent_lookup, Hnone.
    destruct (decide (k ∈ Task.dependents task1));
      destruct (decide (k ∈ Task.dependencies task)); reflexivity.
  - intros b. rewrite Hassign2.
    destruct (Task.assigned_agent task) as [[|c a]|] eqn:Ha;
      cbn [truthy_ostring truthy_string default].
    + destruct (decide (Some "" = Some b ∧ b ≠ "")) as [[[= <-] Hne]|_]; [| reflexivity].
      exfalso. apply Hne. reflexivity.
    + unfold unclaim.
      destruct (decide (Some (String c a) = Some b ∧ b ≠ "")) as [[[= <-] _]|Hno]; simpl.
      * destruct (Workflow.agents workflow !! String c a) as [agent|] eqn:Hagent; simpl.
        -- rewrite lookup_insert_eq. reflexivity.
        -- rewrite Hagent. reflexivity.
      * assert (String c a ≠ b) as Hne.
        { intros <-. apply Hno. split; [reflexivity | discriminate]. }
        destruct (Workflow.agents workflow !! String c a) as [agent|]; [| reflexivity].
        simpl. apply lookup_insert_ne. exact Hne.
    + destruct (decide (None = Some b ∧ b ≠ "")) as [[Hsome _]|_]; [| reflexivity].
      discriminate Hsome.
Qed.

Lemma deleteTask_repairs_witness :
  Workflow.tasks (deleteTask "A1" 5 diamond).2 !! "B"
  = Some (sample_task "B" pending None ["A2"] [])
  ∧ Workflow.tasks (deleteTask "A1" 5 diamond).2 !! "A2"
    = Some (sample_task "A2" pending None [] ["B"])
  ∧ Method.deleteTask "ghost" 5 diamond = Returns (false, diamond).
Proof.
  destruct (deleteTask_repairs "A1" 5 diamond) as [_ H].
  destruct (H (sample_task "A1" pending None [] ["B"])) as (_ & _ & Hleft & _).
  - reflexivity.
  - intros d Hd. simpl in Hd. apply list_elem_of_singleton in Hd as ->.
    vm_compute. discriminate.
  - intros a Ha. discriminate Ha.
  - split; [| split].
    + rewrite (Hleft "B" (sample_task "B" pending None ["A1"; "A2"] []));
        [reflexivity | discriminate | reflexivity].
    + rewrite (Hleft "A2" (sample_task "A2" pending None [] ["B"]));
        [reflexivity | discriminate | reflexivity].
    + apply (deleteTask_repairs "ghost" 5 diamond). reflexivity.
Defined.

(** X3.  Adding a task under an id no task of the document mentions and
    deleting it again gives the document back, but for the time of the
    last save: the links [addTask] pushed are the ones [deleteTask]
    strips. *)
Theorem addTask_deleteTask (options : AddTaskOptions.t) (taskId : string) (now now' : Z)
    (workflow : Workflow.t) :
  Workflow.tasks workflow !! taskId = None →
  (∀ k t, Workflow.tasks workflow !! k = Some t → taskId ∉ Task.dependents t) →
  deleteTask taskId now' (addTask options taskId now workflow).2 = (true, save now' workflow).
Proof.
  intros Hfresh Hunmentioned. unfold deleteTask, addTask. simpl.
  rewrite lookup_insert_eq. simpl.
  set (deps := default [] (AddTaskOptions.dependencies options)).
  set (task := Task.mk taskId _ _ _ _ _ _ _ _ _ _ _ _ _ _ _).
  set (linked := foldl (link_dependency taskId) (Workflow.tasks workflow) deps).
  set (tasks1 := foldl (unlink_dependent taskId) (<[taskId := task]> linked) deps).
  assert (∃ task1, tasks1 !! taskId = Some task1 ∧ Task.dependents task1 = []
                   ∧ Task.assigned_agent task1 = None) as (task1 & Hlook & Hnil & Hnone).
  { unfold tasks1. rewrite foldl_unlink_dependent_lookup, lookup_insert_eq.
    destruct (decide _); simpl; eexists; (split; [reflexivity |]); auto. }
  rewrite Hlook. simpl. rewrite Hnil. simpl. rewrite Hlook. simpl. rewrite Hnone. simpl.
  assert (delete taskId tasks1 = Workflow.tasks workflow) as ->.
  { apply map_eq. intros k. destruct (decide (taskId = k)) as [<-|Hne].
    - rewrite lookup_delete_eq, Hfresh. reflexivity.
    - rewrite lookup_delete_ne by exact Hne. unfold tasks1.
      rewrite foldl_unlink_dependent_lookup, lookup_insert_ne by exact Hne.
      unfold linked. rewrite foldl_link_dependency_lookup.
      destruct (decide (k ∈ deps)); [| reflexivity].
      destruct (Workflow.tasks workflow !! k) as [t|] eqn:Ht; [| reflexivity].
      simpl. f_equal. pose proof (Hunmentioned k t Ht) as Hout.
      rewrite (proj2 (includes_false _ _) Hout). simpl.
      rewrite filter_app, filter_ne_absent by exact Hout.
      rewrite filter_cons_False by (intros Hn; apply Hn; reflexivity).
      rewrite filter_nil, app_nil_r. destruct t; reflexivity. }
  destruct workflow; reflexivity.
Qed.

Lemma addTask_deleteTask_witness :
  deleteTask "task_1" 6
    (addTask (AddTaskOptions.mk "t" "d" None (Some ["A1"; "ghost"]) None None None)
       "task_1" 5 diamond).2
  = (true, save 6 diamond).
Proof.
  apply (addTask_deleteTask
           (AddTaskOptions.mk "t" "d" None (Some ["A1"; "ghost"]) None None None)
           "task_1" 5 6 diamond).
  - reflexivity.
  - intros k t Ht Hin.
    assert (k ∈ ["A1"; "A2"; "B"]) as Hk.
    { destruct (decide (k = "A1")) as [->|H1]; [repeat constructor |].
      destruct (decide (k = "A2")) as [->|H2]; [repeat constructor |].
      destruct (decide (k = "B")) as [->|H3]; [repeat constructor |].
      unfold diamond, sample_workflow in Ht. simpl in Ht.
      rewrite !lookup_insert_ne, lookup_empty in Ht by congruence. discriminate. }
    repeat (apply elem_of_cons in Hk as [->|Hk]);
      [vm_compute in Ht; injection Ht as <-; simpl in Hin
       | vm_compute in Ht; injection Ht as <-; simpl in Hin
       | vm_compute in Ht; injection Ht as <-; simpl in Hin
       | inversion Hk].
    + apply list_elem_of_singleton in Hin. discriminate.
    + apply list_elem_of_singleton in Hin. discriminate.
    + inversion Hin.
Defined.

(** ** Claims, resets and completions *)

(** Where neither lookup of [claimTask] finds an inherited value, the
    call returns, and returns what [claimTask] computes on own
    properties. *)
Lemma claimTask_returns (taskId agentId : string) (now : Z) (workflow : Workflow.t) :
  property (Workflow.tasks workflow) taskId ≠ Inherited →
  (∀ task, Workflow.tasks workflow !! taskId = Some task →
           isTaskAvailable task workflow = true →
           property (Workflow.agents workflow) agentId ≠ Inherited) →
  Method.claimTask taskId agentId now workflow
  = Returns (claimTask taskId agentId now workflow).
Proof.
  intros Htask Hagent. unfold Method.claimTask.
  unfold property at 1. unfold property in Htask.
  destruct (Workflow.tasks workflow !! taskId) as [task|] eqn:Ht.
  - destruct (isTaskAvailable task workflow) eqn:Ha; [| reflexivity].
    specialize (Hagent task eq_refl Ha).
    destruct (property (Workflow.agents workflow) agentId); [reflexivity | | reflexivity].
    contradiction.
  - destruct (inherits taskId); [contradiction | reflexivity].
Qed.

(** X4.  A claimed task that [updateTaskStatus] puts back to pending
    keeps its assignee.  When the claimant's id is not the empty string,
    the task is still not available, and a claim for it, for whichever
    agent, fails with the conflict "already assigned", naming the first
    claimant, and writes nothing.  When it is the empty string, the task
    is available again.  (The first claim is for an id that is an agent
    of the document or not a name every object inherits.) *)
Theorem claimTask_after_reset (taskId agentId agentId' : string) (now now1 now2 : Z)
    (workflow : Workflow.t) (task : Task.t) :
  Workflow.tasks workflow !! taskId = Some task →
  isTaskAvailable task workflow = true →
  property (Workflow.agents workflow) agentId ≠ Inherited →
  let workflow1 := (claimTask taskId agentId now workflow).2 in
  let workflow2 := (updateTaskStatus taskId pending now1 workflow1).2 in
  Method.claimTask taskId agentId now workflow
  = Returns (claimTask taskId agentId now workflow)
  ∧ TaskClaimResult.success (claimTask taskId agentId now workflow).1 = true
  ∧ (updateTaskStatus taskId pending now1 workflow1).1 = true
  ∧ task_status workflow2 taskId = Some pending
  ∧ (agentId ≠ "" →
       Method.claimTask taskId agentId' now2 workflow2
       = Returns (claim_failure (conflict_message (AlreadyAssigned agentId)), workflow2))
  ∧ (agentId = "" →
       ∃ task2, Workflow.tasks workflow2 !! taskId = Some task2
                ∧ Task.assigned_agent task2 = Some ""
                ∧ isTaskAvailable task2 workflow2 = true).
Proof.
  intros Ht Ha Hagent. cbv zeta.
  split.
  { apply claimTask_returns; [unfold property; rewrite Ht; discriminate | auto]. }
  destruct (claimTask_success taskId agentId now workflow task Ht Ha) as [Hr Htasks].
  split; [rewrite Hr; reflexivity |].
  unfold updateTaskStatus. rewrite Htasks, lookup_insert_eq.
  cbn [fst snd]. split; [reflexivity |]. split.
  { unfold task_status. simpl. rewrite lookup_insert_eq. reflexivity. }
  split.
  - intros Hne. unfold Method.claimTask, property. simpl. rewrite lookup_insert_eq.
    unfold claimTask. simpl. rewrite lookup_insert_eq.
    unfold isTaskAvailable. simpl.
    destruct agentId as [|c rest]; [contradiction |]. reflexivity.
  - intros ->. eexists. split; [simpl; apply lookup_insert_eq |].
    split; [reflexivity |].
    apply isTaskAvailable_true in Ha as (Hpending & _ & Hdeps).
    apply isTaskAvailable_true. split; [reflexivity |]. split; [reflexivity |].
    simpl. intros d Hd. destruct (Hdeps d Hd) as (depTask & Hdep & Hdone).
    exists depTask. split; [| exact Hdone].
    assert (taskId ≠ d) as Hother by (intros <-; congruence).
    rewrite !lookup_insert_ne by exact Hother. exact Hdep.
Qed.

Lemma claimTask_after_reset_witness :
  Method.claimTask "A1" "a2" 9
    (updateTaskStatus "A1" pending 8 (claimTask "A1" "a1" 7 diamond).2).2
  = Returns (claim_failure "Task is already assigned to a1",
             (updateTaskStatus "A1" pending 8 (claimTask "A1" "a1" 7 diamond).2).2)
  ∧ ∃ task2,
      Workflow.tasks (updateTaskStatus "A1" pending 8 (claimTask "A1" "" 7 diamond).2).2
        !! "A1" = Some task2
      ∧ Task.assigned_agent task2 = Some ""
      ∧ isTaskAvailable task2
          (updateTaskStatus "A1" pending 8 (claimTask "A1" "" 7 diamond).2).2 = true.
Proof.
  split.
  - apply (claimTask_after_reset "A1" "a1" "a2" 7 8 9 diamond
             (sample_task "A1" pending None [] ["B"])).
    + reflexivity.
    + reflexivity.
    + vm_compute. discriminate.
    + discriminate.
  - apply (claimTask_after_reset "A1" "" "a2" 7 8 9 diamond
             (sample_task "A1" pending None [] ["B"])).
    + reflexivity.
    + reflexivity.
    + vm_compute. discriminate.
    + reflexivity.
Defined.

(** X5.  After a completion, a second [completeTask] of the task fails
    with "Task is already completed" and writes nothing.  The completion
    keeps the task's assignee and takes the task out of that agent's
    claims, leaving the agent's other claims in place. *)
Theorem completeTask_once (easyagentsDir taskId summary : string) (output : option string)
    (now : Z) (workflow : Workflow.t) (task : Task.t) :
  Workflow.tasks workflow !! taskId = Some task →
  Task.status task ≠ completed →
  let workflow' := (completeTask easyagentsDir taskId summary output now workflow).2 in
  (∀ dir' summary' output' now',
     completeTask dir' taskId summary' output' now' workflow'
     = (TaskCompleteResult.mk false "Task is already completed" None, workflow'))
  ∧ (∃ task', Workflow.tasks workflow' !! taskId = Some task'
              ∧ Task.assigned_agent task' = Task.assigned_agent task
              ∧ ∃ result, Task.result task' = Some result
                          ∧ TaskResult.completed_at result = now
                          ∧ TaskResult.summary result = summary)
  ∧ (∀ a agent, Task.assigned_agent task = Some a → a ≠ "" →
       Workflow.agents workflow !! a = Some agent →
       ∃ agent', Workflow.agents workflow' !! a = Some agent'
                 ∧ (taskId ∉ Agent.claimed_tasks agent')
                 ∧ Agent.last_active agent' = now
                 ∧ ∀ id, id ≠ taskId →
                     (id ∈ Agent.claimed_tasks agent' ↔ id ∈ Agent.claimed_tasks agent)).
Proof.
  intros Ht Hs. simpl. unfold completeTask. rewrite Ht.
  rewrite bool_decide_eq_false_2 by exact Hs. simpl.
  split; [| split].
  - intros dir' summary' output' now'. rewrite lookup_insert_eq. reflexivity.
  - eexists. split; [apply lookup_insert_eq |]. simpl. split; [reflexivity |].
    eexists. split; [reflexivity |]. auto.
  - intros a agent Ha Hne Hagent. rewrite Ha.
    destruct a as [|c a]; [contradiction |]. simpl.
    unfold unclaim. rewrite Hagent, lookup_insert_eq.
    eexists. split; [reflexivity |]. simpl. split; [apply filter_ne_gone |].
    split; [reflexivity |]. intros id Hid. rewrite list_elem_of_filter. tauto.
Qed.

Lemma completeTask_once_witness :
  completeTask "." "T1" "again" None 9 (completeTask "." "T1" "done" None 8 working).2
  = (TaskCompleteResult.mk false "Task is already completed" None,
     (completeTask "." "T1" "done" None 8 working).2).
Proof.
  apply (completeTask_once "." "T1" "done" None 8 working
           (sample_task "T1" in_progress (Some "a1") [] ["D"])).
  - reflexivity.
  - discriminate.
Defined.

Lemma dependency_completed_insert (workflow workflow' : Workflow.t) (taskId : string)
    (task' : Task.t) (depId : string) :
  Workflow.tasks workflow' = <[taskId := task']> (Workflow.tasks workflow) →
  dependency_completed workflow' depId
  = if decide (depId = taskId) then bool_decide (Task.status task' = completed)
    else dependency_completed workflow depId.
Proof.
  intros Htasks. unfold dependency_completed. rewrite Htasks.
  destruct (decide (depId = taskId)) as [->|Hne].
  - rewrite lookup_insert_eq. reflexivity.
  - rewrite lookup_insert_ne by congruence. reflexivity.
Qed.

(** X6.  A successful [claimTask] changes the availability of no other
    task: every other task is stored as it was and is available after
    the claim exactly if it was before, while the claimed task itself no
    longer is. *)
Theorem claimTask_others_availability (taskId agentId : string) (now : Z)
    (workflow : Workflow.t) (task : Task.t) :
  Workflow.tasks workflow !! taskId = Some task →
  isTaskAvailable task workflow = true →
  let workflow' := (claimTask taskId agentId now workflow).2 in
  (∀ k, k ≠ taskId → Workflow.tasks workflow' !! k = Workflow.tasks workflow !! k)
  ∧ (∀ other, isTaskAvailable other workflow' = isTaskAvailable other workflow)
  ∧ (∀ claimed, Workflow.tasks workflow' !! taskId = Some claimed →
                isTaskAvailable claimed workflow' = false).
Proof.
  intros Ht Ha. simpl.
  destruct (claimTask_success taskId agentId now workflow task Ht Ha) as [_ Htasks].
  split; [| split].
  - intros k Hk. rewrite Htasks. apply lookup_insert_ne. congruence.
  - intros other. unfold isTaskAvailable.
    destruct (bool_decide _); [reflexivity |].
    destruct (truthy_ostring _); [reflexivity |].
    induction (Task.dependencies other) as [|d ds IH]; [reflexivity |].
    simpl. rewrite IH. f_equal.
    rewrite (dependency_completed_insert workflow _ taskId _ d Htasks).
    destruct (decide (d = taskId)) as [->|Hne]; [| reflexivity].
    simpl. unfold dependency_completed. rewrite Ht.
    apply isTaskAvailable_true in Ha as (Hpending & _). rewrite Hpending. reflexivity.
  - intros claimed Hclaimed. rewrite Htasks, lookup_insert_eq in Hclaimed.
    injection Hclaimed as <-. reflexivity.
Qed.

Lemma claimTask_others_availability_witness :
  isTaskAvailable (sample_task "A2" pending None [] ["B"]) (claimTask "A1" "a1" 7 diamond).2
  = isTaskAvailable (sample_task "A2" pending None [] ["B"]) diamond.
Proof.
  apply (claimTask_others_availability "A1" "a1" 7 diamond
           (sample_task "A1" pending None [] ["B"])).
  - reflexivity.
  - reflexivity.
Defined.

(** X7.  A successful [completeTask] takes availability from no other
    task: whatever was available before the completion, the completed
    task apart, is available after it. *)
Theorem completeTask_keeps_available (easyagentsDir taskId summary : string)
    (output : option string) (now : Z) (workflow : Workflow.t) (task other : Task.t)
    (k : string) :
  Workflow.tasks workflow !! taskId = Some task →
  Task.status task ≠ completed →
  k ≠ taskId →
  Workflow.tasks workflow !! k = Some other →
  isTaskAvailable other workflow = true →
  let workflow' := (completeTask easyagentsDir taskId summary output now workflow).2 in
  Workflow.tasks workflow' !! k = Some other
  ∧ isTaskAvailable other workflow' = true.
Proof.
  intros Ht Hs Hk Hother Ha. simpl. unfold completeTask. rewrite Ht.
  rewrite bool_decide_eq_false_2 by exact Hs. simpl.
  split; [rewrite lookup_insert_ne by congruence; exact Hother |].
  apply isTaskAvailable_true in Ha as (Hpending & Hfree & Hdeps).
  apply isTaskAvailable_true. split; [exact Hpending |]. split; [exact Hfree |].
  intros d Hd. simpl. destruct (decide (taskId = d)) as [->|Hne].
  - rewrite lookup_insert_eq. eexists. split; reflexivity.
  - rewrite lookup_insert_ne by exact Hne. apply Hdeps, Hd.
Qed.

Lemma completeTask_keeps_available_witness :
  isTaskAvailable (sample_task "A2" pending None [] ["B"])
    (completeTask "." "A1" "done" None 8 diamond).2 = true.
Proof.
  apply (completeTask_keeps_available "." "A1" "done" None 8 diamond
           (sample_task "A1" pending None [] ["B"])
           (sample_task "A2" pending None [] ["B"]) "A2").
  - reflexivity.
  - discriminate.
  - discriminate.
  - reflexivity.
  - reflexivity.
Defined.

(** X25.  [claimTask] by what the lookup of the task finds.  Nothing:
    it fails with NotFound.  A value every object inherits: it fails
    with the message "Task is already undefined".  A task that is not
    available: it fails with a Conflict whose cause is one of three, told
    apart by their messages: the task has left the pending state, or it
    is assigned to a non-empty id, or a dependency is not completed.  No
    failure writes the document.  And once a claim has returned with
    success, every later claim of the same task, for whichever agent and
    after whatever calls, fails with the Conflict of a task that is not
    pending, as long as none of those calls deletes the task or resets
    it to pending. *)
Theorem claimTask_outcomes (taskId agentId : string) (now : Z) (workflow : Workflow.t) :
  let outcome := Method.claimTask taskId agentId now workflow in
  (property (Workflow.tasks workflow) taskId = Undefined →
     outcome = Returns (claim_failure ("Task " +:+ taskId +:+ " not found"), workflow))
  ∧ (property (Workflow.tasks workflow) taskId = Inherited →
       outcome = Returns (claim_failure "Task is already undefined", workflow))
  ∧ (∀ task, Workflow.tasks workflow !! taskId = Some task →
       isTaskAvailable task workflow = false →
       ∃ cause,
         outcome = Returns (claim_failure (conflict_message cause), workflow)
         ∧ (Task.status task ≠ pending ∧ cause = NonPending (Task.status task)
            ∨ Task.status task = pending
              ∧ (∃ holder, Task.assigned_agent task = Some holder ∧ holder ≠ ""
                           ∧ cause = AlreadyAssigned holder)
            ∨ Task.status task = pending
              ∧ truthy_ostring (Task.assigned_agent task) = false
              ∧ (∃ depId, depId ∈ Task.dependencies task
                          ∧ dependency_completed workflow depId = false)
              ∧ cause = DependenciesUnmet))
  ∧ (∀ c1 c2, conflict_message c1 = conflict_message c2 → c1 = c2)
  ∧ (∀ r workflow',
       outcome = Returns (r, workflow') →
       TaskClaimResult.success r = true →
       ∀ (history : list (Z * Op)) (local : option string) (agentId' : string) (now' : Z),
         Forall (λ call, ¬ resets taskId call.2) history →
         ∃ status, status ≠ pending
           ∧ Method.claimTask taskId agentId' now'
               (Store.document (run history (Store.mk workflow' local)))
             = Returns (claim_failure (conflict_message (NonPending status)),
                        Store.document (run history (Store.mk workflow' local)))).
Proof.
  cbv zeta.
  destruct (claimTask_failure_causes taskId agentId now workflow)
    as (Hmissing & Hbusy & Hinj & Hlater).
  split; [| split; [| split; [| split]]].
  - intros Hnone. unfold Method.claimTask. rewrite Hnone.
    unfold property in Hnone.
    destruct (Workflow.tasks workflow !! taskId) eqn:Ht; [discriminate Hnone |].
    unfold claimTask. rewrite Ht. reflexivity.
  - intros Hinherited. unfold Method.claimTask. rewrite Hinherited. reflexivity.
  - intros task Htask Hno.
    destruct (Hbusy task Htask Hno) as [Hsame Hcause].
    assert (Method.claimTask taskId agentId now workflow
            = Returns ((claimTask taskId agentId now workflow).1, workflow)) as Hret.
    { unfold Method.claimTask, property. rewrite Htask, Hno. f_equal.
      apply injective_projections; [reflexivity | exact Hsame]. }
    rewrite Hret. unfold claim_Conflict in Hcause.
    destruct Hcause as [[Hs Hc] | [(Hs & holder & Hh & Hne & Hc) | (Hs & Ha & Hd & Hc)]];
      rewrite Hc; eexists; (split; [reflexivity |]).
    + left. auto.
    + right. left. split; [exact Hs |]. exists holder. auto.
    + right. right. auto.
  - exact Hinj.
  - intros r workflow' Hret Hok history local agentId' now' Hall.
    assert ((r, workflow') = claimTask taskId agentId now workflow) as Hsame.
    { unfold Method.claimTask in Hret.
      destruct (property (Workflow.tasks workflow) taskId) as [task| |].
      - destruct (isTaskAvailable task workflow); [| congruence].
        destruct (property (Workflow.agents workflow) agentId); congruence.
      - injection Hret as <- <-. discriminate Hok.
      - congruence. }
    assert (held taskId workflow') as Hheld.
    { destruct (Workflow.tasks workflow !! taskId) as [task|] eqn:Ht.
      - destruct (isTaskAvailable task workflow) eqn:Ha.
        + destruct (claimTask_success taskId agentId now workflow task Ht Ha) as [_ Htasks].
          rewrite <- Hsame in Htasks. simpl in Htasks.
          exists in_progress. split; [| discriminate].
          unfold task_status. rewrite Htasks, lookup_insert_eq. reflexivity.
        + destruct (Hbusy task eq_refl Ha) as [_ Hcause]. rewrite <- Hsame in Hcause.
          unfold claim_Conflict in Hcause. simpl in Hcause.
          destruct Hcause as [[_ Hc] | [(_ & holder & _ & _ & Hc) | (_ & _ & _ & Hc)]];
            rewrite Hc in Hok; discriminate Hok.
      - destruct (Hmissing eq_refl) as [Hc _]. rewrite <- Hsame in Hc.
        unfold claim_NotFound in Hc. simpl in Hc. rewrite Hc in Hok. discriminate Hok. }
    pose proof (run_held taskId history (Store.mk workflow' local) Hall Hheld) as Hstill.
    destruct (claimTask_held_conflict taskId agentId' now' _ Hstill)
      as (status & Hne & Hconflict).
    exists status. split; [exact Hne |].
    destruct Hstill as (status' & Hstatus & Hleft). unfold task_status in Hstatus.
    destruct (Workflow.tasks (Store.document (run history (Store.mk workflow' local)))
                !! taskId) as [task|] eqn:Ht; [| discriminate Hstatus].
    injection Hstatus as Hstatus.
    assert (isTaskAvailable task (Store.document (run history (Store.mk workflow' local)))
            = false) as Hno.
    { unfold isTaskAvailable. rewrite bool_decide_eq_true_2 by congruence. reflexivity. }
    unfold Method.claimTask, property. rewrite Ht, Hno. f_equal.
    unfold claim_Conflict in Hconflict.
    apply injective_projections; [exact Hconflict |]. cbn [snd].
    apply claimTask_failure_unchanged. rewrite Hconflict. reflexivity.
Qed.

Lemma claimTask_outcomes_witness :
  Method.claimTask "ghost" "a1" 7 diamond
  = Returns (claim_failure "Task ghost not found", diamond)
  ∧ Method.claimTask "B" "a1" 7 diamond
    = Returns (claim_failure "Task dependencies not completed", diamond)
  ∧ ∃ status, status ≠ pending
      ∧ Method.claimTask "A1" "a2" 9
          (Store.document
             (run [(8, OpClaimTask "A2" "a2")]
                (Store.mk (claimTask "A1" "a1" 7 diamond).2 None)))
        = Returns (claim_failure (conflict_message (NonPending status)),
                   Store.document
                     (run [(8, OpClaimTask "A2" "a2")]
                        (Store.mk (claimTask "A1" "a1" 7 diamond).2 None))).
Proof.
  split; [| split].
  - apply (claimTask_outcomes "ghost" "a1" 7 diamond). reflexivity.
  - destruct (claimTask_outcomes "B" "a1" 7 diamond) as (_ & _ & H & _).
    destruct (H (sample_task "B" pending None ["A1"; "A2"] []))
      as (cause & Hret & [[Hs _] | [(_ & holder & Hh & _) | (_ & _ & _ & ->)]]);
      [reflexivity | reflexivity | | | exact Hret].
    + exfalso. apply Hs. reflexivity.
    + discriminate Hh.
  - destruct (claimTask_outcomes "A1" "a1" 7 diamond) as (_ & _ & _ & _ & H).
    apply (H (claimTask "A1" "a1" 7 diamond).1 (claimTask "A1" "a1" 7 diamond).2).
    + reflexivity.
    + reflexivity.
    + constructor; [simpl; intros [] | constructor].
Defined.

(** X26.  Claiming an available task for an agent id the document has
    no agent of: when the id is not a name every object inherits, the
    claim succeeds, the task is in progress and assigned to that id, and
    the agents of the document are what they were; when it is, the call
    throws a TypeError. *)
Theorem claimTask_absent_agent (taskId agentId : string) (now : Z)
    (workflow : Workflow.t) (task : Task.t) :
  Workflow.tasks workflow !! taskId = Some task →
  isTaskAvailable task workflow = true →
  Workflow.agents workflow !! agentId = None →
  (inherits agentId = false →
     ∃ r workflow' task',
       Method.claimTask taskId agentId now workflow = Returns (r, workflow')
       ∧ TaskClaimResult.success r = true
       ∧ TaskClaimResult.task r = Some task'
       ∧ TaskClaimResult.agent_id r = Some agentId
       ∧ Workflow.tasks workflow' !! taskId = Some task'
       ∧ task' = Task.set_updated_at now
                   (Task.set_assigned_agent (Some agentId)
                      (Task.set_status in_progress task))
       ∧ Workflow.agents workflow' = Workflow.agents workflow)
  ∧ (inherits agentId = true →
       Method.claimTask taskId agentId now workflow = Throws TypeError).
Proof.
  intros Ht Ha Hagent. split.
  - intros Hregular.
    destruct (claimTask_without_agent taskId agentId now workflow task Ht Ha Hagent)
      as (_ & _ & Hagents).
    destruct (claimTask_success taskId agentId now workflow task Ht Ha) as [Hr Htasks].
    exists (claimTask taskId agentId now workflow).1,
           (claimTask taskId agentId now workflow).2.
    eexists. rewrite <- surjective_pairing. split.
    { unfold Method.claimTask, property. rewrite Ht, Ha, Hagent, Hregular. reflexivity. }
    rewrite Hr, Htasks. cbn [TaskClaimResult.success TaskClaimResult.task
                             TaskClaimResult.agent_id].
    split; [reflexivity |]. split; [reflexivity |]. split; [reflexivity |].
    split; [apply lookup_insert_eq |]. split; [reflexivity | exact Hagents].
  - intros Hinherited.
    unfold Method.claimTask, property. rewrite Ht, Ha, Hagent, Hinherited. reflexivity.
Qed.

Lemma claimTask_absent_agent_witness :
  (∃ r workflow' task',
     Method.claimTask "A1" "stranger" 7 diamond = Returns (r, workflow')
     ∧ TaskClaimResult.success r = true
     ∧ TaskClaimResult.task r = Some task'
     ∧ TaskClaimResult.agent_id r = Some "stranger"
     ∧ Workflow.tasks workflow' !! "A1" = Some task'
     ∧ task' = Task.set_updated_at 7
                 (Task.set_assigned_agent (Some "stranger")
                    (Task.set_status in_progress (sample_task "A1" pending None [] ["B"])))
     ∧ Workflow.agents workflow' = Workflow.agents diamond)
  ∧ Method.claimTask "A1" "toString" 7 diamond = Throws TypeError.
Proof.
  split.
  - apply (claimTask_absent_agent "A1" "stranger" 7 diamond
             (sample_task "A1" pending None [] ["B"])); reflexivity.
  - apply (claimTask_absent_agent "A1" "toString" 7 diamond
             (sample_task "A1" pending None [] ["B"])); reflexivity.
Defined.

(** ** Leases *)

Lemma normalizePath_idemp (filePath : string) :
  normalizePath (normalizePath filePath) = normalizePath filePath.
Proof.
  induction filePath as [|c r IH]; [reflexivity |].
  simpl. rewrite IH. destruct (Ascii.eqb c "\"%char) eqn:E; [reflexivity |].
  rewrite E. reflexivity.
Qed.

(** X8.  [normalizePath] yields a path of the same length without a
    backslash, and yields it again from its own result; so a path and its
    normal form name the same lease in every call of the LockManager. *)
Theorem normalizePath_canonical (filePath : string) :
  normalizePath (normalizePath filePath) = normalizePath filePath
  ∧ String.length (normalizePath filePath) = String.length filePath
  ∧ (∀ n, String.get n (normalizePath filePath) ≠ Some "\"%char)
  ∧ (∀ agentId options now workflow,
       acquireLock (normalizePath filePath) agentId options now workflow
       = acquireLock filePath agentId options now workflow)
  ∧ (∀ agentId modification now workflow,
       releaseLock (normalizePath filePath) agentId modification now workflow
       = releaseLock filePath agentId modification now workflow)
  ∧ (∀ now workflow,
       getLockStatus (normalizePath filePath) now workflow
       = getLockStatus filePath now workflow).
Proof.
  split; [apply normalizePath_idemp |]. split; [| split].
  - induction filePath as [|c r IH]; [reflexivity |]. simpl. rewrite IH. reflexivity.
  - induction filePath as [|c r IH]; intros n; simpl; [discriminate |].
    destruct n as [|n]; [| apply IH].
    destruct (Ascii.eqb c "\"%char) eqn:E; [discriminate |].
    intros [= ->]. discriminate E.
  - split; [| split]; intros;
      unfold acquireLock, releaseLock, getLockStatus;
      rewrite normalizePath_idemp; reflexivity.
Qed.

(** Where the lookup of the lease finds no inherited value and the end
    of the lease asked for is a date, the call returns, and returns what
    [acquireLock] computes on own properties. *)
Lemma acquireLock_returns (filePath agentId : string) (options : AcquireOptions.t)
    (now : Z) (workflow : Workflow.t) :
  property (Workflow.locks workflow) (normalizePath filePath) ≠ Inherited →
  valid_date
    (now + or_default truthy_Z (AcquireOptions.timeout options)
             (WorkflowConfig.lock_timeout (Workflow.config workflow))) = true →
  Method.acquireLock filePath agentId options now workflow
  = Returns (acquireLock filePath agentId options now workflow).
Proof.
  intros Hregular Hvalid. unfold Method.acquireLock. rewrite Hvalid, andb_false_r.
  destruct (property _ _); [reflexivity | contradiction | reflexivity].
Qed.

(** What [acquireLock] computes on own properties: a success, and then
    the path's lease in the saved document is the one returned, owned by
    the requester and ending [timeout] from now, every other path
    keeping its lease; or a failure, and then the path is under another
    agent's unexpired, conflicting lease, the answer names that agent,
    and nothing is written. *)
Lemma acquireLock_cases (filePath agentId : string) (options : AcquireOptions.t)
    (now : Z) (workflow : Workflow.t) :
  let r := (acquireLock filePath agentId options now workflow).1 in
  let workflow' := (acquireLock filePath agentId options now workflow).2 in
  (LockAcquireResult.success r = true
   ∧ LockAcquireResult.waitInfo r = None
   ∧ (∃ lock, LockAcquireResult.lock r = Some lock
              ∧ Workflow.locks workflow' !! normalizePath filePath = Some lock
              ∧ FileLock.locked_by lock = agentId
              ∧ FileLock.expires_at lock
                = now + or_default truthy_Z (AcquireOptions.timeout options)
                          (WorkflowConfig.lock_timeout (Workflow.config workflow)))
   ∧ (∀ other, other ≠ normalizePath filePath →
               Workflow.locks workflow' !! other = Workflow.locks workflow !! other))
  ∨ (LockAcquireResult.success r = false
     ∧ LockAcquireResult.lock r = None
     ∧ workflow' = workflow
     ∧ ∃ existingLock info,
         Workflow.locks workflow !! normalizePath filePath = Some existingLock
         ∧ now < FileLock.expires_at existingLock
         ∧ FileLock.locked_by existingLock ≠ agentId
         ∧ conflicting (default ["*"] (AcquireOptions.methods options))
             (FileLock.methods existingLock)
         ∧ LockAcquireResult.waitInfo r = Some info
         ∧ WaitInfo.locked_by info = FileLock.locked_by existingLock).
Proof.
  simpl. unfold acquireLock, createLock.
  destruct (Workflow.locks workflow !! normalizePath filePath) as [existingLock|] eqn:Hlock.
  - destruct (isLockExpired existingLock now) eqn:Hflag.
    + left. simpl. split; [reflexivity |]. split; [reflexivity |]. split.
      * eexists. split; [reflexivity |]. split; [apply lookup_insert_eq |].
        split; reflexivity.
      * intros other Hother.
        rewrite lookup_insert_ne, lookup_delete_ne by congruence. reflexivity.
    + apply isLockExpired_false in Hflag.
      destruct (decide (FileLock.locked_by existingLock = agentId)) as [Hsame|Hother].
      * rewrite bool_decide_eq_true_2 by exact Hsame. left. simpl.
        split; [reflexivity |]. split; [reflexivity |]. split.
        -- eexists. split; [reflexivity |]. split; [apply lookup_insert_eq |].
           split; [exact Hsame | reflexivity].
        -- intros other Hne. rewrite lookup_insert_ne by congruence. reflexivity.
      * rewrite bool_decide_eq_false_2 by exact Hother.
        destruct (methodsConflict _ _) eqn:Ec; simpl.
        -- apply methodsConflict_true in Ec.
           right. split; [reflexivity |]. split; [reflexivity |]. split; [reflexivity |].
           eexists. eexists. split; [reflexivity |]. split; [exact Hflag |].
           split; [exact Hother |]. split; [exact Ec |]. split; reflexivity.
        -- left. split; [reflexivity |]. split; [reflexivity |]. split.
           ++ eexists. split; [reflexivity |].
              split; [apply lookup_insert_eq |]. split; reflexivity.
           ++ intros other Hne. rewrite lookup_insert_ne by congruence. reflexivity.
  - left. simpl. split; [reflexivity |]. split; [reflexivity |]. split.
    + eexists. split; [reflexivity |]. split; [apply lookup_insert_eq |].
      split; reflexivity.
    + intros other Hne. rewrite lookup_insert_ne by congruence. reflexivity.
Qed.

(** X9.  An expired lease, on a path that is not a name every object
    inherits, is as good as none: [acquireLock] does what it would if
    the lease were not there, which, when the end of the lease asked for
    is a date that can be represented, is to save a fresh lease for
    whoever asks; [getLockStatus] reports the path unlocked, flags the
    expiry and purges the lease, so that a second look finds nothing, and
    nothing to flag. *)
Theorem expired_lease_is_absent (filePath : string) (now : Z) (workflow : Workflow.t)
    (existingLock : FileLock.t) :
  Workflow.locks workflow !! normalizePath filePath = Some existingLock →
  FileLock.expires_at existingLock ≤ now →
  inherits (normalizePath filePath) = false →
  let purged :=
    Workflow.set_locks (delete (normalizePath filePath) (Workflow.locks workflow)) workflow in
  (∀ agentId options,
     Method.acquireLock filePath agentId options now workflow
     = Method.acquireLock filePath agentId options now purged
     ∧ (valid_date
          (now + or_default truthy_Z (AcquireOptions.timeout options)
                   (WorkflowConfig.lock_timeout (Workflow.config workflow))) = true →
        ∃ r workflow',
          Method.acquireLock filePath agentId options now workflow = Returns (r, workflow')
          ∧ LockAcquireResult.success r = true
          ∧ FileLock.locked_by <$> Workflow.locks workflow' !! normalizePath filePath
            = Some agentId))
  ∧ getLockStatus filePath now workflow
    = (LockStatus.mk false None (Some true), save now purged)
  ∧ (∀ now', getLockStatus filePath now' (save now purged)
             = (LockStatus.mk false None None, save now purged)).
Proof.
  intros Hlock Hexpired Hregular. cbv zeta.
  assert (isLockExpired existingLock now = true) as Hflag
    by (unfold isLockExpired; apply Z.leb_le, Hexpired).
  split; [| split].
  - intros agentId options.
    assert (acquireLock filePath agentId options now workflow
            = acquireLock filePath agentId options now
                (Workflow.set_locks
                   (delete (normalizePath filePath) (Workflow.locks workflow)) workflow))
      as Hsame.
    { unfold acquireLock. simpl. rewrite Hlock, Hflag, lookup_delete_eq. reflexivity. }
    split.
    + unfold Method.acquireLock, property. simpl.
      rewrite Hlock, lookup_delete_eq, Hregular, <- Hsame. reflexivity.
    + intros Hvalid.
      exists (acquireLock filePath agentId options now workflow).1,
             (acquireLock filePath agentId options now workflow).2.
      split.
      * rewrite <- surjective_pairing. apply acquireLock_returns; [| exact Hvalid].
        unfold property. rewrite Hlock. discriminate.
      * unfold acquireLock. rewrite Hlock, Hflag. unfold createLock. simpl.
        rewrite lookup_insert_eq. auto.
  - unfold getLockStatus. rewrite Hlock, Hflag. reflexivity.
  - intros now'. unfold getLockStatus. simpl. rewrite lookup_delete_eq. reflexivity.
Qed.

Lemma expired_lease_is_absent_witness :
  ∃ r workflow',
    Method.acquireLock "f.ts" "a2" (AcquireOptions.mk (Some ["foo"]) "edit" None None)
      100000 leased = Returns (r, workflow')
    ∧ LockAcquireResult.success r = true
    ∧ FileLock.locked_by <$> Workflow.locks workflow' !! "f.ts" = Some "a2".
Proof.
  edestruct (expired_lease_is_absent "f.ts" 100000 leased) as [H _];
    [vm_compute; reflexivity | simpl; lia | reflexivity |].
  apply (H "a2" (AcquireOptions.mk (Some ["foo"]) "edit" None None)).
  reflexivity.
Defined.

(** X10.  On a path without a lease that is not a name every object
    inherits, acquiring, for a duration that ends at a date that can be
    represented, and then releasing without a recorded modification
    gives the document back, but for the time of the last save. *)
Theorem acquireLock_releaseLock (filePath agentId : string) (options : AcquireOptions.t)
    (now now' : Z) (workflow : Workflow.t) :
  property (Workflow.locks workflow) (normalizePath filePath) = Undefined →
  valid_date
    (now + or_default truthy_Z (AcquireOptions.timeout options)
             (WorkflowConfig.lock_timeout (Workflow.config workflow))) = true →
  ∃ r workflow1,
    Method.acquireLock filePath agentId options now workflow = Returns (r, workflow1)
    ∧ LockAcquireResult.success r = true
    ∧ releaseLock filePath agentId None now' workflow1
      = (LockReleaseResult.mk true "Lock released successfully", save now' workflow).
Proof.
  intros Hfree Hvalid.
  exists (acquireLock filePath agentId options now workflow).1,
         (acquireLock filePath agentId options now workflow).2.
  split.
  { rewrite <- surjective_pairing.
    apply acquireLock_returns; [rewrite Hfree; discriminate | exact Hvalid]. }
  assert (Workflow.locks workflow !! normalizePath filePath = None) as Hnone.
  { unfold property in Hfree.
    destruct (Workflow.locks workflow !! normalizePath filePath); [discriminate | reflexivity]. }
  unfold acquireLock, releaseLock, createLock. rewrite Hnone. simpl.
  rewrite lookup_insert_eq. simpl.
  rewrite bool_decide_eq_false_2 by (intros Hn; apply Hn; reflexivity).
  split; [reflexivity |]. f_equal.
  rewrite delete_insert_eq, delete_id by exact Hnone.
  destruct workflow; reflexivity.
Qed.

Lemma acquireLock_releaseLock_witness :
  ∃ r workflow1,
    Method.acquireLock "g.ts" "a2" (AcquireOptions.mk None "edit" None None) 10 leased
    = Returns (r, workflow1)
    ∧ LockAcquireResult.success r = true
    ∧ releaseLock "g.ts" "a2" None 20 workflow1
      = (LockReleaseResult.mk true "Lock released successfully", save 20 leased).
Proof.
  apply (acquireLock_releaseLock "g.ts" "a2" (AcquireOptions.mk None "edit" None None)
           10 20 leased).
  - reflexivity.
  - reflexivity.
Defined.

(** X11.  [acquireLock] returns or throws.  When it returns, either it
    succeeded, and then the path's lease in the saved document is the
    one returned, owned by the requester and ending the asked duration
    from now, every other path keeping its lease; or it failed, and then
    the path is under another agent's unexpired and conflicting lease,
    the answer names that agent, and nothing is written.  It throws a
    TypeError exactly on a path without a lease that is a name every
    object inherits, and a RangeError only when the end of the lease
    asked for is no date; on any other call it returns. *)
Theorem acquireLock_outcome (filePath agentId : string) (options : AcquireOptions.t)
    (now : Z) (workflow : Workflow.t) :
  let timeout :=
    or_default truthy_Z (AcquireOptions.timeout options)
      (WorkflowConfig.lock_timeout (Workflow.config workflow)) in
  let outcome := Method.acquireLock filePath agentId options now workflow in
  (∀ r workflow', outcome = Returns (r, workflow') →
     (LockAcquireResult.success r = true
      ∧ LockAcquireResult.waitInfo r = None
      ∧ (∃ lock, LockAcquireResult.lock r = Some lock
                 ∧ Workflow.locks workflow' !! normalizePath filePath = Some lock
                 ∧ FileLock.locked_by lock = agentId
                 ∧ FileLock.expires_at lock = now + timeout)
      ∧ (∀ other, other ≠ normalizePath filePath →
                  Workflow.locks workflow' !! other = Workflow.locks workflow !! other))
     ∨ (LockAcquireResult.success r = false
        ∧ LockAcquireResult.lock r = None
        ∧ workflow' = workflow
        ∧ ∃ existingLock info,
            Workflow.locks workflow !! normalizePath filePath = Some existingLock
            ∧ now < FileLock.expires_at existingLock
            ∧ FileLock.locked_by existingLock ≠ agentId
            ∧ conflicting (default ["*"] (AcquireOptions.methods options))
                (FileLock.methods existingLock)
            ∧ LockAcquireResult.waitInfo r = Some info
            ∧ WaitInfo.locked_by info = FileLock.locked_by existingLock))
  ∧ (outcome = Throws TypeError
     ↔ Workflow.locks workflow !! normalizePath filePath = None
       ∧ inherits (normalizePath filePath) = true)
  ∧ (outcome = Throws RangeError → valid_date (now + timeout) = false)
  ∧ (property (Workflow.locks workflow) (normalizePath filePath) ≠ Inherited →
     valid_date (now + timeout) = true →
     outcome = Returns (acquireLock filePath agentId options now workflow)).
Proof.
  cbv zeta. split; [| split; [| split]].
  - intros r workflow' Hret.
    assert ((r, workflow') = acquireLock filePath agentId options now workflow) as Hsame.
    { unfold Method.acquireLock in Hret.
      destruct (property _ _); [| discriminate Hret |];
        destruct (_ && _); congruence. }
    pose proof (acquireLock_cases filePath agentId options now workflow) as Hcases.
    rewrite <- Hsame in Hcases. exact Hcases.
  - unfold Method.acquireLock, property.
    destruct (Workflow.locks workflow !! normalizePath filePath) as [lock|].
    + split; [| intros [Hnone _]; discriminate Hnone].
      destruct (_ && _); discriminate.
    + destruct (inherits (normalizePath filePath)); [tauto |].
      split; [| intros [_ Hno]; discriminate Hno].
      destruct (_ && _); discriminate.
  - unfold Method.acquireLock.
    destruct (valid_date _); [| reflexivity].
    rewrite andb_false_r. destruct (property _ _); discriminate.
  - apply acquireLock_returns.
Qed.

Lemma acquireLock_outcome_witness :
  Method.acquireLock "g.ts" "a2" (AcquireOptions.mk None "edit" None None) 10 leased
  = Returns (acquireLock "g.ts" "a2" (AcquireOptions.mk None "edit" None None) 10 leased)
  ∧ Method.acquireLock "constructor" "a2" (AcquireOptions.mk None "edit" None None) 10 leased
    = Throws TypeError
  ∧ valid_date (10 + 8640000000000000) = false.
Proof.
  split; [| split].
  - apply (acquireLock_outcome "g.ts" "a2" (AcquireOptions.mk None "edit" None None)
             10 leased).
    + vm_compute. discriminate.
    + reflexivity.
  - apply (acquireLock_outcome "constructor" "a2"
             (AcquireOptions.mk None "edit" None None) 10 leased).
    split; reflexivity.
  - apply (acquireLock_outcome "g.ts" "a2"
             (AcquireOptions.mk None "edit" (Some 8640000000000000) None) 10 leased).
    reflexivity.
Defined.

(** X12.  A lease taken without naming methods is a lease on the whole
    file: until it expires, every request of another agent for that
    path, whatever methods it names, fails and writes nothing. *)
Theorem whole_file_lease_excludes (filePath agentId : string) (options : AcquireOptions.t)
    (now : Z) (workflow : Workflow.t) :
  AcquireOptions.methods options = None →
  LockAcquireResult.success (acquireLock filePath agentId options now workflow).1 = true →
  let workflow' := (acquireLock filePath agentId options now workflow).2 in
  ∃ lock, Workflow.locks workflow' !! normalizePath filePath = Some lock
    ∧ "*" ∈ FileLock.methods lock
    ∧ ∀ agentId' options' now',
        agentId' ≠ agentId →
        now' < FileLock.expires_at lock →
        LockAcquireResult.success (acquireLock filePath agentId' options' now' workflow').1
        = false
        ∧ (acquireLock filePath agentId' options' now' workflow').2 = workflow'.
Proof.
  intros Hwhole Hok. simpl.
  assert (∃ lock,
            Workflow.locks (acquireLock filePath agentId options now workflow).2
              !! normalizePath filePath = Some lock
            ∧ "*" ∈ FileLock.methods lock ∧ FileLock.locked_by lock = agentId)
    as (lock & Hlock & Hstar & Howner).
  { revert Hok. unfold acquireLock, createLock. rewrite Hwhole. simpl.
    destruct (Workflow.locks workflow !! normalizePath filePath) as [existingLock|].
    - destruct (isLockExpired existingLock now).
      + intros _. simpl. rewrite lookup_insert_eq. eexists. split; [reflexivity |].
        simpl. split; [apply list_elem_of_here | reflexivity].
      + destruct (decide (FileLock.locked_by existingLock = agentId)) as [Hsame|Hother].
        * rewrite bool_decide_eq_true_2 by exact Hsame. intros _. simpl.
          rewrite lookup_insert_eq. eexists. split; [reflexivity |]. simpl.
          split; [| exact Hsame]. apply set_spread_elem.
          split; [| intros Hnil; inversion Hnil].
          apply elem_of_app. right. apply list_elem_of_here.
        * rewrite bool_decide_eq_false_2 by exact Hother.
          unfold methodsConflict. simpl.
          replace (includes "*" ["*"]) with true by reflexivity.
          rewrite orb_true_r. simpl. discriminate.
    - intros _. simpl. rewrite lookup_insert_eq. eexists. split; [reflexivity |].
      simpl. split; [apply list_elem_of_here | reflexivity]. }
  exists lock. split; [exact Hlock |]. split; [exact Hstar |].
  intros agentId' options' now' Hne Hlive.
  revert Hlock. generalize (acquireLock filePath agentId options now workflow).2.
  intros workflow' Hlock. unfold acquireLock. rewrite Hlock.
  rewrite (proj2 (isLockExpired_false lock now') Hlive).
  rewrite bool_decide_eq_false_2 by congruence.
  unfold methodsConflict. rewrite (proj2 (includes_true _ _) Hstar). simpl. auto.
Qed.

Lemma whole_file_lease_excludes_witness :
  ∃ lock,
    Workflow.locks
      (acquireLock "g.ts" "a2" (AcquireOptions.mk None "edit" (Some 1000) None) 10 leased).2
      !! "g.ts" = Some lock
    ∧ "*" ∈ FileLock.methods lock.
Proof.
  destruct (whole_file_lease_excludes "g.ts" "a2"
              (AcquireOptions.mk None "edit" (Some 1000) None) 10 leased)
    as (lock & Hlock & Hstar & _); [reflexivity | reflexivity |].
  exists lock. split; [exact Hlock | exact Hstar].
Defined.

(** ** Modification history *)

Lemma insert_newest_perm (m : FileModification.t) (sorted : list FileModification.t) :
  insert_newest m sorted ≡ₚ m :: sorted.
Proof.
  induction sorted as [|y r IH]; simpl; [reflexivity |].
  destruct (_ <=? _); [reflexivity |]. rewrite IH. apply Permutation_swap.
Qed.

Lemma sort_newest_first_perm (mods : list FileModification.t) :
  sort_newest_first mods ≡ₚ mods.
Proof.
  induction mods as [|m mods IH]; simpl; [reflexivity |].
  rewrite insert_newest_perm, IH. reflexivity.
Qed.

Lemma insert_newest_sorted (m : FileModification.t) (sorted : list FileModification.t) :
  StronglySorted
    (λ a b, FileModification.modified_at b ≤ FileModification.modified_at a) sorted →
  StronglySorted
    (λ a b, FileModification.modified_at b ≤ FileModification.modified_at a)
    (insert_newest m sorted).
Proof.
  induction 1 as [|y r Hr IH Hy]; simpl.
  - constructor; constructor.
  - destruct (_ <=? _) eqn:E.
    + apply Z.leb_le in E. constructor; [constructor; assumption |].
      constructor; [exact E |].
      eapply Forall_impl; [exact Hy |]. simpl. intros b Hb. lia.
    + apply Z.leb_gt in E. constructor; [exact IH |].
      rewrite insert_newest_perm. constructor; [lia | exact Hy].
Qed.

Lemma sort_newest_first_sorted (mods : list FileModification.t) :
  StronglySorted
    (λ a b, FileModification.modified_at b ≤ FileModification.modified_at a)
    (sort_newest_first mods).
Proof.
  induction mods as [|m mods IH]; simpl; [constructor |].
  apply insert_newest_sorted, IH.
Qed.

(** Modifications of one time come out in the order they went in. *)
Lemma insert_newest_stable (time : Z) (m : FileModification.t)
    (sorted : list FileModification.t) :
  StronglySorted
    (λ a b, FileModification.modified_at b ≤ FileModification.modified_at a) sorted →
  filter (λ x, FileModification.modified_at x = time) (insert_newest m sorted)
  = filter (λ x, FileModification.modified_at x = time) (m :: sorted).
Proof.
  induction 1 as [|y r Hr IH Hy]; simpl; [reflexivity |].
  destruct (_ <=? _) eqn:E; [reflexivity |]. apply Z.leb_gt in E.
  rewrite !filter_cons. rewrite IH, filter_cons.
  destruct (decide (FileModification.modified_at y = time)) as [Hyt|Hyt];
    destruct (decide (FileModification.modified_at m = time)) as [Hmt|Hmt];
    try reflexivity.
  lia.
Qed.

Lemma sort_newest_first_stable (time : Z) (mods : list FileModification.t) :
  filter (λ x, FileModification.modified_at x = time) (sort_newest_first mods)
  = filter (λ x, FileModification.modified_at x = time) mods.
Proof.
  induction mods as [|m mods IH]; simpl; [reflexivity |].
  rewrite insert_newest_stable by apply sort_newest_first_sorted.
  rewrite !filter_cons, IH. reflexivity.
Qed.

(** X13.  The history of a path, asked without a limit, is a
    rearrangement of the modifications recorded for its normal form (of
    all modifications, for the empty path): newest first, modifications
    of equal time in the order they were recorded.  A limit of 0 is no
    limit; a positive limit keeps that many from the front; a negative
    one drops that many from the end. *)
Theorem getModificationHistory_sorted (filePath : string) (workflow : Workflow.t) :
  let relevant :=
    if decide (filePath = "") then Workflow.modifications workflow
    else filter (λ m, FileModification.file m = normalizePath filePath)
           (Workflow.modifications workflow) in
  let full := getModificationHistory filePath None workflow in
  full ≡ₚ relevant
  ∧ StronglySorted
      (λ a b, FileModification.modified_at b ≤ FileModification.modified_at a) full
  ∧ (∀ time, filter (λ m, FileModification.modified_at m = time) full
             = filter (λ m, FileModification.modified_at m = time) relevant)
  ∧ getModificationHistory filePath (Some 0) workflow = full
  ∧ (∀ n, 0 < n →
       getModificationHistory filePath (Some n) workflow = take (Z.to_nat n) full)
  ∧ (∀ n, n < 0 →
       getModificationHistory filePath (Some n) workflow
       = take (length full - Z.to_nat (- n)) full).
Proof.
  simpl. unfold getModificationHistory.
  assert ((if truthy_string filePath
           then filter (λ m, FileModification.file m = normalizePath filePath)
                  (Workflow.modifications workflow)
           else Workflow.modifications workflow)
          = (if decide (filePath = "") then Workflow.modifications workflow
             else filter (λ m, FileModification.file m = normalizePath filePath)
                    (Workflow.modifications workflow))) as ->.
  { destruct filePath as [|c r]; simpl; [reflexivity |].
    destruct (decide (String c r = "")) as [Heq|_]; [discriminate Heq | reflexivity]. }
  split; [apply sort_newest_first_perm |].
  split; [apply sort_newest_first_sorted |].
  split; [intros time; apply sort_newest_first_stable |].
  split; [reflexivity |]. split.
  - intros n Hn. unfold truthy_Z, slice0.
    rewrite (proj2 (Z.eqb_neq n 0)) by lia. simpl.
    rewrite (proj2 (Z.ltb_ge n 0)) by lia. reflexivity.
  - intros n Hn. unfold truthy_Z, slice0.
    rewrite (proj2 (Z.eqb_neq n 0)) by lia. simpl.
    rewrite (proj2 (Z.ltb_lt n 0)) by lia. f_equal. lia.
Qed.

(** ** Purging leases, agents and suggestions *)

(** A filter that removes nothing, by the count, removes nothing. *)
Lemma map_filter_same_size {A : Type} (P : string * A → Prop) `{!∀ x, Decision (P x)}
    (m : gmap string A) :
  (size (filter P m) ≤ size m)%nat
  ∧ (size m ≤ size (filter P m) → filter P m = m)%nat.
Proof.
  split; [apply map_subseteq_size, map_filter_subseteq |].
  intros Hsize. apply map_subseteq_size_eq; [apply map_filter_subseteq | exact Hsize].
Qed.

(** X14.  [cleanupExpiredLocks] leaves exactly the leases [getAllLocks]
    shows, the unexpired ones, and returns how many it removed; when
    that is none it writes nothing, and a second sweep at the same
    instant finds nothing to remove. *)
Theorem cleanupExpiredLocks_getAllLocks (now : Z) (workflow : Workflow.t) :
  let cleaned := (cleanupExpiredLocks now workflow).1 in
  let workflow' := (cleanupExpiredLocks now workflow).2 in
  Workflow.locks workflow' = getAllLocks now workflow
  ∧ (∀ path lock,
       Workflow.locks workflow' !! path = Some lock ↔
       Workflow.locks workflow !! path = Some lock ∧ now < FileLock.expires_at lock)
  ∧ 0 ≤ cleaned
  ∧ Z.of_nat (size (Workflow.locks workflow')) + cleaned
    = Z.of_nat (size (Workflow.locks workflow))
  ∧ (cleaned = 0 → workflow' = workflow)
  ∧ cleanupExpiredLocks now workflow' = (0, workflow').
Proof.
  cbv zeta. unfold getAllLocks.
  set (P := λ kv : string * FileLock.t, ¬ Is_true (isLockExpired kv.2 now)).
  destruct (map_filter_same_size P (Workflow.locks workflow)) as [Hle Hsame].
  assert (Workflow.locks (cleanupExpiredLocks now workflow).2
          = filter P (Workflow.locks workflow)) as Hlocks.
  { unfold cleanupExpiredLocks. fold P. destruct (0 <? _) eqn:E; [reflexivity |].
    simpl. symmetry. apply Hsame. apply Z.ltb_ge in E. lia. }
  split; [exact Hlocks |]. split; [| split; [| split; [| split]]].
  - intros path lock. rewrite Hlocks, map_lookup_filter_Some. unfold P. simpl.
    rewrite <- isLockExpired_false.
    destruct (isLockExpired lock now); simpl; intuition discriminate.
  - unfold cleanupExpiredLocks. fold P. simpl. lia.
  - rewrite Hlocks. unfold cleanupExpiredLocks. fold P. simpl. lia.
  - unfold cleanupExpiredLocks. fold P. simpl. intros ->. reflexivity.
  - unfold cleanupExpiredLocks at 1. fold P. rewrite Hlocks.
    rewrite map_filter_filter_l by auto. rewrite Z.sub_diag. reflexivity.
Qed.

(** X15.  [dismissRefactorSuggestion] removes one suggestion, the first
    that carries the id, and keeps the others in their order, also a
    later one of the same id; asked for an id no suggestion carries, it
    answers false and writes nothing. *)
Theorem dismissRefactorSuggestion_first (suggestionId : string) (now : Z)
    (workflow : Workflow.t) :
  let r := (dismissRefactorSuggestion suggestionId now workflow).1 in
  let workflow' := (dismissRefactorSuggestion suggestionId now workflow).2 in
  ((∀ s, s ∈ Workflow.refactor_suggestions workflow →
         RefactorSuggestion.id s ≠ suggestionId) →
   r = false ∧ workflow' = workflow)
  ∧ (∀ before s after,
       Workflow.refactor_suggestions workflow = before ++ s :: after →
       RefactorSuggestion.id s = suggestionId →
       (∀ s0, s0 ∈ before → RefactorSuggestion.id s0 ≠ suggestionId) →
       r = true
       ∧ Workflow.refactor_suggestions workflow' = before ++ after
       ∧ Workflow.modifications workflow' = Workflow.modifications workflow
       ∧ Workflow.locks workflow' = Workflow.locks workflow).
Proof.
  simpl. unfold dismissRefactorSuggestion. split.
  - intros Hnone.
    destruct (list_find _ _) as [[index s]|] eqn:E; [| auto].
    apply list_find_Some in E as (Hlook & Hid & _).
    exfalso. apply (Hnone s); [| exact Hid].
    apply list_elem_of_lookup. eauto.
  - intros before s after Hsplit Hid Hbefore.
    assert (list_find (λ s0, RefactorSuggestion.id s0 = suggestionId)
              (Workflow.refactor_suggestions workflow)
            = Some (length before, s)) as ->.
    { apply list_find_Some. rewrite Hsplit. split; [| split; [exact Hid |]].
      - rewrite lookup_app_r by reflexivity. rewrite Nat.sub_diag. reflexivity.
      - intros j y Hj Hlt. rewrite lookup_app_l in Hj by exact Hlt.
        apply Hbefore. apply list_elem_of_lookup. eauto. }
    simpl. rewrite Hsplit. split; [reflexivity |]. split; [| auto].
    rewrite delete_middle. reflexivity.
Qed.

Lemma dismissRefactorSuggestion_first_witness :
  RefactorSuggestion.file
    <$> Workflow.refactor_suggestions
          (dismissRefactorSuggestion "refactor_2bc" 9 twins).2
  = ["g.ts"].
Proof.
  destruct (dismissRefactorSuggestion_first "refactor_2bc" 9 twins) as [_ H].
  destruct (H []
              (RefactorSuggestion.mk "refactor_2bc" "f.ts" (Some "save") "r" "system" 3000
                 medium)
              [RefactorSuggestion.mk "refactor_2bc" "g.ts" None "r" "system" 3000 medium])
    as (_ & Hleft & _).
  - reflexivity.
  - reflexivity.
  - intros s0 Hs0. inversion Hs0.
  - rewrite Hleft. reflexivity.
Defined.

Lemma run_suggestions_unique_witness :
  NoDup (suggestion_key
           <$> Workflow.refactor_suggestions
                 (Store.document
                    (run [(3000, OpReleaseLock "f.ts" "a1"
                                   (Some (ReleaseModification.mk (Some "save") "1-2" "fix" "T1")));
                          (4000, OpAcquireLock "f.ts" "a1"
                                   (AcquireOptions.mk None "edit" None None));
                          (5000, OpReleaseLock "f.ts" "a1"
                                   (Some (ReleaseModification.mk (Some "save") "3-4" "fix" "T1")))]
                       (Store.mk busy None)))).
Proof.
  apply (run_suggestions_unique _ (Store.mk busy None)).
  simpl. constructor.
Defined.

(** ** Agents *)

Lemma getOrCreateCurrentAgent_known (name : option string)
    (generatedId sessionId : string) (now : Z) (store : Store.t) (key : string)
    (agent : Agent.t) :
  key ≠ "" →
  Store.agent_id_file store = Some key →
  Workflow.agents (Store.document store) !! key = Some agent →
  getOrCreateCurrentAgent name generatedId sessionId now store
  = (Agent.set_status active (Agent.set_last_active now agent),
     Store.mk
       (save now
          (Workflow.set_agents
             (<[key := Agent.set_status active (Agent.set_last_active now agent)]>
                (Workflow.agents (Store.document store)))
             (Store.document store)))
       (Some key)).
Proof.
  intros Hne Hkey Hagent. unfold getOrCreateCurrentAgent. rewrite Hkey. simpl.
  destruct key as [|c key]; [contradiction |]. simpl. rewrite Hagent. reflexivity.
Qed.

Lemma getOrCreateCurrentAgent_first (name : option string)
    (generatedId sessionId : string) (now : Z) (store : Store.t) :
  generatedId ≠ "" →
  let first := getOrCreateCurrentAgent name generatedId sessionId now store in
  ∃ key, key ≠ ""
    ∧ Store.agent_id_file first.2 = Some key
    ∧ Workflow.agents (Store.document first.2) !! key = Some first.1
    ∧ Agent.status first.1 = active
    ∧ Agent.last_active first.1 = now.
Proof.
  intros Hgen. cbv zeta.
  destruct (truthy_ostring (Store.agent_id_file store)) eqn:Hlocal.
  - pose proof Hlocal as Htruthy.
    apply truthy_ostring_true in Hlocal as (key & Hkey & Hne).
    destruct (Workflow.agents (Store.document store) !! key) as [agent|] eqn:Hagent.
    + rewrite (getOrCreateCurrentAgent_known _ _ _ _ _ key agent Hne Hkey Hagent).
      exists key. simpl. rewrite lookup_insert_eq. auto.
    + unfold getOrCreateCurrentAgent. rewrite Htruthy, Hkey. simpl. rewrite Hagent.
      exists generatedId. simpl. rewrite lookup_insert_eq. auto.
  - unfold getOrCreateCurrentAgent. rewrite Hlocal.
    exists generatedId. simpl. rewrite lookup_insert_eq. auto.
Qed.

(** X16.  After [getOrCreateCurrentAgent] the local identity names the
    agent returned, which the document holds as active and seen at the
    time of the call.  A second call mints nothing: it returns the same
    agent, seen at the later time, and no other entry of the agents
    changes. *)
Theorem getOrCreateCurrentAgent_settles (name name' : option string)
    (generatedId generatedId' sessionId sessionId' : string) (now now' : Z)
    (store : Store.t) :
  generatedId ≠ "" →
  let first := getOrCreateCurrentAgent name generatedId sessionId now store in
  let second := getOrCreateCurrentAgent name' generatedId' sessionId' now' first.2 in
  ∃ key, key ≠ ""
    ∧ Store.agent_id_file first.2 = Some key
    ∧ Workflow.agents (Store.document first.2) !! key = Some first.1
    ∧ Agent.status first.1 = active
    ∧ Agent.last_active first.1 = now
    ∧ second.1 = Agent.set_last_active now' first.1
    ∧ Store.agent_id_file second.2 = Some key
    ∧ Workflow.agents (Store.document second.2) !! key = Some second.1
    ∧ ∀ k, k ≠ key →
        Workflow.agents (Store.document second.2) !! k
        = Workflow.agents (Store.document first.2) !! k.
Proof.
  intros Hgen. cbv zeta.
  destruct (getOrCreateCurrentAgent_first name generatedId sessionId now store Hgen)
    as (key & Hne & Hfile & Hlook & Hactive & Hseen).
  destruct (getOrCreateCurrentAgent name generatedId sessionId now store)
    as [agent1 store1]. simpl in *.
  rewrite (getOrCreateCurrentAgent_known _ _ _ _ _ key agent1 Hne Hfile Hlook). simpl.
  exists key. split; [exact Hne |]. split; [exact Hfile |]. split; [exact Hlook |].
  split; [exact Hactive |]. split; [exact Hseen |].
  split; [destruct agent1; simpl in *; subst; reflexivity |].
  split; [reflexivity |]. split; [apply lookup_insert_eq |].
  intros k Hk. apply lookup_insert_ne. congruence.
Qed.

Lemma getOrCreateCurrentAgent_settles_witness :
  Agent.id
    (getOrCreateCurrentAgent None "ea_2" "s2" 20
       (getOrCreateCurrentAgent None "ea_1" "s1" 10 (Store.mk diamond None)).2).1
  = "ea_1".
Proof.
  destruct (getOrCreateCurrentAgent_settles None None "ea_1" "ea_2" "s1" "s2" 10 20
              (Store.mk diamond None))
    as (key & _ & _ & _ & _ & _ & Hsame & _); [discriminate |].
  rewrite Hsame. reflexivity.
Defined.

(** X17.  [deactivateAgent] marks the local agent inactive and forgets
    the local identity; it releases nothing: the agent keeps its claims,
    and the tasks and the leases are untouched.  With the identity gone,
    [renameAgent], [touchAgent] and a second [deactivateAgent] do
    nothing, and [getOrCreateCurrentAgent] mints a new agent, without
    claims, rather than waking the old one. *)
Theorem deactivateAgent_forgets (now : Z) (store : Store.t) (agent : Agent.t) :
  getCurrentAgent store = Some agent →
  let store1 := (deactivateAgent now store).2 in
  (deactivateAgent now store).1 = true
  ∧ Store.agent_id_file store1 = None
  ∧ (∃ key, Store.agent_id_file store = Some key
            ∧ Workflow.agents (Store.document store1) !! key
              = Some (Agent.set_status inactive agent))
  ∧ Workflow.tasks (Store.document store1) = Workflow.tasks (Store.document store)
  ∧ Workflow.locks (Store.document store1) = Workflow.locks (Store.document store)
  ∧ (∀ newName now', renameAgent newName now' store1 = (false, store1))
  ∧ (∀ now', touchAgent now' store1 = store1)
  ∧ (∀ now', deactivateAgent now' store1 = (false, store1))
  ∧ (∀ name generatedId sessionId now',
       let minted := (getOrCreateCurrentAgent name generatedId sessionId now' store1).1 in
       Agent.id minted = generatedId ∧ Agent.claimed_tasks minted = []
       ∧ Agent.created_at minted = now').
Proof.
  intros Hcurrent. cbv zeta.
  assert (∃ document, deactivateAgent now store = (true, Store.mk document None)
            ∧ Workflow.tasks document = Workflow.tasks (Store.document store)
            ∧ Workflow.locks document = Workflow.locks (Store.document store)
            ∧ ∃ key, Store.agent_id_file store = Some key
                     ∧ Workflow.agents document !! key
                       = Some (Agent.set_status inactive agent))
    as (document & -> & Htasks & Hlocks & Hkey).
  { unfold deactivateAgent. rewrite Hcurrent. eexists. split; [reflexivity |].
    split; [reflexivity |]. split; [reflexivity |].
    unfold getCurrentAgent in Hcurrent.
    destruct (truthy_ostring (Store.agent_id_file store)) eqn:E; [| discriminate].
    apply truthy_ostring_true in E as (key & Hkey & _).
    exists key. rewrite Hkey. simpl. split; [reflexivity | apply lookup_insert_eq]. }
  simpl. split; [reflexivity |]. split; [reflexivity |]. split; [exact Hkey |].
  split; [exact Htasks |]. split; [exact Hlocks |].
  split; [reflexivity |]. split; [reflexivity |]. split; [reflexivity |].
  intros name generatedId sessionId now'. split; [reflexivity |]. split; reflexivity.
Qed.

Lemma deactivateAgent_forgets_witness :
  Store.agent_id_file (deactivateAgent 10 (Store.mk handover (Some "a1"))).2 = None.
Proof.
  apply (deactivateAgent_forgets 10 (Store.mk handover (Some "a1"))
           (sample_agent "a1" ["T1"; "T2"])).
  reflexivity.
Defined.

(** X18.  A takeover that goes through leaves no lease in the target's
    name, and cannot be repeated: every later takeover of the same
    target fails with "Agent is already terminated" and writes
    nothing. *)
Theorem takeoverAgent_once (targetAgentId generatedId sessionId : string) (now : Z)
    (store : Store.t) (targetAgent : Agent.t) :
  Workflow.agents (Store.document store) !! targetAgentId = Some targetAgent →
  Agent.status targetAgent ≠ terminated →
  Agent.id (getOrCreateCurrentAgent None generatedId sessionId now store).1
  ≠ targetAgentId →
  let store1 := (takeoverAgent targetAgentId generatedId sessionId now store).2 in
  (∀ path lock, Workflow.locks (Store.document store1) !! path = Some lock →
                FileLock.locked_by lock ≠ targetAgentId)
  ∧ (∀ path, is_Some (Workflow.locks (Store.document store1) !! path)
             ↔ is_Some (Workflow.locks (Store.document store) !! path))
  ∧ (∀ generatedId' sessionId' now',
       takeoverAgent targetAgentId generatedId' sessionId' now' store1
       = (AgentTakeoverResult.mk false "Agent is already terminated" None, store1)).
Proof.
  intros Htarget Hlive Hother. cbv zeta.
  destruct (takeoverAgent_saved targetAgentId generatedId sessionId now store targetAgent
              Htarget Hlive Hother) as (_ & _ & Hagents & Hlocks & _).
  unfold takeoverAgent at 1 2 3 5.
  split; [| split].
  - intros path lock. rewrite Hlocks, lookup_fmap.
    destruct (Workflow.locks (Store.document store) !! path) as [old|]; [| discriminate].
    simpl. intros [= <-]. unfold transfer_lock.
    destruct (decide (FileLock.locked_by old = targetAgentId)) as [Heq|Hne].
    + rewrite bool_decide_eq_true_2 by exact Heq. exact Hother.
    + rewrite bool_decide_eq_false_2 by exact Hne. exact Hne.
  - intros path. rewrite Hlocks, lookup_fmap.
    destruct (Workflow.locks (Store.document store) !! path); simpl;
      split; intros [x Hx]; eauto; discriminate.
  - intros generatedId' sessionId' now'.
    unfold takeoverAgent, takeoverAgent_run at 1. rewrite Hagents, lookup_insert_eq.
    reflexivity.
Qed.

Lemma takeoverAgent_once_witness :
  takeoverAgent "a1" "ea_y" "s" 20
    (takeoverAgent "a1" "ea_x" "s" 10 (Store.mk handover (Some "a2"))).2
  = (AgentTakeoverResult.mk false "Agent is already terminated" None,
     (takeoverAgent "a1" "ea_x" "s" 10 (Store.mk handover (Some "a2"))).2).
Proof.
  apply (takeoverAgent_once "a1" "ea_x" "s" 10 (Store.mk handover (Some "a2"))
           (sample_agent "a1" ["T1"; "T2"])).
  - reflexivity.
  - discriminate.
  - discriminate.
Defined.

(** X19.  [cleanupTerminatedAgents] removes the terminated agents last
    seen before the cutoff and no other: an agent that is active or
    inactive, or was seen since, stays as it is.  It returns how many it
    removed, writes nothing when that is none, and leaves the tasks and
    the leases alone, also those in the name of an agent it removes. *)
Theorem cleanupTerminatedAgents_spares (olderThanDays : option Z) (now : Z)
    (workflow : Workflow.t) :
  let cutoff := now - default 7 olderThanDays * 86400000 in
  let cleaned := (cleanupTerminatedAgents olderThanDays now workflow).1 in
  let workflow' := (cleanupTerminatedAgents olderThanDays now workflow).2 in
  (∀ agentId agent,
     Workflow.agents workflow' !! agentId = Some agent ↔
     Workflow.agents workflow !! agentId = Some agent
     ∧ (Agent.status agent ≠ terminated ∨ cutoff ≤ Agent.last_active agent))
  ∧ 0 ≤ cleaned
  ∧ Z.of_nat (size (Workflow.agents workflow')) + cleaned
    = Z.of_nat (size (Workflow.agents workflow))
  ∧ (cleaned = 0 → workflow' = workflow)
  ∧ Workflow.tasks workflow' = Workflow.tasks workflow
  ∧ Workflow.locks workflow' = Workflow.locks workflow.
Proof.
  cbv zeta.
  set (P := λ kv : string * Agent.t,
         ¬ (Agent.status kv.2 = terminated
            ∧ Agent.last_active kv.2 < now - default 7 olderThanDays * DAY_MS)).
  destruct (map_filter_same_size P (Workflow.agents workflow)) as [Hle Hsame].
  assert (Workflow.agents (cleanupTerminatedAgents olderThanDays now workflow).2
          = filter P (Workflow.agents workflow)) as Hagents.
  { unfold cleanupTerminatedAgents. fold P. destruct (0 <? _) eqn:E; [reflexivity |].
    simpl. symmetry. apply Hsame. apply Z.ltb_ge in E. lia. }
  split; [| split; [| split; [| split; [| split]]]].
  - intros agentId agent. rewrite Hagents, map_lookup_filter_Some. unfold P. simpl.
    change DAY_MS with 86400000.
    destruct (decide (Agent.status agent = terminated)); intuition lia.
  - unfold cleanupTerminatedAgents. fold P. simpl. lia.
  - rewrite Hagents. unfold cleanupTerminatedAgents. fold P. simpl. lia.
  - unfold cleanupTerminatedAgents. fold P. simpl. intros ->. reflexivity.
  - unfold cleanupTerminatedAgents. destruct (0 <? _); reflexivity.
  - unfold cleanupTerminatedAgents. destruct (0 <? _); reflexivity.
Qed.

(** X20.  The sweep [listAgents] saves keeps every agent, with its claims
    and all else but the status; the only change of status it makes is
    from active to inactive, for an agent silent for longer than the
    inactivity window.  An agent seen at the time of the sweep stays
    active when the window is not negative. *)
Theorem listAgents_save_demotes (now : Z) (workflow : Workflow.t) :
  let window := WorkflowConfig.inactive_timeout (Workflow.config workflow) in
  let workflow' := listAgents_save now workflow in
  (∀ agentId, Workflow.agents workflow !! agentId = None →
              Workflow.agents workflow' !! agentId = None)
  ∧ (∀ agentId agent,
       Workflow.agents workflow !! agentId = Some agent →
       ∃ agent', Workflow.agents workflow' !! agentId = Some agent'
         ∧ Agent.set_status (Agent.status agent) agent' = agent
         ∧ (Agent.status agent' = Agent.status agent
            ∨ Agent.status agent = active ∧ Agent.status agent' = inactive)
         ∧ (Agent.status agent' ≠ Agent.status agent ↔
            Agent.status agent = active ∧ window < now - Agent.last_active agent))
  ∧ Workflow.tasks workflow' = Workflow.tasks workflow
  ∧ Workflow.locks workflow' = Workflow.locks workflow.
Proof.
  cbv zeta. unfold listAgents_save. simpl. split; [| split; [| auto]].
  - intros agentId Hnone. rewrite lookup_fmap, Hnone. reflexivity.
  - intros agentId agent Hagent. rewrite lookup_fmap, Hagent. simpl.
    eexists. split; [reflexivity |]. unfold reclassify.
    destruct (decide (Agent.status agent = active)) as [Ha|Ha].
    + rewrite bool_decide_eq_true_2 by exact Ha. simpl.
      destruct (_ <? _) eqn:E.
      * apply Z.ltb_lt in E. simpl. split; [destruct agent; reflexivity |].
        split; [right; auto |]. rewrite Ha. split; [auto | discriminate].
      * apply Z.ltb_ge in E. split; [destruct agent; reflexivity |].
        split; [left; reflexivity |]. split; [congruence | lia].
    + rewrite bool_decide_eq_false_2 by exact Ha. simpl.
      split; [destruct agent; reflexivity |]. split; [left; reflexivity |].
      split; [congruence | tauto].
Qed.

(** ** [simpleHash] and [formatTimeAgo] *)

Lemma wrap32_range (z : Z) : - 2 ^ 31 ≤ wrap32 z < 2 ^ 31.
Proof.
  unfold wrap32. pose proof (Z.mod_pos_bound (z + 2 ^ 31) (2 ^ 32) eq_refl). lia.
Qed.

Lemma wrap32_shift (z q : Z) : wrap32 (z + q * 2 ^ 32) = wrap32 z.
Proof.
  unfold wrap32. replace (z + q * 2 ^ 32 + 2 ^ 31) with (z + 2 ^ 31 + q * 2 ^ 32) by lia.
  rewrite Z_mod_plus_full. reflexivity.
Qed.

Lemma wrap32_unwrap (z : Z) : ∃ q, wrap32 z = z + q * 2 ^ 32.
Proof.
  exists (- ((z + 2 ^ 31) / 2 ^ 32)). unfold wrap32. rewrite Z.mod_eq by discriminate. lia.
Qed.

Lemma hash_step_wrap (a char : Z) :
  hash_step (wrap32 a) char = wrap32 (31 * a + char).
Proof.
  unfold hash_step.
  destruct (wrap32_unwrap a) as [q Hq].
  destruct (wrap32_unwrap (wrap32 a * 2 ^ 5)) as [p Hp].
  rewrite Hp, Hq.
  replace ((a + q * 2 ^ 32) * 2 ^ 5 + p * 2 ^ 32 - (a + q * 2 ^ 32) + char)
    with (31 * a + char + (31 * q + p) * 2 ^ 32) by lia.
  apply wrap32_shift.
Qed.

Lemma foldl_hash_step_wrap (str : list Z) (a : Z) :
  foldl hash_step (wrap32 a) str = wrap32 (foldl (λ h c, 31 * h + c) a str).
Proof.
  revert a. induction str as [|c str IH]; intros a; [reflexivity |].
  simpl. rewrite hash_step_wrap. apply IH.
Qed.

Lemma substring_length_le (n m : nat) (s : string) :
  (String.length (String.substring n m s) ≤ m)%nat.
Proof.
  revert n m. induction s as [|c s IH]; intros n m.
  - destruct n, m; simpl; lia.
  - destruct n as [|n]; simpl.
    + destruct m as [|m]; simpl; [lia |]. specialize (IH O m). lia.
    + apply IH.
Qed.

(** X21.  The number [simpleHash] accumulates is the 31-polynomial hash
    of the code units (the one of Java's [String.hashCode]) wrapped to a
    signed 32-bit integer; the text it returns has at most 8
    characters. *)
Theorem simpleHash_polynomial (str : list Z) :
  simpleHash_loop str = wrap32 (polynomial31 str)
  ∧ - 2 ^ 31 ≤ simpleHash_loop str < 2 ^ 31
  ∧ (polynomial31 str - simpleHash_loop str) mod 2 ^ 32 = 0
  ∧ (String.length (simpleHash str) ≤ 8)%nat.
Proof.
  assert (simpleHash_loop str = wrap32 (polynomial31 str)) as Heq.
  { unfold simpleHash_loop, polynomial31.
    change 0 with (wrap32 0) at 1. apply foldl_hash_step_wrap. }
  split; [exact Heq |]. split; [rewrite Heq; apply wrap32_range |]. split.
  - rewrite Heq. destruct (wrap32_unwrap (polynomial31 str)) as [q ->].
    replace (polynomial31 str - (polynomial31 str + q * 2 ^ 32)) with ((- q) * 2 ^ 32) by lia.
    apply Z_mod_mult.
  - apply substring_length_le.
Qed.

Lemma positive_quotient (d unit : Z) :
  0 < unit → (0 <? d / unit) = (unit <=? d).
Proof.
  intros Hunit. destruct (unit <=? d) eqn:E.
  - apply Z.leb_le in E. apply Z.ltb_lt. apply Z.div_str_pos. lia.
  - apply Z.leb_gt in E. apply Z.ltb_ge.
    assert (d / unit < 1) by (apply Z.div_lt_upper_bound; lia). lia.
Qed.

(** X22.  [formatTimeAgo] shows the age in the largest of days, hours,
    minutes and seconds that the age fills once, rounded down in that
    unit; an age under a minute, also a negative one (a time yet to
    come), shows in seconds. *)
Theorem formatTimeAgo_units (then_ now : Z) :
  let age := now - then_ in
  formatTimeAgo then_ now
  = if 86400000 <=? age then pretty (age / 86400000) +:+ "d ago"
    else if 3600000 <=? age then pretty (age / 3600000) +:+ "h ago"
    else if 60000 <=? age then pretty (age / 60000) +:+ "m ago"
    else pretty (age / 1000) +:+ "s ago".
Proof.
  cbv zeta. unfold formatTimeAgo.
  rewrite !Z.div_div by lia.
  rewrite !positive_quotient by lia.
  reflexivity.
Qed.

Lemma checkRefactorSuggestion_locks (workflow : Workflow.t) (filePath : string)
    (method : option string) (now : Z) :
  Workflow.locks (checkRefactorSuggestion workflow filePath method now)
  = Workflow.locks workflow.
Proof.
  destruct (checkRefactorSuggestion_cases workflow filePath method now) as (_ & H & _).
  exact H.
Qed.

(** X23.  [releaseLock] removes no lease but the caller's own on the
    path it names: a lease that is another agent's, on that path or on
    any other, expired or not, is in the saved document as it was; and a
    call that fails writes nothing, recording no modification. *)
Theorem releaseLock_spares_others (filePath agentId : string)
    (modification : option ReleaseModification.t) (now : Z) (workflow : Workflow.t) :
  let r := (releaseLock filePath agentId modification now workflow).1 in
  let workflow' := (releaseLock filePath agentId modification now workflow).2 in
  (∀ path lock,
     Workflow.locks workflow !! path = Some lock →
     FileLock.locked_by lock ≠ agentId ∨ path ≠ normalizePath filePath →
     Workflow.locks workflow' !! path = Some lock)
  ∧ (∀ path, Workflow.locks workflow !! path = None →
             Workflow.locks workflow' !! path = None)
  ∧ (LockReleaseResult.success r = false → workflow' = workflow)
  ∧ (LockReleaseResult.success r = true →
     Workflow.locks workflow' !! normalizePath filePath = None).
Proof.
  cbv zeta. unfold releaseLock.
  destruct (Workflow.locks workflow !! normalizePath filePath) as [held_|] eqn:Hheld;
    [| simpl; split; [auto | split; [auto | split; [auto | discriminate]]]].
  destruct (decide (FileLock.locked_by held_ = agentId)) as [Hmine|Hother].
  - rewrite bool_decide_eq_false_2 by (intros Hn; apply Hn; exact Hmine). simpl.
    assert (Workflow.locks
              match modification with
              | Some modification0 =>
                  checkRefactorSuggestion
                    (Workflow.set_modifications
                       (Workflow.modifications workflow
                        ++ [FileModification.mk (normalizePath filePath)
                              (ReleaseModification.method modification0) agentId now
                              (ReleaseModification.lines_changed modification0)
                              (ReleaseModification.reason modification0)
                              (ReleaseModification.task_id modification0)])
                       workflow)
                    (normalizePath filePath) (ReleaseModification.method modification0) now
              | None => workflow
              end
            = Workflow.locks workflow) as ->.
    { destruct modification; [rewrite checkRefactorSuggestion_locks |]; reflexivity. }
    split; [| split; [| split; [discriminate |]]].
    + intros path lock Hlock Hcase.
      assert (normalizePath filePath ≠ path) as Hne.
      { intros <-. destruct Hcase as [Hc|Hc]; [| congruence].
        apply Hc. congruence. }
      rewrite lookup_delete_ne by exact Hne. exact Hlock.
    + intros path Hnone. destruct (decide (normalizePath filePath = path)) as [<-|Hne].
      * apply lookup_delete_eq.
      * rewrite lookup_delete_ne by exact Hne. exact Hnone.
    + intros _. apply lookup_delete_eq.
  - rewrite bool_decide_eq_true_2 by exact Hother. simpl.
    split; [auto |]. split; [auto |]. split; [auto | discriminate].
Qed.

(** ** The further facts at work *)

Lemma getModificationHistory_sorted_witness :
  FileModification.modified_at <$> getModificationHistory "" (Some 2) history3
  = [5000; 3000].
Proof.
  destruct (getModificationHistory_sorted "" history3) as (_ & _ & _ & _ & Hfront & _).
  rewrite Hfront by lia. reflexivity.
Defined.

Lemma cleanupExpiredLocks_getAllLocks_witness :
  (cleanupExpiredLocks 10 leased).2 = leased.
Proof.
  destruct (cleanupExpiredLocks_getAllLocks 10 leased) as (_ & _ & _ & _ & Hnone & _).
  apply Hnone. reflexivity.
Defined.

Lemma cleanupTerminatedAgents_spares_witness :
  Workflow.agents (cleanupTerminatedAgents None 900000000 roster).2 !! "a3"
  = Some (Agent.mk "a3" "three" [] (Some "s") active 1000 0).
Proof.
  destruct (cleanupTerminatedAgents_spares None 900000000 roster) as (Hkept & _).
  apply Hkept. split; [reflexivity |]. left. discriminate.
Defined.

Lemma listAgents_save_demotes_witness :
  ∃ agent', Workflow.agents (listAgents_save 900000000 roster) !! "a3" = Some agent'
            ∧ Agent.status agent' ≠ active.
Proof.
  destruct (listAgents_save_demotes 900000000 roster) as (_ & Hkept & _).
  destruct (Hkept "a3" (Agent.mk "a3" "three" [] (Some "s") active 1000 0))
    as (agent' & Hlook & _ & _ & Hdemoted); [reflexivity |].
  exists agent'. split; [exact Hlook |]. apply Hdemoted.
  split; [reflexivity | simpl; lia].
Defined.

Lemma releaseLock_spares_others_witness :
  Workflow.locks (releaseLock "f.ts" "a2" None 200000 leased).2 !! "f.ts"
  = Some (FileLock.mk "a1" 0 100000 ["foo"] "edit" None).
Proof.
  destruct (releaseLock_spares_others "f.ts" "a2" None 200000 leased) as (Hkept & _).
  apply Hkept; [reflexivity |]. left. discriminate.
Defined.
